(** * Longitudinal statistics calculator (bin/longitudinal_stats.py)

    A shallow embedding of the identity resolver [parse_timepoint_info], the
    trend estimator [calculate_slopes] and the delta calculator
    [calculate_percent_change], of the stats-file parsers [parse_aseg_stats]
    and [parse_aparc_stats], the loader [load_longitudinal_stats] and the
    driver [calculate_longitudinal_stats], together with the parts of the
    Python runtime, pandas, numpy and scipy they call.

    Conventions.
    - A Python [str] is a [string]; a character is a code point below 256.
    - An exception is a value of [exn]; a computation that may raise returns
      a [result].  [try ... except ValueError] is [try_except_ValueError].
    - The column [timepoint_num] is a [list (option Z)].  pandas gives it
      the dtype int64 when every row has an ordinal, float64 (a missing
      ordinal being NaN) when some rows have one, and object (every entry
      [None]) when no row has one; ordinals are int64 values.
    - A column of floats is a list over a number type [T] with the
      operations of [Num], instantiated with binary64 floats.
    - A text file is the list of its lines; a directory is the list of its
      entries, in the order [iterdir] yields them; [float] on a string is a
      parameter ([FloatParser]). *)

From Stdlib Require Import ZArith List String Ascii Bool Arith Lia.
From Stdlib Require Import Permutation Sorted OrderedTypeEx.
From Stdlib Require Import DecimalString Decimal DecimalPos.
From Stdlib Require Import Floats.
Import ListNotations.

Set Implicit Arguments.

(** ** Exceptions and results *)

Inductive exn : Type :=
| ValueError
| IndexError
| KeyError
| TypeError.

Inductive result (A : Type) : Type :=
| Ok (a : A)
| Raise (e : exn).

Arguments Ok {A} a.
Arguments Raise {A} e.

Definition bind {A B : Type} (c : result A) (k : A -> result B) : result B :=
  match c with
  | Ok a => k a
  | Raise e => Raise e
  end.

Declare Scope py_scope.
Delimit Scope py_scope with py.
Notation "x <- c ;; k" := (bind c (fun x => k))
  (at level 61, c at next level, right associativity) : py_scope.
Notation "' pat <- c ;; k" := (bind c (fun x => match x with pat => k end))
  (at level 61, pat pattern, c at next level, right associativity) : py_scope.
Open Scope py_scope.

(** [try: body except ValueError: handler]: only [ValueError] is caught. *)
Definition try_except_ValueError {A : Type} (body handler : result A) : result A :=
  match body with
  | Raise ValueError => handler
  | r => r
  end.

(** [xs[i]] on a Python list, for [i >= 0]. *)
Definition getitem {A : Type} (xs : list A) (i : nat) : result A :=
  match nth_error xs i with
  | Some x => Ok x
  | None => Raise IndexError
  end.

(** ** Python strings *)

Module PyStr.

Open Scope string_scope.

Fixpoint drop (n : nat) (s : string) : string :=
  match n, s with
  | O, _ => s
  | S _, EmptyString => EmptyString
  | S k, String _ r => drop k r
  end.

(** [sub in s]. *)
Fixpoint contains (sub s : string) : bool :=
  prefix sub s ||
  match s with
  | EmptyString => false
  | String _ r => contains sub r
  end.

(** The text before the first occurrence of [sep] and the text after it
    ([s.partition(sep)] when [sep] occurs). *)
Fixpoint find (sep s : string) : option (string * string) :=
  if prefix sep s then Some (EmptyString, drop (length sep) s)
  else match s with
       | EmptyString => None
       | String c r =>
           match find sep r with
           | Some (l, t) => Some (String c l, t)
           | None => None
           end
       end.

Fixpoint split_fuel (fuel : nat) (sep s : string) : list string :=
  match fuel with
  | O => [s]
  | S f =>
      match find sep s with
      | None => [s]
      | Some (l, t) => l :: split_fuel f sep t
      end
  end.

(** [s.split(sep)] for a non-empty [sep]: every occurrence splits, scanning
    from the left.  Each split consumes at least one character, so the fuel
    [S (length s)] is never used up. *)
Definition split (sep s : string) : list string :=
  split_fuel (S (length s)) sep s.

Definition code (c : ascii) : N := N_of_ascii c.

(** ['0' <= c <= '9']. *)
Definition is_decimal (c : ascii) : bool :=
  (48 <=? code c)%N && (code c <=? 57)%N.

(** [str.isdigit] on one character: the decimal digits and, below 256, the
    superscripts U+00B2, U+00B3 and U+00B9. *)
Definition isdigit (c : ascii) : bool :=
  is_decimal c || (code c =? 178)%N || (code c =? 179)%N || (code c =? 185)%N.

(** [''.join(filter(p, s))]. *)
Fixpoint filter_chars (p : ascii -> bool) (s : string) : string :=
  match s with
  | EmptyString => EmptyString
  | String c r => if p c then String c (filter_chars p r) else filter_chars p r
  end.

(** White space that [int] strips: tab, line feed, vertical tab, form feed,
    carriage return, space, and U+0085 and U+00A0. *)
Definition is_space (c : ascii) : bool :=
  ((9 <=? code c)%N && (code c <=? 13)%N) ||
  (code c =? 32)%N || (code c =? 133)%N || (code c =? 160)%N.

Definition digit_val (c : ascii) : Z := Z.of_N (code c) - 48.

Fixpoint lstrip (s : string) : string :=
  match s with
  | String c r => if is_space c then lstrip r else s
  | EmptyString => EmptyString
  end.

Fixpoint all_space (s : string) : bool :=
  match s with
  | EmptyString => true
  | String c r => is_space c && all_space r
  end.

(** The digits of an [int] literal after its first digit: decimal digits,
    with single underscores between digits.  Returns the value and the text
    left over. *)
Fixpoint scan_digits (acc : Z) (prev_underscore : bool) (s : string)
  : option (Z * string) :=
  match s with
  | EmptyString => if prev_underscore then None else Some (acc, EmptyString)
  | String c r =>
      if is_decimal c then scan_digits (10 * acc + digit_val c) false r
      else if Ascii.eqb c "_" then
             if prev_underscore then None else scan_digits acc true r
      else if prev_underscore then None else Some (acc, s)
  end.

Definition parse_sign (s : string) : bool * string :=
  match s with
  | String c r =>
      if Ascii.eqb c "+" then (false, r)
      else if Ascii.eqb c "-" then (true, r)
      else (false, s)
  | EmptyString => (false, s)
  end.

(** [int(s)] for a string [s], base 10: optional white space, an optional
    sign, digits, optional white space; anything else is a [ValueError].
    (The interpreter's configurable cap on the number of digits,
    [sys.set_int_max_str_digits], is not modelled.) *)
Definition int (s : string) : result Z :=
  let (neg, body) := parse_sign (lstrip s) in
  match body with
  | String c r =>
      if is_decimal c then
        match scan_digits (digit_val c) false r with
        | Some (n, rest) =>
            if all_space rest then Ok (if neg then (- n)%Z else n)
            else Raise ValueError
        | None => Raise ValueError
        end
      else Raise ValueError
  | EmptyString => Raise ValueError
  end.

(** [str(n)] for an integer [n]. *)
Definition str (n : Z) : string := NilZero.string_of_int (Z.to_int n).

End PyStr.

(** ** Identity resolver *)

Open Scope string_scope.

Definition parse_timepoint_info (subject_id : string)
  : result (string * option string * option Z) :=
  if PyStr.contains "_ses-" subject_id then
    let parts := PyStr.split "_ses-" subject_id in
    base_id <- getitem parts 0 ;;
    p1 <- getitem parts 1 ;;
    let session_id := "ses-" ++ p1 in
    tp_num <- try_except_ValueError
                (p1 <- getitem parts 1 ;;
                 n <- PyStr.int (PyStr.filter_chars PyStr.isdigit p1) ;;
                 Ok (Some n))
                (Ok None) ;;
    Ok (base_id, Some session_id, tp_num)
  else if PyStr.contains "_tp" subject_id then
    let parts := PyStr.split "_tp" subject_id in
    base_id <- getitem parts 0 ;;
    '(tp_num, session_id) <-
       try_except_ValueError
         (p1 <- getitem parts 1 ;;
          n <- PyStr.int p1 ;;
          Ok (Some n, "tp" ++ PyStr.str n))
         (p1 <- getitem parts 1 ;;
          Ok (None, "tp" ++ p1)) ;;
    Ok (base_id, Some session_id, tp_num)
  else
    Ok (subject_id, None, None).

Close Scope string_scope.

(** ** Numbers

    The arithmetic the statistics are computed with.  [of_Z] is the
    conversion of an integer to the number type, [nan] the missing value,
    [eqb] and [ltb] are [==] and [<], [isnan] is [np.isnan] / [pd.isna]. *)

Class Num (T : Type) : Type := {
  of_Z : Z -> T;
  nan : T;
  tiny : T;
  add : T -> T -> T;
  sub : T -> T -> T;
  mul : T -> T -> T;
  div : T -> T -> T;
  sqrt : T -> T;
  eqb : T -> T -> bool;
  ltb : T -> T -> bool;
  isnan : T -> bool
}.

(** Two-sided p-value of a t statistic with [df] degrees of freedom
    (scipy's [_ttest_finish], a special function taken as a parameter). *)
Class TTest (T : Type) : Type := {
  ttest_finish : nat -> T -> T
}.

(** [numpy.argsort] with the default [kind='quicksort'] on the integer keys:
    the positions of the keys in sorted order.  Which of two equal keys comes
    first is the algorithm's choice. *)
Class Sorter : Type := {
  argsort : list Z -> list nat
}.

(** [xs[idx]] with an index array. *)
Definition take {A : Type} (idx : list nat) (xs : list A) : list A :=
  flat_map (fun i => match nth_error xs i with Some x => [x] | None => [] end) idx.

(** What [argsort] promises: a permutation of the positions that puts the
    keys in non-decreasing order. *)
Definition argsort_spec (S : Sorter) : Prop :=
  forall ks : list Z,
    Permutation (argsort ks) (seq 0 (List.length ks)) /\
    StronglySorted Z.le (take (argsort ks) ks).

(** *** Binary64 floats *)

(** The conversion of an integer to binary64: the nearest float, ties to
    even. *)
Definition float_of_Z (z : Z) : float :=
  SF2Prim (SpecFloat.binary_normalize FloatOps.prec FloatOps.emax z 0 false).

#[export] Instance float_num : Num float := {
  of_Z := float_of_Z;
  nan := PrimFloat.nan;
  tiny := 0x1.79ca10c924223p-67%float;
  add := PrimFloat.add;
  sub := PrimFloat.sub;
  mul := PrimFloat.mul;
  div := PrimFloat.div;
  sqrt := PrimFloat.sqrt;
  eqb := PrimFloat.eqb;
  ltb := PrimFloat.ltb;
  isnan := PrimFloat.is_nan
}.

(** *** A stable insertion sort of positions

    One sorter that meets the contract; numpy's scalar quicksort sorts
    arrays of at most 16 entries this way. *)

Fixpoint insert_idx (ks : list Z) (i : nat) (sorted : list nat) : list nat :=
  match sorted with
  | [] => [i]
  | j :: rest =>
      if (nth i ks 0 <? nth j ks 0)%Z then i :: sorted
      else j :: insert_idx ks i rest
  end.

Definition insertion_argsort (ks : list Z) : list nat :=
  fold_left (fun acc i => insert_idx ks i acc) (seq 0 (List.length ks)) [].

Definition insertion_sorter : Sorter := {| argsort := insertion_argsort |}.

(** A [TTest] that reports NaN, for the statements in which the p-value
    plays no part. *)
Definition no_ttest {T : Type} {num : Num T} : TTest T :=
  {| ttest_finish := fun _ _ => nan |}.

(** ** The longitudinal table

    One row of the DataFrame built by [load_longitudinal_stats].  The column
    [timepoint_num] holds the resolver's ordinal ([None] when the id carried
    none): pandas stores it as int64, as float64 with NaN for the missing
    entries (exact for ordinals up to 2^53), or, when every entry is missing,
    as a column of [None] objects.  The column [value] is float64, a missing
    value being [nan]. *)

Record Measurement (T : Type) : Type := {
  base_subject : string;
  timepoint_id : string;
  session : option string;
  timepoint_num : option Z;
  measure_type : string;
  structure : string;
  value : T
}.

Definition key : Type := (string * string * string)%type.

Definition key_of {T : Type} (r : Measurement T) : key :=
  (base_subject r, measure_type r, structure r).

Definition key_compare (a b : key) : comparison :=
  let '(a1, a2, a3) := a in
  let '(b1, b2, b3) := b in
  match String.compare a1 b1 with
  | Eq => match String.compare a2 b2 with
          | Eq => String.compare a3 b3
          | c => c
          end
  | c => c
  end.

Definition key_eqb (a b : key) : bool :=
  match key_compare a b with Eq => true | _ => false end.

Fixpoint insert_key (k : key) (ks : list key) : list key :=
  match ks with
  | [] => [k]
  | k' :: rest =>
      match key_compare k k' with
      | Lt => k :: ks
      | Eq => ks
      | Gt => k' :: insert_key k rest
      end
  end.

(** The distinct group keys in sorted order ([groupby] sorts its keys). *)
Definition group_keys {T : Type} (df : list (Measurement T)) : list key :=
  fold_right insert_key [] (map key_of df).

Definition group_rows {T : Type} (df : list (Measurement T)) (k : key)
  : list (Measurement T) :=
  filter (fun r => key_eqb (key_of r) k) df.

(** [df.groupby(['base_subject', 'measure_type', 'structure'])]: each key
    with its rows, the rows in their order in [df]. *)
Definition groupby {T : Type} (df : list (Measurement T))
  : list (key * list (Measurement T)) :=
  map (fun k => (k, group_rows df k)) (group_keys df).

Definition has_ordinal {T : Type} (r : Measurement T) : bool :=
  match timepoint_num r with Some _ => true | None => false end.

Definition ordinals {T : Type} (rows : list (Measurement T)) : list Z :=
  flat_map (fun r => match timepoint_num r with Some z => [z] | None => [] end) rows.

(** [group.sort_values('timepoint_num')]: the rows that have an ordinal in
    the order [argsort] gives their ordinals, then the rows without one, in
    their original order ([na_position='last']). *)
Definition sort_values {T : Type} {S : Sorter} (group : list (Measurement T))
  : list (Measurement T) :=
  let keyed := filter has_ordinal group in
  let missing := filter (fun r => negb (has_ordinal r)) group in
  take (argsort (ordinals keyed)) keyed ++ missing.

(** [xs[mask]] with a boolean mask. *)
Fixpoint np_select {A : Type} (mask : list bool) (xs : list A) : list A :=
  match mask, xs with
  | b :: m, x :: r => if b then x :: np_select m r else np_select m r
  | _, _ => []
  end.

(** ** scipy.stats.linregress

    The routine as current SciPy releases have it: it raises [ValueError]
    on empty input and when all [x] are identical, sets [r] to zero when a
    variance is zero, and treats two points apart. *)

Section Linregress.

Context {T : Type} {num : Num T} {tt : TTest T}.

Definition zero : T := of_Z 0.
Definition one : T := of_Z 1.

(** An entry of the ordinal array as a number. *)
Definition to_num (x : option Z) : T :=
  match x with
  | Some z => of_Z z
  | None => nan
  end.

(** [np.amax] and [np.amin] on the ordinal array: [None] (NaN) as soon as
    one entry is missing. *)
Definition nan_lift (f : Z -> Z -> Z) (a b : option Z) : option Z :=
  match a, b with
  | Some x, Some y => Some (f x y)
  | _, _ => None
  end.

Definition np_amax (x0 : option Z) (xs : list (option Z)) : option Z :=
  fold_left (nan_lift Z.max) xs x0.

Definition np_amin (x0 : option Z) (xs : list (option Z)) : option Z :=
  fold_left (nan_lift Z.min) xs x0.

(** [a == b] on two entries: a missing value equals nothing. *)
Definition ordinal_eq (a b : option Z) : bool :=
  match a, b with
  | Some x, Some y => Z.eqb x y
  | _, _ => false
  end.

Definition np_sum (xs : list T) : T := fold_left add xs zero.

Definition np_mean (xs : list T) : T :=
  div (np_sum xs) (of_Z (Z.of_nat (List.length xs))).

Definition np_dot (xs ys : list T) : T :=
  np_sum (map (fun p => mul (fst p) (snd p)) (combine xs ys)).

(** [np.cov(x, y, bias=1)]: the entries [ssxm], [ssxym], [ssym] of the
    covariance matrix (deviations from the mean, their products summed, and
    the sums scaled by [1 / n]). *)
Definition np_cov (x y : list T) : T * T * T :=
  let dx := map (fun a => sub a (np_mean x)) x in
  let dy := map (fun a => sub a (np_mean y)) y in
  let w := div one (of_Z (Z.of_nat (List.length x))) in
  (mul (np_dot dx dx) w, mul (np_dot dx dy) w, mul (np_dot dy dy) w).

Record Fit : Type := {
  fit_slope : T;
  fit_intercept : T;
  fit_rvalue : T;
  fit_pvalue : T;
  fit_stderr : T
}.

Definition clip_r (r : T) : T :=
  if ltb one r then one
  else if ltb r (of_Z (-1)) then of_Z (-1)
  else r.

(** [np.amax(x) == np.amin(x)]. *)
Definition identical_ordinals (x : list (option Z)) : bool :=
  match x with
  | [] => false
  | x0 :: xs => ordinal_eq (np_amax x0 xs) (np_amin x0 xs)
  end.

(** What the wrapper of [linregress] returns when an input holds a NaN
    ([nan_policy='propagate']): every field is NaN. *)
Definition nan_fit : Fit :=
  {| fit_slope := nan; fit_intercept := nan; fit_rvalue := nan;
     fit_pvalue := nan; fit_stderr := nan |}.

Definition missing (o : option Z) : bool :=
  match o with Some _ => false | None => true end.

(** [scipy.stats.linregress(x, y)] on a numeric [x] (int64, or float64 with
    NaN for [None]) and a float64 [y].  The sums of [np.mean] and [np.cov]
    are taken from left to right; numpy leaves their order to its kernels,
    and for two points there is one order only. *)
Definition linregress (x : list (option Z)) (y : list T) : result Fit :=
  match x, y with
  | [], _ => Raise ValueError
  | _, [] => Raise ValueError
  | _ :: _, _ :: _ =>
      if existsb missing x || existsb isnan y then Ok nan_fit
      else if identical_ordinals x && (1 <? List.length x)%nat
      then Raise ValueError
      else
        let n := List.length x in
        let xf := map to_num x in
        let xmean := np_mean xf in
        let ymean := np_mean y in
        let '(ssxm, ssxym, ssym) := np_cov xf y in
        let r :=
          if eqb ssxm zero || eqb ssym zero
          then (if eqb ssxym zero then nan else zero)
          else clip_r (div ssxym (sqrt (mul ssxm ssym))) in
        let slope := div ssxym ssxm in
        let intercept := sub ymean (mul slope xmean) in
        if (n =? 2)%nat then
          let prob :=
            match y with
            | y0 :: y1 :: _ => if eqb y0 y1 then one else zero
            | _ => zero
            end in
          Ok {| fit_slope := slope; fit_intercept := intercept; fit_rvalue := r;
                fit_pvalue := prob; fit_stderr := zero |}
        else
          let df := (n - 2)%nat in
          let dff := of_Z (Z.of_nat df) in
          let t := mul r (sqrt (div dff (mul (add (sub one r) tiny)
                                             (add (add one r) tiny)))) in
          let prob := ttest_finish df t in
          let stderr := sqrt (div (div (mul (sub one (mul r r)) ssym) ssxm) dff) in
          Ok {| fit_slope := slope; fit_intercept := intercept; fit_rvalue := r;
                fit_pvalue := prob; fit_stderr := stderr |}
  end.

(** The call [stats.linregress(timepoints, values)]: on a column of [None]
    objects it raises [TypeError]. *)
Definition linregress_on (object_dtype : bool) (x : list (option Z)) (y : list T)
  : result Fit :=
  if object_dtype then Raise TypeError else linregress x y.

End Linregress.

(** ** Trend estimator and delta calculator *)

Record TrendResult (T : Type) : Type := {
  tr_base_subject : string;
  tr_measure_type : string;
  tr_structure : string;
  n_timepoints : nat;
  baseline_value : T;
  final_value : T;
  slope : T;
  intercept : T;
  r_squared : T;
  p_value : T;
  std_error : T;
  absolute_change : T;
  percent_change : option T;
  timepoint_span : option Z
}.

Record DeltaResult (T : Type) : Type := {
  dr_base_subject : string;
  dr_measure_type : string;
  dr_structure : string;
  timepoint_from : string;
  timepoint_to : string;
  tp_num_from : option Z;
  tp_num_to : option Z;
  value_from : T;
  value_to : T;
  dr_absolute_change : T;
  dr_percent_change : T
}.

(** A [for] loop that appends rows and stops at the first exception. *)
Fixpoint for_each {A B : Type} (body : A -> result (list B)) (xs : list A)
  : result (list B) :=
  match xs with
  | [] => Ok []
  | x :: rest =>
      rows <- body x ;;
      more <- for_each body rest ;;
      Ok (rows ++ more)
  end.

Section Calculators.

Context {T : Type} {num : Num T} {tt : TTest T} {sorter : Sorter}.

(** The two arrays the fit is computed from: the sorted group's ordinals and
    values, both masked by [~np.isnan(values)]. *)
Definition masked_arrays (group : list (Measurement T)) : list (option Z) * list T :=
  let group := sort_values group in
  let timepoints := map (@timepoint_num T) group in
  let values := map (@value T) group in
  let mask := map (fun v => negb (isnan v)) values in
  (np_select mask timepoints, np_select mask values).

(** Subtraction of int64 values wraps around. *)
Definition wrap_int64 (z : Z) : Z :=
  ((z + 2 ^ 63) mod 2 ^ 64 - 2 ^ 63)%Z.

(** [timepoints[-1] - timepoints[0]]: NaN when either is missing, the int64
    difference otherwise.  In a float64 column the difference is the same
    number as long as it is at most 2^53 in absolute value, which it is for
    ordinals up to 2^52; a larger one is rounded there. *)
Definition span (first_tp last_tp : option Z) : option Z :=
  match first_tp, last_tp with
  | Some a, Some b => Some (wrap_int64 (b - a))
  | _, _ => None
  end.

(** The body of the loop of [calculate_slopes] for one group: the rows it
    appends (none or one), or the exception it raises.  [object_dtype]
    tells whether the column [timepoint_num] of the table is a column of
    [None] objects. *)
Definition slope_rows_in (object_dtype : bool) (g : key * list (Measurement T))
  : result (list (TrendResult T)) :=
  let '((base_subj, mtype, struct), group) := g in
  if (List.length group <? 2)%nat then Ok []
  else
    let '(timepoints, values) := masked_arrays group in
    if (List.length timepoints <? 2)%nat then Ok []
    else
      fit <- linregress_on object_dtype timepoints values ;;
      baseline <- getitem values 0 ;;
      final <- getitem values (List.length values - 1) ;;
      let pct :=
        if negb (eqb baseline zero)
        then Some (mul (div (sub final baseline) baseline) (of_Z 100))
        else None in
      let abs_change := sub final baseline in
      tp_last <- getitem timepoints (List.length timepoints - 1) ;;
      tp_first <- getitem timepoints 0 ;;
      Ok [ {| tr_base_subject := base_subj;
              tr_measure_type := mtype;
              tr_structure := struct;
              n_timepoints := List.length timepoints;
              baseline_value := baseline;
              final_value := final;
              slope := fit_slope fit;
              intercept := fit_intercept fit;
              r_squared := mul (fit_rvalue fit) (fit_rvalue fit);
              p_value := fit_pvalue fit;
              std_error := fit_stderr fit;
              absolute_change := abs_change;
              percent_change := pct;
              timepoint_span := span tp_first tp_last |} ].

(** The loop body on a table in which some row has an ordinal. *)
Definition slope_rows (g : key * list (Measurement T)) : result (list (TrendResult T)) :=
  slope_rows_in false g.

(** Whether no row of the table has an ordinal. *)
Definition object_column (df : list (Measurement T)) : bool :=
  forallb (fun r => negb (has_ordinal r)) df.

(** An empty DataFrame has no columns: [groupby] raises [KeyError]. *)
Definition calculate_slopes (df : list (Measurement T)) : result (list (TrendResult T)) :=
  match df with
  | [] => Raise KeyError
  | _ => for_each (slope_rows_in (object_column df)) (groupby df)
  end.

(** The body of the inner loop of [calculate_percent_change] for the rows at
    positions [i] and [i + 1]. *)
Definition change_rows (k : key) (row1 row2 : Measurement T) : list (DeltaResult T) :=
  let '(base_subj, mtype, struct) := k in
  let value1 := value row1 in
  let value2 := value row2 in
  if negb (isnan value1) && negb (isnan value2) && negb (eqb value1 zero) then
    [ {| dr_base_subject := base_subj;
         dr_measure_type := mtype;
         dr_structure := struct;
         timepoint_from := timepoint_id row1;
         timepoint_to := timepoint_id row2;
         tp_num_from := timepoint_num row1;
         tp_num_to := timepoint_num row2;
         value_from := value1;
         value_to := value2;
         dr_absolute_change := sub value2 value1;
         dr_percent_change := mul (div (sub value2 value1) value1) (of_Z 100) |} ]
  else [].

(** [for i in range(len(group) - 1)] over the sorted group. *)
Fixpoint adjacent_changes (k : key) (rows : list (Measurement T)) : list (DeltaResult T) :=
  match rows with
  | row1 :: (row2 :: _) as rest => change_rows k row1 row2 ++ adjacent_changes k rest
  | _ => []
  end.

Definition delta_rows (g : key * list (Measurement T)) : result (list (DeltaResult T)) :=
  Ok (adjacent_changes (fst g) (sort_values (snd g))).

Definition calculate_percent_change (df : list (Measurement T))
  : result (list (DeltaResult T)) :=
  match df with
  | [] => Raise KeyError
  | _ => for_each delta_rows (groupby df)
  end.

End Calculators.

(** ** Text of the stats files *)

Module PyText.

Open Scope string_scope.

(** [str.isspace] on one character below 256: the characters [strip] and
    [split] treat as white space. *)
Definition isspace (c : ascii) : bool :=
  ((9 <=? PyStr.code c)%N && (PyStr.code c <=? 13)%N) ||
  ((28 <=? PyStr.code c)%N && (PyStr.code c <=? 32)%N) ||
  (PyStr.code c =? 133)%N || (PyStr.code c =? 160)%N.

Fixpoint lstrip (s : string) : string :=
  match s with
  | String c r => if isspace c then lstrip r else s
  | EmptyString => EmptyString
  end.

Fixpoint rstrip (s : string) : string :=
  match s with
  | EmptyString => EmptyString
  | String c r =>
      match rstrip r with
      | EmptyString => if isspace c then EmptyString else String c EmptyString
      | r' => String c r'
      end
  end.

(** [s.strip()]. *)
Definition strip (s : string) : string := rstrip (lstrip s).

(** [s.split()] with no separator: the maximal runs of characters that are
    not white space.  [cur] is the run being read. *)
Fixpoint split_go (cur s : string) : list string :=
  match s with
  | EmptyString =>
      match cur with
      | EmptyString => []
      | _ => [cur]
      end
  | String c r =>
      if isspace c then
        match cur with
        | EmptyString => split_go EmptyString r
        | _ => cur :: split_go EmptyString r
        end
      else split_go (cur ++ String c EmptyString) r
  end.

Definition split (s : string) : list string := split_go EmptyString s.

(** [s.startswith(p)]. *)
Definition startswith (p s : string) : bool := prefix p s.

End PyText.

(** [float(s)] on a string; [None] stands for the [ValueError] it raises
    on a text that is no number.  The conversion itself is a parameter. *)
Class FloatParser (T : Type) : Type := {
  float_of_str : string -> option T
}.

Definition py_float {T : Type} {P : FloatParser T} (s : string) : result T :=
  match float_of_str s with
  | Some v => Ok v
  | None => Raise ValueError
  end.

(** [try: body except (ValueError, IndexError): handler]. *)
Definition try_except_Value_Index {A : Type} (body handler : result A) : result A :=
  match body with
  | Raise ValueError => handler
  | Raise IndexError => handler
  | r => r
  end.

(** A [dict] with string keys: the items in insertion order.  [d[k] = v]
    replaces the value of a key that is present, in place, and appends a
    new key. *)
Fixpoint dict_set {V : Type} (k : string) (v : V) (d : list (string * V))
  : list (string * V) :=
  match d with
  | [] => [(k, v)]
  | (k', v') :: rest =>
      if String.eqb k k' then (k, v) :: rest
      else (k', v') :: dict_set k v rest
  end.

Fixpoint dict_get {V : Type} (k : string) (d : list (string * V)) : option V :=
  match d with
  | [] => None
  | (k', v') :: rest => if String.eqb k k' then Some v' else dict_get k rest
  end.

(** The value of one region in [parse_aparc_stats]. *)
Record Aparc (T : Type) : Type := {
  surface_area_mm2 : T;
  gray_volume_mm3 : T;
  thickness_avg_mm : T
}.

(** A [for line in f] loop over a dict: it stops at the first exception. *)
Fixpoint for_lines {D : Type} (body : D -> string -> result D) (d : D)
  (lines : list string) : result D :=
  match lines with
  | [] => Ok d
  | line :: rest => d' <- body d line ;; for_lines body d' rest
  end.

Section StatsFiles.

Context {T : Type} {P : FloatParser T}.

(** The body of the loop of [parse_aseg_stats] for one line of the file. *)
Definition aseg_line (volumes : list (string * T)) (line : string)
  : result (list (string * T)) :=
  let line := PyText.strip line in
  if PyText.startswith "#" line || String.eqb line "" then Ok volumes
  else
    let parts := PyText.split line in
    if (5 <=? List.length parts)%nat then
      try_except_Value_Index
        (structure <- getitem parts 4 ;;
         p3 <- getitem parts 3 ;;
         volume <- py_float p3 ;;
         Ok (dict_set structure volume volumes))
        (Ok volumes)
    else Ok volumes.

(** [parse_aseg_stats], given the lines of the file. *)
Definition parse_aseg_stats (lines : list string) : result (list (string * T)) :=
  for_lines aseg_line [] lines.

Definition aparc_line (stats : list (string * Aparc T)) (line : string)
  : result (list (string * Aparc T)) :=
  let line := PyText.strip line in
  if PyText.startswith "#" line || String.eqb line "" then Ok stats
  else
    let parts := PyText.split line in
    if (5 <=? List.length parts)%nat then
      try_except_Value_Index
        (region <- getitem parts 0 ;;
         p2 <- getitem parts 2 ;;
         surf_area <- py_float p2 ;;
         p3 <- getitem parts 3 ;;
         gray_vol <- py_float p3 ;;
         p4 <- getitem parts 4 ;;
         thick_avg <- py_float p4 ;;
         Ok (dict_set region
               {| surface_area_mm2 := surf_area;
                  gray_volume_mm3 := gray_vol;
                  thickness_avg_mm := thick_avg |} stats))
        (Ok stats)
    else Ok stats.

(** [parse_aparc_stats], given the lines of the file. *)
Definition parse_aparc_stats (lines : list string)
  : result (list (string * Aparc T)) :=
  for_lines aparc_line [] lines.

(** ** The loader

    One entry of the directory [long_dirs]: its name, whether it is a
    directory, and the lines of the three stats files it may hold ([None]
    when the file does not exist).  [iterdir] yields the entries in the
    order of the list. *)
Record DirEntry : Type := {
  entry_name : string;
  entry_is_dir : bool;
  aseg_stats : option (list string);
  lh_aparc_stats : option (list string);
  rh_aparc_stats : option (list string)
}.

Definition volume_rows (base_id timepoint_id : string) (session_id : option string)
  (tp_num : option Z) (subcortical : list (string * T)) : list (Measurement T) :=
  map (fun item =>
         {| base_subject := base_id; timepoint_id := timepoint_id;
            session := session_id; timepoint_num := tp_num;
            measure_type := "volume"; structure := fst item;
            value := snd item |}) subcortical.

Definition thickness_rows (hemi base_id timepoint_id : string)
  (session_id : option string) (tp_num : option Z)
  (thickness : list (string * Aparc T)) : list (Measurement T) :=
  map (fun item =>
         {| base_subject := base_id; timepoint_id := timepoint_id;
            session := session_id; timepoint_num := tp_num;
            measure_type := "thickness";
            structure := (hemi ++ "_" ++ fst item)%string;
            value := thickness_avg_mm (snd item) |}) thickness.

(** The body of the loop of [load_longitudinal_stats] for one entry: the
    rows it appends. *)
Definition entry_rows (e : DirEntry) : result (list (Measurement T)) :=
  if negb (entry_is_dir e) then Ok []
  else
    let dir_name := entry_name e in
    if negb (PyStr.contains ".long." dir_name) then Ok []
    else
      let parts := PyStr.split ".long." dir_name in
      timepoint_id <- getitem parts 0 ;;
      base_id <- getitem parts 1 ;;
      '(_, session_id, tp_num) <- parse_timepoint_info timepoint_id ;;
      aseg_rows <-
        match aseg_stats e with
        | Some lines =>
            subcortical <- parse_aseg_stats lines ;;
            Ok (volume_rows base_id timepoint_id session_id tp_num subcortical)
        | None => Ok []
        end ;;
      lh_rows <-
        match lh_aparc_stats e with
        | Some lines =>
            thickness <- parse_aparc_stats lines ;;
            Ok (thickness_rows "lh" base_id timepoint_id session_id tp_num thickness)
        | None => Ok []
        end ;;
      rh_rows <-
        match rh_aparc_stats e with
        | Some lines =>
            thickness <- parse_aparc_stats lines ;;
            Ok (thickness_rows "rh" base_id timepoint_id session_id tp_num thickness)
        | None => Ok []
        end ;;
      Ok (aseg_rows ++ lh_rows ++ rh_rows).

(** [load_longitudinal_stats], given the listing of [long_dirs].  The
    summary it prints reads [df['base_subject']], a column an empty
    DataFrame does not have: [KeyError]. *)
Definition load_longitudinal_stats (entries : list DirEntry)
  : result (list (Measurement T)) :=
  rows <- for_each entry_rows entries ;;
  match rows with
  | [] => Raise KeyError
  | _ => Ok rows
  end.

End StatsFiles.

(** ** The whole calculation

    What [calculate_longitudinal_stats] writes, in order, and how it ends.
    Printing is left out. *)

Inductive Written (T : Type) : Type :=
| SlopesCsv (rows : list (TrendResult T))
| PercentCsv (rows : list (DeltaResult T)).

Arguments SlopesCsv {T} rows.
Arguments PercentCsv {T} rows.

Definition is_empty {A : Type} (xs : list A) : bool :=
  match xs with [] => true | _ => false end.

Section Pipeline.

Context {T : Type} {num : Num T} {tt : TTest T} {sorter : Sorter}
        {P : FloatParser T}.

Definition calculate_longitudinal_stats (entries : list DirEntry)
  : list (Written T) * result unit :=
  match load_longitudinal_stats entries with
  | Raise e => ([], Raise e)
  | Ok df =>
      if is_empty df then ([], Ok Datatypes.tt)
      else
        match calculate_slopes df with
        | Raise e => ([], Raise e)
        | Ok slopes_df =>
            let w1 := if negb (is_empty slopes_df) then [SlopesCsv slopes_df] else [] in
            match calculate_percent_change df with
            | Raise e => (w1, Raise e)
            | Ok percent_df =>
                let w2 :=
                  if negb (is_empty percent_df) then [PercentCsv percent_df] else [] in
                (w1 ++ w2, Ok Datatypes.tt)
            end
        end
  end.

End Pipeline.

(** ** Sample tables *)

Definition mk (T : Type) (subj tp : string) (ord : option Z) (v : T) : Measurement T :=
  {| base_subject := subj; timepoint_id := tp; session := None;
     timepoint_num := ord; measure_type := "volume"; structure := "Left-Hippocampus";
     value := v |}.

#[local] Existing Instance insertion_sorter.
#[local] Instance float_no_ttest : TTest float := no_ttest.

Definition df_c8 : list (Measurement float) :=
  [ mk "sub-001" "sub-001_ses-01" (Some 1%Z) 10%float;
    mk "sub-001" "sub-001_ses-02" (Some 2%Z) 20%float;
    mk "sub-001" "sub-001_ses-03" (Some 3%Z) 15%float ].

Definition delta_1_2 : DeltaResult float :=
  {| dr_base_subject := "sub-001"; dr_measure_type := "volume";
     dr_structure := "Left-Hippocampus";
     timepoint_from := "sub-001_ses-01"; timepoint_to := "sub-001_ses-02";
     tp_num_from := Some 1%Z; tp_num_to := Some 2%Z;
     value_from := 10%float; value_to := 20%float;
     dr_absolute_change := 10%float; dr_percent_change := 100%float |}.

Definition delta_2_3 : DeltaResult float :=
  {| dr_base_subject := "sub-001"; dr_measure_type := "volume";
     dr_structure := "Left-Hippocampus";
     timepoint_from := "sub-001_ses-02"; timepoint_to := "sub-001_ses-03";
     tp_num_from := Some 2%Z; tp_num_to := Some 3%Z;
     value_from := 20%float; value_to := 15%float;
     dr_absolute_change := (-5)%float; dr_percent_change := (-25)%float |}.

Definition fmap {A B : Type} (f : A -> B) (c : result A) : result B :=
  match c with
  | Ok a => Ok (f a)
  | Raise e => Raise e
  end.

(** Two sessions whose ids carry the same digits: both rows get ordinal 1. *)
Definition df_same : list (Measurement float) :=
  [ mk "sub-001" "sub-001_ses-1a" (Some 1%Z) 3.5%float;
    mk "sub-001" "sub-001_ses-1b" (Some 1%Z) 3.25%float ].

(** The same with a first value of zero. *)
Definition df_zero_same : list (Measurement float) :=
  [ mk "sub-001" "sub-001_ses-1a" (Some 1%Z) 0%float;
    mk "sub-001" "sub-001_ses-1b" (Some 1%Z) 5%float ].

(** A group with a single row, of value zero. *)
Definition df_single_zero : list (Measurement float) :=
  [ mk "sub-001" "sub-001_ses-01" (Some 1%Z) 0%float ].

(** One row with an ordinal and one whose id carried none. *)
Definition df_null : list (Measurement float) :=
  [ mk "sub-001" "sub-001_ses-01" (Some 1%Z) 1%float;
    mk "sub-001" "sub-001" None 2%float ].

(** A row with a value and an ordinal, a row with a value and no ordinal,
    and a row with an ordinal and no value. *)
Definition df_mixed : list (Measurement float) :=
  [ mk "sub-001" "sub-001_ses-01" (Some 1%Z) 1%float;
    mk "sub-001" "sub-001" None 2%float;
    mk "sub-001" "sub-001_ses-02" (Some 2%Z) PrimFloat.nan ].



(** Three rows of one group, two of them with the same ordinal, and the
    same rows with the tied pair exchanged. *)
Definition df_tie : list (Measurement float) :=
  [ mk "sub-001" "sub-001_ses-1a" (Some 1%Z) 10%float;
    mk "sub-001" "sub-001_ses-1b" (Some 1%Z) 20%float;
    mk "sub-001" "sub-001_ses-02" (Some 2%Z) 30%float ].

Definition df_tie_swapped : list (Measurement float) :=
  [ mk "sub-001" "sub-001_ses-1b" (Some 1%Z) 20%float;
    mk "sub-001" "sub-001_ses-1a" (Some 1%Z) 10%float;
    mk "sub-001" "sub-001_ses-02" (Some 2%Z) 30%float ].

(** The first two rows of [df_c8] and the trend they give. *)
Definition df_two : list (Measurement float) := firstn 2 df_c8.

Definition trend_1_2 : TrendResult float :=
  {| tr_base_subject := "sub-001"; tr_measure_type := "volume";
     tr_structure := "Left-Hippocampus";
     n_timepoints := 2;
     baseline_value := 10%float; final_value := 20%float;
     slope := 10%float; intercept := 0%float; r_squared := 1%float;
     p_value := 0%float; std_error := 0%float;
     absolute_change := 10%float; percent_change := Some 100%float;
     timepoint_span := Some 1%Z |}.

Definition k0 : key := ("sub-001", "volume", "Left-Hippocampus")%string.

(** A pair whose earlier value is zero. *)
Definition df_zero : list (Measurement float) :=
  [ mk "sub-001" "sub-001_ses-01" (Some 1%Z) 0%float;
    mk "sub-001" "sub-001_ses-02" (Some 2%Z) 6%float ].

(** The trend rows of three of the tables above. *)
Definition trend_mixed : TrendResult float :=
  Eval vm_compute in
    match calculate_slopes df_mixed with
    | Ok (row :: _) => row
    | _ => trend_1_2
    end.

Definition trend_zero : TrendResult float :=
  Eval vm_compute in
    match calculate_slopes df_zero with
    | Ok (row :: _) => row
    | _ => trend_1_2
    end.



(** ** Vocabulary of the statements *)

(** The text of [t] up to the next occurrence of [sep], all of [t] when
    there is none: the second element of a [split] whose first separator
    has been consumed. *)
Definition first_segment (sep t : string) : string :=
  match PyStr.find sep t with
  | Some (r, _) => r
  | None => t
  end.

Fixpoint all_chars (p : ascii -> bool) (s : string) : bool :=
  match s with
  | EmptyString => true
  | String c r => p c && all_chars p r
  end.

Fixpoint decimal_value (acc : Z) (s : string) : Z :=
  match s with
  | EmptyString => acc
  | String c r => decimal_value (10 * acc + PyStr.digit_val c) r
  end.

(** The integer a run of digit characters denotes: defined when the run is
    not empty and holds decimal digits only. *)
Definition digits_value (d : string) : option Z :=
  match d with
  | EmptyString => None
  | _ => if all_chars PyStr.is_decimal d then Some (decimal_value 0 d) else None
  end.

(** A row whose value is not missing, and the rows of a group that the
    trend estimator keeps: the sorted group without the rows whose value is
    missing. *)
Definition valid {T : Type} {num : Num T} (r : Measurement T) : bool :=
  negb (isnan (value r)).

Definition surviving {T : Type} {num : Num T} {sorter : Sorter}
  (g : list (Measurement T)) : list (Measurement T) :=
  filter valid (sort_values g).

(** The row [calculate_slopes] appends for a group, given the first and the
    last surviving row, the number of surviving rows and the fit. *)
Definition trend_of {T : Type} {num : Num T} (k : key)
  (first_row last_row : Measurement T) (n : nat) (fit : Fit (T := T))
  : TrendResult T :=
  {| tr_base_subject := fst (fst k);
     tr_measure_type := snd (fst k);
     tr_structure := snd k;
     n_timepoints := n;
     baseline_value := value first_row;
     final_value := value last_row;
     slope := fit_slope fit;
     intercept := fit_intercept fit;
     r_squared := mul (fit_rvalue fit) (fit_rvalue fit);
     p_value := fit_pvalue fit;
     std_error := fit_stderr fit;
     absolute_change := sub (value last_row) (value first_row);
     percent_change :=
       if negb (eqb (value first_row) zero)
       then Some (mul (div (sub (value last_row) (value first_row)) (value first_row))
                      (of_Z 100))
       else None;
     timepoint_span := span (timepoint_num first_row) (timepoint_num last_row) |}.

(** What [parse_timepoint_info] returns, rule by rule. *)
Definition resolution (s : string) : string * option string * option Z :=
  match PyStr.find "_ses-" s with
  | Some (l, t) =>
      let r := first_segment "_ses-" t in
      (l, Some ("ses-" ++ r)%string,
       digits_value (PyStr.filter_chars PyStr.isdigit r))
  | None =>
      match PyStr.find "_tp" s with
      | Some (l, t) =>
          let r := first_segment "_tp" t in
          match PyStr.int r with
          | Ok n => (l, Some ("tp" ++ PyStr.str n)%string, Some n)
          | Raise _ => (l, Some ("tp" ++ r)%string, None)
          end
      | None => (s, None, None)
      end
  end.

(** The ordinal of a row that has one. *)
Definition ord0 {T : Type} (r : Measurement T) : Z :=
  match timepoint_num r with Some z => z | None => 0%Z end.

(** The rows with an ordinal, as [sort_values] orders them. *)
Definition sorted_keyed {T : Type} {sorter : Sorter} (g : list (Measurement T))
  : list (Measurement T) :=
  take (argsort (ordinals (filter has_ordinal g))) (filter has_ordinal g).

(** The strict order on group keys. *)
Definition key_lt (a b : key) : Prop := key_compare a b = Lt.

(** The session rule read with the marker [ses-] and a single split: the
    text before the first [ses-], the text after it with [ses-] put back in
    front, and the number its decimal digits spell. *)
Definition claimed_session_rule (raw : string) : option (string * option string * option Z) :=
  match PyStr.find "ses-" raw with
  | Some (l, r) =>
      Some (l, Some ("ses-" ++ r)%string,
            digits_value (PyStr.filter_chars PyStr.is_decimal r))
  | None => None
  end.

(** *** Lines of the stats files *)

Section StatsVocabulary.

Context {T : Type} {P : FloatParser T}.

(** The lines of [aseg.stats] that store [volumes[k] = v]: the first field
    does not start with [#], there are at least five fields, the fifth is
    [k] and the fourth reads as the number [v]. *)
Definition aseg_sets (line k : string) (v : T) : Prop :=
  exists p0 p1 p2 p3 more,
    PyText.split line = p0 :: p1 :: p2 :: p3 :: k :: more /\
    PyText.startswith "#" p0 = false /\
    float_of_str p3 = Some v.

(** The lines of an [aparc.stats] that store [stats[region] = m]: the first
    field is [region] and does not start with [#], and the third, fourth and
    fifth fields read as the three numbers of [m]. *)
Definition aparc_sets (line region : string) (m : Aparc T) : Prop :=
  exists p1 p2 p3 p4 more,
    PyText.split line = region :: p1 :: p2 :: p3 :: p4 :: more /\
    PyText.startswith "#" region = false /\
    float_of_str p2 = Some (surface_area_mm2 m) /\
    float_of_str p3 = Some (gray_volume_mm3 m) /\
    float_of_str p4 = Some (thickness_avg_mm m).

(** Comment lines, blank lines and lines with fewer than five fields. *)
Definition no_data_line (line : string) : Prop :=
  PyText.startswith "#" (PyText.strip line) = true \/
  PyText.strip line = ""%string \/
  (List.length (PyText.split line) < 5)%nat.

(** The field at position [i] of a line exists and is not a number. *)
Definition bad_number (line : string) (i : nat) : Prop :=
  exists p, nth_error (PyText.split line) i = Some p /\ float_of_str p = None.

(** What a line with the fields [parts] stores in [volumes], if anything. *)
Definition aseg_fields (parts : list string) : option (string * T) :=
  match parts with
  | p0 :: _ :: _ :: p3 :: k :: _ =>
      if PyText.startswith "#" p0 then None
      else
        match float_of_str p3 with
        | Some v => Some (k, v)
        | None => None
        end
  | _ => None
  end.

Definition aparc_fields (parts : list string) : option (string * Aparc T) :=
  match parts with
  | region :: _ :: p2 :: p3 :: p4 :: _ =>
      if PyText.startswith "#" region then None
      else
        match float_of_str p2, float_of_str p3, float_of_str p4 with
        | Some a, Some g, Some t =>
            Some (region, {| surface_area_mm2 := a; gray_volume_mm3 := g;
                             thickness_avg_mm := t |})
        | _, _, _ => None
        end
  | _ => None
  end.

End StatsVocabulary.

(** [d[k] = v] for the item a line stores, if any. *)
Definition put {V : Type} (item : option (string * V)) (d : list (string * V))
  : list (string * V) :=
  match item with
  | Some (k, v) => dict_set k v d
  | None => d
  end.

(** The dict after a loop that stores, line by line, what [item] gives. *)
Definition stored {V : Type} (item : string -> option (string * V))
  (d : list (string * V)) (lines : list string) : list (string * V) :=
  fold_left (fun d line => put (item line) d) lines d.

(** The dict read from a stats file that may be missing. *)
Definition aseg_dict {T : Type} {P : FloatParser T} (lines : option (list string))
  : list (string * T) :=
  match lines with
  | Some lines => stored (fun line => aseg_fields (PyText.split line)) [] lines
  | None => []
  end.

Definition aparc_dict {T : Type} {P : FloatParser T} (lines : option (list string))
  : list (string * Aparc T) :=
  match lines with
  | Some lines => stored (fun line => aparc_fields (PyText.split line)) [] lines
  | None => []
  end.

(** The order [sort_values] leaves two ordinals in: ascending, with the
    missing ones last. *)
Definition ordinal_le (a b : option Z) : Prop :=
  match a, b with
  | Some x, Some y => (x <= y)%Z
  | None, Some _ => False
  | _, None => True
  end.

Definition by_ordinal {T : Type} (r1 r2 : Measurement T) : Prop :=
  ordinal_le (timepoint_num r1) (timepoint_num r2).

(** The group key of an output row. *)
Definition trend_key {T : Type} (r : TrendResult T) : key :=
  (tr_base_subject r, tr_measure_type r, tr_structure r).

Definition delta_key {T : Type} (d : DeltaResult T) : key :=
  (dr_base_subject d, dr_measure_type d, dr_structure d).


(** *** Sample files and listings *)

(** A sample [FloatParser]: [float] on the texts made of at most fifteen
    decimal digits, where its value is the integer they spell; this sample
    rejects every other text. *)
Definition digits_parser : FloatParser float :=
  {| float_of_str := fun s =>
       match s with
       | EmptyString => None
       | _ =>
           if all_chars PyStr.is_decimal s && (String.length s <=? 15)%nat
           then Some (float_of_Z (decimal_value 0 s))
           else None
       end |}.

#[local] Existing Instance digits_parser.

Definition aseg_sample (volume : string) : list string :=
  [ "# Title Segmentation Statistics";
    "";
    "# ColHeaders  Index SegId NVoxels Volume_mm3 StructName";
    "  1   4  9000  9000  Left-Lateral-Ventricle  30 10";
    ("  2  17  4100  " ++ volume ++ "  Left-Hippocampus  60 8")%string;
    "  3  18  n/a  n/a  Left-Amygdala  60 8";
    "  4  53" ]%string.

Definition aparc_sample : list string :=
  [ "# ColHeaders StructName NumVert SurfArea GrayVol ThickAvg";
    "bankssts  1200  800  2100  3  0" ]%string.

Definition entry (name : string) (dir : bool) (aseg lh rh : option (list string))
  : DirEntry :=
  {| entry_name := name; entry_is_dir := dir; aseg_stats := aseg;
     lh_aparc_stats := lh; rh_aparc_stats := rh |}.

Definition listing_sample : list DirEntry :=
  [ entry "sub-001_ses-01.long.sub-001" true
      (Some (aseg_sample "4100")) (Some aparc_sample) None;
    entry "README.txt" false None None None;
    entry "sub-001_ses-01" true (Some (aseg_sample "4100")) None None;
    entry "sub-001_ses-02.long.sub-001" true
      (Some (aseg_sample "4000")) None (Some aparc_sample) ].

(** The table loaded from [listing_sample]. *)
Definition loaded_sample : list (Measurement float) :=
  Eval vm_compute in
    match load_longitudinal_stats listing_sample with
    | Ok df => df
    | Raise _ => []
    end.

(** Two directories of one subject whose sessions carry the same number. *)
Definition listing_same_session : list DirEntry :=
  [ entry "sub-001_ses-1a.long.sub-001" true (Some (aseg_sample "4100")) None None;
    entry "sub-001_ses-1b.long.sub-001" true (Some (aseg_sample "4000")) None None ].

(** The two tables computed from [loaded_sample]. *)
Definition slopes_sample : list (TrendResult float) :=
  Eval vm_compute in
    match calculate_slopes loaded_sample with
    | Ok rows => rows
    | Raise _ => []
    end.

Definition deltas_sample : list (DeltaResult float) :=
  Eval vm_compute in
    match calculate_percent_change loaded_sample with
    | Ok rows => rows
    | Raise _ => []
    end.

(** Two directories of one subject with one line of [aseg.stats] each. *)
Definition listing_pair : list DirEntry :=
  [ entry "sub-001_ses-01.long.sub-001" true
      (Some ["  2  17  4100  4100  Left-Hippocampus  60 8"%string]) None None;
    entry "sub-001_ses-02.long.sub-001" true
      (Some ["  2  17  4000  4000  Left-Hippocampus  60 8"%string]) None None ].

(** * Properties *)

(** ** Strings: [in], [find], [split] *)

Module PyStrFacts.

Import PyStr.
Open Scope string_scope.

Lemma prefix_drop (sep s : string) :
  prefix sep s = true -> s = sep ++ drop (length sep) s.
Proof.
  revert s. induction sep as [|a sep IH]; intros s H.
  - reflexivity.
  - destruct s as [|b s]; simpl in H; [discriminate|].
    destruct (ascii_dec a b) as [->|]; [|discriminate].
    simpl. f_equal. now apply IH.
Qed.

Lemma prefix_app (sep t : string) : prefix sep (sep ++ t) = true.
Proof.
  induction sep as [|a sep IH]; simpl; [now destruct t|].
  destruct (ascii_dec a a); [exact IH|congruence].
Qed.

Lemma length_app (a b : string) : length (a ++ b) = (length a + length b)%nat.
Proof. induction a; simpl; congruence. Qed.

Lemma find_eq (sep s : string) :
  find sep s =
  if prefix sep s then Some ("", drop (length sep) s)
  else match s with
       | "" => None
       | String c r =>
           match find sep r with
           | Some (l, t) => Some (String c l, t)
           | None => None
           end
       end.
Proof. destruct s; reflexivity. Qed.

Lemma contains_eq (sep s : string) :
  contains sep s =
  prefix sep s || match s with "" => false | String _ r => contains sep r end.
Proof. destruct s; reflexivity. Qed.

Lemma find_split (sep s l t : string) :
  find sep s = Some (l, t) -> s = l ++ sep ++ t.
Proof.
  revert l t. induction s as [|c s IH]; intros l t H; rewrite find_eq in H;
    destruct (prefix sep _) eqn:P.
  - inversion H; subst. simpl. now apply prefix_drop.
  - discriminate.
  - inversion H; subst. simpl. now apply prefix_drop.
  - destruct (find sep s) as [[l' t']|] eqn:F; [|discriminate].
    inversion H; subst. simpl. f_equal. now apply IH.
Qed.

(** The occurrence [find] reports is the first one: [sep] starts at no
    earlier position. *)
Lemma find_first (sep s l t : string) :
  find sep s = Some (l, t) ->
  forall l1 l2, l = l1 ++ l2 -> l2 <> "" -> prefix sep (l2 ++ sep ++ t) = false.
Proof.
  revert l t. induction s as [|c s IH]; intros l t H;
    rewrite find_eq in H; destruct (prefix sep _) eqn:P.
  - inversion H; subst. intros [|] [|]; simpl; congruence.
  - discriminate.
  - inversion H; subst. intros [|] [|]; simpl; congruence.
  - destruct (find sep s) as [[l' t']|] eqn:F; [|discriminate].
    inversion H; subst. pose proof (find_split _ _ F) as Es.
    intros [|a l1] l2 E NE; simpl in E.
    + subst l2. simpl. rewrite <- Es. exact P.
    + inversion E; subst. eapply IH; eauto.
Qed.

Lemma contains_find (sep s : string) :
  contains sep s = true <-> exists l t, find sep s = Some (l, t).
Proof.
  induction s as [|c s IH]; rewrite contains_eq, find_eq;
    destruct (prefix sep _); simpl.
  - split; eauto.
  - split; intros H; [discriminate|]. destruct H as (l & t & H). discriminate.
  - split; eauto.
  - rewrite IH. destruct (find sep s) as [[l t]|]; split; intros H; eauto;
      destruct H as (l0 & t0 & H); discriminate.
Qed.

Lemma contains_false_find (sep s : string) :
  contains sep s = false <-> find sep s = None.
Proof.
  pose proof (contains_find sep s) as [H1 H2].
  destruct (contains sep s), (find sep s) as [[l t]|]; split; intros H; try reflexivity; try discriminate.
  - destruct H1 as (l & t & H1); [reflexivity|discriminate].
  - assert (false = true) by (apply H2; eauto). discriminate.
Qed.

Lemma find_length (sep s l t : string) :
  find sep s = Some (l, t) ->
  length s = (length l + length sep + length t)%nat.
Proof.
  intros H. apply find_split in H. subst s. rewrite !length_app. lia.
Qed.

Lemma split_fuel_enough (sep : string) :
  sep <> "" ->
  forall fuel fuel' s,
    (length s < fuel)%nat -> (length s < fuel')%nat ->
    split_fuel fuel sep s = split_fuel fuel' sep s.
Proof.
  intros NE. induction fuel as [|f IH]; intros fuel' s H H'; [lia|].
  destruct fuel' as [|f']; [lia|]. simpl.
  destruct (find sep s) as [[l t]|] eqn:F; [|reflexivity].
  f_equal. apply find_length in F.
  assert (0 < length sep)%nat by (destruct sep; simpl; [congruence|lia]).
  apply IH; lia.
Qed.

(** [split] unfolds one occurrence at a time. *)
Lemma split_unfold (sep s : string) :
  sep <> "" ->
  split sep s =
  match find sep s with
  | None => [s]
  | Some (l, t) => l :: split sep t
  end.
Proof.
  intros NE. unfold split at 1. cbn [split_fuel].
  destruct (find sep s) as [[l t]|] eqn:F; [|reflexivity].
  f_equal. apply find_length in F.
  assert (0 < length sep)%nat by (destruct sep; simpl; [congruence|lia]).
  unfold split. apply split_fuel_enough; [exact NE|lia|lia].
Qed.

Lemma filter_chars_all (p : ascii -> bool) (s : string) :
  all_chars p (filter_chars p s) = true.
Proof.
  induction s as [|c s IH]; simpl; [reflexivity|].
  destruct (p c) eqn:E; simpl; [rewrite E|]; exact IH.
Qed.

Ltac char_facts :=
  unfold isdigit, is_decimal, is_space in *;
  repeat match goal with
         | H : context [Ascii.eqb ?c ?d] |- _ =>
             destruct (Ascii.eqb_spec c d);
             [subst c; let v := eval compute in (code d) in change (code d) with v in *|]
         | |- context [Ascii.eqb ?c ?d] =>
             destruct (Ascii.eqb_spec c d);
             [subst c; let v := eval compute in (code d) in change (code d) with v in *|]
         end;
  repeat match goal with
         | H : context [(?a <=? ?b)%N] |- _ => destruct (N.leb_spec a b)
         | |- context [(?a <=? ?b)%N] => destruct (N.leb_spec a b)
         | H : context [(?a =? ?b)%N] |- _ => destruct (N.eqb_spec a b)
         | |- context [(?a =? ?b)%N] => destruct (N.eqb_spec a b)
         end;
  cbn [andb orb negb] in *; try congruence; try lia.

Lemma isdigit_not_space (c : ascii) : isdigit c = true -> is_space c = false.
Proof. intros H. char_facts. Qed.

Lemma isdigit_not_sign (c : ascii) :
  isdigit c = true -> Ascii.eqb c "+" = false /\ Ascii.eqb c "-" = false.
Proof. intros H. split; char_facts. Qed.

Lemma isdigit_not_underscore (c : ascii) :
  isdigit c = true -> Ascii.eqb c "_" = false.
Proof. intros H. char_facts. Qed.

(** On a run of digit characters, [scan_digits] reads the decimal digits to
    the end, or stops in front of a digit character that is not decimal. *)
Lemma scan_digits_run (d : string) :
  all_chars isdigit d = true ->
  forall acc,
    if all_chars is_decimal d
    then scan_digits acc false d = Some (decimal_value acc d, "")
    else exists n rest, scan_digits acc false d = Some (n, rest) /\ all_space rest = false.
Proof.
  induction d as [|c d IH]; intros H acc; simpl in *; [reflexivity|].
  apply andb_prop in H as [Hc Hd].
  destruct (is_decimal c) eqn:D; simpl.
  - apply IH. exact Hd.
  - rewrite (isdigit_not_underscore c Hc).
    exists acc, (String c d). split; [reflexivity|].
    simpl. now rewrite (isdigit_not_space c Hc).
Qed.

(** [int] on a run of digit characters. *)
Lemma int_digits (d : string) :
  all_chars isdigit d = true ->
  int d = match digits_value d with
          | Some n => Ok n
          | None => Raise ValueError
          end.
Proof.
  intros H. destruct d as [|c d]; [reflexivity|].
  simpl in H. apply andb_prop in H as [Hc Hd].
  unfold int, digits_value. simpl lstrip.
  rewrite (isdigit_not_space c Hc). unfold parse_sign.
  destruct (isdigit_not_sign c Hc) as [-> ->].
  simpl all_chars. destruct (is_decimal c) eqn:D; simpl; [|reflexivity].
  pose proof (scan_digits_run d Hd (digit_val c)) as R.
  destruct (all_chars is_decimal d).
  - rewrite R. reflexivity.
  - destruct R as (n & rest & -> & ->). reflexivity.
Qed.

Lemma int_raises (s : string) (e : exn) : int s = Raise e -> e = ValueError.
Proof.
  unfold int. destruct (parse_sign (lstrip s)) as [neg body].
  destruct body as [|c r]; [congruence|].
  destruct (is_decimal c); [|congruence].
  destruct (scan_digits _ _ _) as [[n rest]|]; [|congruence].
  destruct (all_space rest); congruence.
Qed.

End PyStrFacts.

(** ** Identity resolver *)

Module Resolver.

Import PyStr PyStrFacts.
Open Scope string_scope.

Lemma first_segment_split (sep s l t : string) :
  sep <> "" ->
  find sep s = Some (l, t) ->
  exists rest, split sep s = l :: first_segment sep t :: rest.
Proof.
  intros NE F. rewrite (split_unfold s NE), F, (split_unfold t NE).
  unfold first_segment. destruct (find sep t) as [[r u]|]; eauto.
Qed.

Lemma parse_timepoint_info_resolution (s : string) :
  parse_timepoint_info s = Ok (resolution s).
Proof.
  unfold parse_timepoint_info, resolution.
  destruct (contains "_ses-" s) eqn:Cs.
  - apply contains_find in Cs as (l & t & F). rewrite F.
    assert (NE : "_ses-" <> "") by discriminate.
    destruct (@first_segment_split _ s l t NE F) as [rest ->].
    cbn [getitem nth_error bind].
    rewrite int_digits by apply filter_chars_all.
    now destruct (digits_value _).
  - apply contains_false_find in Cs. rewrite Cs.
    destruct (contains "_tp" s) eqn:Ct.
    + apply contains_find in Ct as (l & t & F). rewrite F.
      assert (NE : "_tp" <> "") by discriminate.
      destruct (@first_segment_split _ s l t NE F) as [rest ->].
      cbn [getitem nth_error bind].
      destruct (int (first_segment "_tp" t)) as [n|e] eqn:I; [reflexivity|].
      apply int_raises in I as ->. reflexivity.
    + apply contains_false_find in Ct. now rewrite Ct.
Qed.

Lemma contains_intro (sub l t : string) : contains sub (l ++ sub ++ t) = true.
Proof.
  induction l as [|c l IH].
  - simpl append. rewrite contains_eq, prefix_app. reflexivity.
  - simpl append. rewrite contains_eq, IH. apply orb_true_r.
Qed.

(** An id without the text [ses-] has no [_ses-] either. *)
Lemma no_ses_no_marker (s : string) :
  contains "ses-" s = false -> contains "_ses-" s = false.
Proof.
  intros H. destruct (contains "_ses-" s) eqn:C; [|reflexivity].
  apply contains_find in C as (l & t & F). apply find_split in F.
  rewrite <- H, F.
  change ("_ses-" ++ t) with ("_" ++ "ses-" ++ t).
  assert (A : forall a b c : string, a ++ b ++ c = (a ++ b) ++ c)
    by (intros a b c; induction a; simpl; congruence).
  rewrite A. symmetry. apply contains_intro.
Qed.

Example resolve_ses :
  parse_timepoint_info "sub-001_ses-02" = Ok ("sub-001", Some "ses-02", Some 2%Z).
Proof. reflexivity. Qed.

Example resolve_none : parse_timepoint_info "sub-099" = Ok ("sub-099", None, None).
Proof. reflexivity. Qed.

Example resolve_two_markers :
  parse_timepoint_info "a_ses-1_ses-2" = Ok ("a", Some "ses-1", Some 1%Z).
Proof. reflexivity. Qed.

Example resolve_superscript :
  parse_timepoint_info ("a_ses-1" ++ String (ascii_of_nat 178) "")
  = Ok ("a", Some ("ses-1" ++ String (ascii_of_nat 178) ""), None).
Proof. reflexivity. Qed.

Lemma first_segment_once (sep t : string) :
  contains sep t = false -> first_segment sep t = t.
Proof.
  intros H. apply contains_false_find in H. unfold first_segment. now rewrite H.
Qed.

(** C5 (amended).  For every raw id that contains the marker [_ses-]: the
    text before the first [_ses-] is the base subject; with [r] the text
    between that marker and the next [_ses-] (the rest of the id when the
    marker occurs once), the label is [ses-] followed by [r], and the ordinal
    is the integer spelled by the digit characters of [r], null when [r] has
    no digit character or one that is not a decimal digit.  Whether the id
    also contains [_tp] plays no part. *)
Theorem session_marker_rule (s : string) :
  contains "_ses-" s = true ->
  exists l t,
    find "_ses-" s = Some (l, t) /\
    s = l ++ "_ses-" ++ t /\
    (contains "_ses-" t = false -> first_segment "_ses-" t = t) /\
    parse_timepoint_info s =
      Ok (l, Some ("ses-" ++ first_segment "_ses-" t),
          digits_value (filter_chars isdigit (first_segment "_ses-" t))).
Proof.
  intros C. apply contains_find in C as (l & t & F). exists l, t.
  split; [exact F|]. split; [now apply find_split|].
  split; [apply first_segment_once|].
  rewrite parse_timepoint_info_resolution. unfold resolution. now rewrite F.
Qed.

Lemma session_marker_rule_witness :
  exists l t,
    find "_ses-" "sub-001_ses-02_tp9" = Some (l, t) /\
    "sub-001_ses-02_tp9" = l ++ "_ses-" ++ t /\
    (contains "_ses-" t = false -> first_segment "_ses-" t = t) /\
    parse_timepoint_info "sub-001_ses-02_tp9" =
      Ok (l, Some ("ses-" ++ first_segment "_ses-" t),
          digits_value (filter_chars isdigit (first_segment "_ses-" t))).
Proof. apply (session_marker_rule "sub-001_ses-02_tp9"). reflexivity. Defined.

(** C5, as stated, fails: the id [sub-001ses-02] contains [ses-], and the
    rule as claimed gives base [sub-001], label [ses-02], ordinal 2, but the
    resolver finds no marker and returns the id with no label and no
    ordinal. *)
Lemma session_marker_counterexample :
  contains "ses-" "sub-001ses-02" = true /\
  claimed_session_rule "sub-001ses-02" = Some ("sub-001", Some "ses-02", Some 2%Z) /\
  parse_timepoint_info "sub-001ses-02" = Ok ("sub-001ses-02", None, None).
Proof. repeat split. Qed.

(** C6 (amended).  For every raw id that contains [_tp] and no [_ses-]: the
    text before the first [_tp] is the base subject; with [r] the text
    between that marker and the next [_tp] (the rest of the id when the
    marker occurs once), when [int(r)] succeeds with [n] the ordinal is [n]
    and the label is [tp] followed by the decimal rendering of [n]; when it
    fails the ordinal is null and the label is [tp] followed by [r]. *)
Theorem timepoint_marker_rule (s : string) :
  contains "_ses-" s = false ->
  contains "_tp" s = true ->
  exists l t,
    find "_tp" s = Some (l, t) /\
    s = l ++ "_tp" ++ t /\
    (contains "_tp" t = false -> first_segment "_tp" t = t) /\
    parse_timepoint_info s =
      Ok (match int (first_segment "_tp" t) with
          | Ok n => (l, Some ("tp" ++ str n), Some n)
          | Raise _ => (l, Some ("tp" ++ first_segment "_tp" t), None)
          end).
Proof.
  intros Cs C. apply contains_find in C as (l & t & F). exists l, t.
  split; [exact F|]. split; [now apply find_split|].
  split; [apply first_segment_once|].
  rewrite parse_timepoint_info_resolution. unfold resolution.
  apply contains_false_find in Cs. now rewrite Cs, F.
Qed.

(** The example of C6: [sub-007_tp3]. *)
Lemma timepoint_marker_rule_witness :
  exists l t,
    find "_tp" "sub-007_tp3" = Some (l, t) /\
    "sub-007_tp3" = l ++ "_tp" ++ t /\
    (contains "_tp" t = false -> first_segment "_tp" t = t) /\
    parse_timepoint_info "sub-007_tp3" =
      Ok (match int (first_segment "_tp" t) with
          | Ok n => (l, Some ("tp" ++ str n), Some n)
          | Raise _ => (l, Some ("tp" ++ first_segment "_tp" t), None)
          end).
Proof. apply (timepoint_marker_rule "sub-007_tp3"); reflexivity. Defined.

(** C6, as stated, fails: [sub-007_tp03] has the marker [_tp] and no
    [ses-]; the remainder [03] parses as the integer 3, and the label is
    [tp3], not [tp] followed by the remainder [03]. *)
Lemma timepoint_marker_counterexample :
  contains "ses-" "sub-007_tp03" = false /\
  contains "_tp" "sub-007_tp03" = true /\
  find "_tp" "sub-007_tp03" = Some ("sub-007", "03") /\
  int "03" = Ok 3%Z /\
  parse_timepoint_info "sub-007_tp03" = Ok ("sub-007", Some "tp3", Some 3%Z).
Proof. repeat split. Qed.

(** C10.  For every string the resolver returns a triple and raises
    nothing: after [_ses-], a part without digit characters gives a null
    ordinal; after [_tp], a remainder that [int] rejects gives a null
    ordinal and keeps the remainder in the label; an id with neither marker
    comes back unchanged with a null label and a null ordinal. *)
Theorem resolver_total (s : string) :
  (exists base label ordinal, parse_timepoint_info s = Ok (base, label, ordinal)) /\
  (forall l t,
      find "_ses-" s = Some (l, t) ->
      filter_chars isdigit (first_segment "_ses-" t) = "" ->
      parse_timepoint_info s = Ok (l, Some ("ses-" ++ first_segment "_ses-" t), None)) /\
  (forall l t e,
      contains "_ses-" s = false ->
      find "_tp" s = Some (l, t) ->
      int (first_segment "_tp" t) = Raise e ->
      parse_timepoint_info s = Ok (l, Some ("tp" ++ first_segment "_tp" t), None)) /\
  (contains "_ses-" s = false -> contains "_tp" s = false ->
   parse_timepoint_info s = Ok (s, None, None)).
Proof.
  rewrite parse_timepoint_info_resolution. unfold resolution. repeat split.
  - destruct (resolution s) as [[b l] o] eqn:E. unfold resolution in E.
    rewrite E. eauto.
  - intros l t F D. now rewrite F, D.
  - intros l t e Cs F I. apply contains_false_find in Cs. now rewrite Cs, F, I.
  - intros Cs Ct. apply contains_false_find in Cs, Ct. now rewrite Cs, Ct.
Qed.

Lemma resolver_total_witness :
  parse_timepoint_info "sub-001_ses-x" = Ok ("sub-001", Some "ses-x", None) /\
  parse_timepoint_info "sub-001_tpx" = Ok ("sub-001", Some "tpx", None) /\
  parse_timepoint_info "sub-099" = Ok ("sub-099", None, None).
Proof.
  split; [|split].
  - apply (proj1 (proj2 (resolver_total "sub-001_ses-x")) "sub-001" "x"); reflexivity.
  - apply (proj1 (proj2 (proj2 (resolver_total "sub-001_tpx"))) "sub-001" "x" ValueError);
      reflexivity.
  - apply (proj2 (proj2 (proj2 (resolver_total "sub-099")))); reflexivity.
Defined.

End Resolver.

(** ** Sorting by ordinal *)

Module SortFacts.

Lemma take_map {A B : Type} (f : A -> B) (idx : list nat) (xs : list A) :
  take idx (map f xs) = map f (take idx xs).
Proof.
  unfold take. induction idx as [|i idx IH]; simpl; [reflexivity|].
  rewrite map_app, IH, nth_error_map. now destruct (nth_error xs i).
Qed.

Lemma take_seq_app {A : Type} (xs pre : list A) :
  take (seq (List.length pre) (List.length xs)) (pre ++ xs) = xs.
Proof.
  revert pre. induction xs as [|x xs IH]; intros pre; simpl; [reflexivity|].
  rewrite nth_error_app2, Nat.sub_diag by lia. simpl. f_equal.
  specialize (IH (pre ++ [x])).
  rewrite length_app, <- app_assoc in IH. simpl in IH.
  now rewrite Nat.add_1_r in IH.
Qed.

Lemma take_seq {A : Type} (xs : list A) : take (seq 0 (List.length xs)) xs = xs.
Proof. exact (take_seq_app xs []). Qed.

Lemma take_perm {A : Type} (idx : list nat) (xs : list A) :
  Permutation idx (seq 0 (List.length xs)) -> Permutation (take idx xs) xs.
Proof.
  intros P. rewrite <- (take_seq xs) at 2. unfold take.
  now apply Permutation_flat_map.
Qed.

Lemma filter_split_perm {A : Type} (f : A -> bool) (l : list A) :
  Permutation (filter f l ++ filter (fun a => negb (f a)) l) l.
Proof.
  induction l as [|a l IH]; simpl; [constructor|].
  destruct (f a); simpl.
  - now constructor.
  - rewrite <- Permutation_middle. now constructor.
Qed.

Lemma ordinals_keyed {T : Type} (rows : list (Measurement T)) :
  Forall (fun r => has_ordinal r = true) rows -> ordinals rows = map ord0 rows.
Proof.
  induction 1 as [|r rows H _ IH]; simpl; [reflexivity|].
  unfold has_ordinal in H. unfold ord0 at 1.
  destruct (timepoint_num r); [simpl; now f_equal|discriminate].
Qed.

Lemma keyed_all {T : Type} (g : list (Measurement T)) :
  Forall (fun r => has_ordinal r = true) (filter has_ordinal g).
Proof. apply Forall_forall. intros r H. now apply filter_In in H. Qed.

(** Two orderings of the same rows that are both sorted by a key without
    repeats are the same list. *)
Lemma sorted_perm_unique {A : Type} (f : A -> Z) (l l' : list A) :
  Permutation l l' ->
  StronglySorted Z.le (map f l) ->
  StronglySorted Z.le (map f l') ->
  NoDup (map f l) ->
  l = l'.
Proof.
  revert l'. induction l as [|a l IH]; intros l' P S S' N.
  - apply Permutation_nil in P. now subst.
  - destruct l' as [|a' l']; [apply Permutation_sym, Permutation_nil in P; discriminate|].
    simpl in S, S', N.
    apply StronglySorted_inv in S as [S Ha].
    apply StronglySorted_inv in S' as [S' Ha'].
    apply NoDup_cons_iff in N as [Na N].
    rewrite Forall_forall in Ha, Ha'.
    assert (E : a = a').
    { assert (I : In a (a' :: l')) by (eapply Permutation_in; [exact P|now left]).
      assert (I' : In a' (a :: l))
        by (eapply Permutation_in; [apply Permutation_sym; exact P|now left]).
      destruct I as [I|I]; [now symmetry|].
      destruct I' as [I'|I']; [assumption|].
      exfalso. apply Na.
      assert (f a' <= f a)%Z by (apply Ha', in_map, I).
      assert (f a <= f a')%Z by (apply Ha, in_map, I').
      replace (f a) with (f a') by lia. now apply in_map. }
    subst a'. f_equal. apply IH; auto.
    now apply Permutation_cons_inv in P.
Qed.

Lemma NoDup_short {A : Type} (l l' : list A) (f : A -> bool) (c : A -> option Z) :
  Permutation l l' ->
  NoDup (map c l) ->
  (forall a, f a = true -> c a = None) ->
  filter f l = filter f l'.
Proof.
  intros P N F.
  assert (P' : Permutation (filter f l) (filter f l')).
  { clear N. induction P; simpl; auto.
    - destruct (f x); auto.
    - destruct (f x), (f y); auto. constructor.
    - etransitivity; eauto. }
  assert (L : (List.length (filter f l) <= 1)%nat).
  { clear P P'. induction l as [|a l IH]; simpl; [lia|].
    simpl in N. apply NoDup_cons_iff in N as [Na N].
    destruct (f a) eqn:E; [|auto]. simpl.
    destruct (filter f l) as [|b r] eqn:Fl; [simpl; lia|exfalso].
    assert (I : In b (filter f l)) by (rewrite Fl; now left).
    apply filter_In in I as [I Fb]. apply Na.
    rewrite (F a E), <- (F b Fb). now apply in_map. }
  destruct (filter f l) as [|a [|b r]]; simpl in L; [| |lia].
  - apply Permutation_nil in P'. now rewrite P'.
  - apply Permutation_length_1_inv in P'. now rewrite P'.
Qed.

Section WithSorter.

Context {T : Type} {sorter : Sorter}.
Hypothesis sorter_ok : argsort_spec sorter.

Let rows := list (Measurement T).

Lemma sort_values_eq (g : rows) :
  sort_values g = sorted_keyed g ++ filter (fun r => negb (has_ordinal r)) g.
Proof. reflexivity. Qed.

Lemma sorted_keyed_perm (g : rows) :
  Permutation (sorted_keyed g) (filter has_ordinal g).
Proof.
  unfold sorted_keyed. apply take_perm.
  destruct (sorter_ok (ordinals (filter has_ordinal g))) as [P _].
  rewrite (ordinals_keyed (keyed_all g)), length_map in P. 
  now rewrite (ordinals_keyed (keyed_all g)).
Qed.

Lemma sorted_keyed_sorted (g : rows) :
  StronglySorted Z.le (map ord0 (sorted_keyed g)).
Proof.
  unfold sorted_keyed.
  destruct (sorter_ok (ordinals (filter has_ordinal g))) as [_ S].
  rewrite (ordinals_keyed (keyed_all g)) in *.
  now rewrite <- take_map.
Qed.

Lemma sort_values_perm (g : rows) : Permutation (sort_values g) g.
Proof.
  rewrite sort_values_eq, sorted_keyed_perm. apply filter_split_perm.
Qed.

Lemma sort_values_length (g : rows) : List.length (sort_values g) = List.length g.
Proof. apply Permutation_length, sort_values_perm. Qed.

Lemma keyed_NoDup (g : rows) :
  NoDup (map (@timepoint_num T) g) -> NoDup (map ord0 (filter has_ordinal g)).
Proof.
  induction g as [|a g IH]; simpl; intros N; [constructor|].
  apply NoDup_cons_iff in N as [Na N].
  unfold has_ordinal at 1. destruct (timepoint_num a) as [z|] eqn:E; [|auto].
  simpl. constructor; [|auto].
  intros I. apply in_map_iff in I as (b & Eb & Ib).
  apply filter_In in Ib as [Ib Hb]. apply Na.
  apply in_map_iff. exists b. split; [|exact Ib].
  unfold ord0 in Eb. unfold has_ordinal in Hb. rewrite E in Eb.
  destruct (timepoint_num b); [congruence|discriminate].
Qed.

(** With no ordinal repeated in a group, the sorted group does not depend on
    the order the rows came in. *)
Lemma sort_values_unique (g g' : rows) :
  Permutation g g' ->
  NoDup (map (@timepoint_num T) g) ->
  sort_values g = sort_values g'.
Proof.
  intros P N. rewrite !sort_values_eq. f_equal.
  - apply (sorted_perm_unique ord0).
    + rewrite !sorted_keyed_perm.
      clear N. induction P; simpl; auto.
      * destruct (has_ordinal x); auto.
      * destruct (has_ordinal x), (has_ordinal y); auto. constructor.
      * etransitivity; eauto.
    + apply sorted_keyed_sorted.
    + apply sorted_keyed_sorted.
    + eapply Permutation_NoDup; [|apply keyed_NoDup, N].
      apply Permutation_map, Permutation_sym, sorted_keyed_perm.
  - apply NoDup_short with (c := @timepoint_num T); auto.
    intros a H. unfold has_ordinal in H. now destruct (timepoint_num a).
Qed.

(** A group whose rows all carry an ordinal and already come in strictly
    increasing order is left as it is. *)
Lemma sort_values_sorted (g : rows) :
  Forall (fun r => has_ordinal r = true) g ->
  StronglySorted Z.lt (map ord0 g) ->
  sort_values g = g.
Proof.
  intros A S. rewrite sort_values_eq.
  assert (K : filter has_ordinal g = g).
  { clear S. induction A as [|r g H _ IH]; simpl; [reflexivity|]. now rewrite H, IH. }
  assert (M : filter (fun r => negb (has_ordinal r)) g = []).
  { clear S K. induction A as [|r g H _ IH]; simpl; [reflexivity|]. now rewrite H. }
  rewrite M, app_nil_r.
  assert (Sle : StronglySorted Z.le (map ord0 g)).
  { clear A K M. induction S; constructor; auto.
    eapply Forall_impl; [|eassumption]. simpl. intros; lia. }
  assert (ND : NoDup (map ord0 g)).
  { clear A K M Sle. induction S as [|z l S IH F]; constructor; auto.
    intros I. rewrite Forall_forall in F. specialize (F z I). lia. }
  apply (sorted_perm_unique ord0); auto.
  - rewrite sorted_keyed_perm, K. reflexivity.
  - apply sorted_keyed_sorted.
  - eapply Permutation_NoDup; [|exact ND].
    apply Permutation_map, Permutation_sym. rewrite sorted_keyed_perm, K. reflexivity.
Qed.

End WithSorter.

End SortFacts.

(** ** The insertion sort of positions meets [argsort_spec] *)

Module InsertionSort.

Section Keys.

Variable ks : list Z.

Let keyof (i : nat) : Z := nth i ks 0%Z.

Lemma insert_idx_perm (i : nat) (l : list nat) :
  Permutation (insert_idx ks i l) (i :: l).
Proof.
  induction l as [|j l IH]; simpl; [reflexivity|].
  destruct (nth i ks 0 <? nth j ks 0)%Z; [reflexivity|].
  rewrite IH. constructor.
Qed.

Lemma insert_idx_sorted (i : nat) (l : list nat) :
  StronglySorted Z.le (map keyof l) ->
  StronglySorted Z.le (map keyof (insert_idx ks i l)).
Proof.
  induction l as [|j l IH]; simpl; intros S.
  - repeat constructor.
  - apply StronglySorted_inv in S as [S F].
    destruct (Z.ltb_spec (nth i ks 0%Z) (nth j ks 0%Z)) as [L|L]; simpl.
    + constructor; [now constructor|].
      constructor; [unfold keyof; lia|].
      eapply Forall_impl; [|exact F]. unfold keyof. simpl. intros; lia.
    + constructor; [now apply IH|].
      rewrite Forall_forall in *. intros z I.
      apply in_map_iff in I as (k & <- & I).
      apply (Permutation_in _ (insert_idx_perm i l)) in I as [<-|I].
      * exact L.
      * apply F, in_map, I.
Qed.

Lemma fold_insert_perm (idx acc : list nat) :
  Permutation (fold_left (fun a i => insert_idx ks i a) idx acc) (idx ++ acc).
Proof.
  revert acc. induction idx as [|i idx IH]; intros acc; simpl; [reflexivity|].
  rewrite IH, insert_idx_perm. now rewrite <- Permutation_middle.
Qed.

Lemma fold_insert_sorted (idx acc : list nat) :
  StronglySorted Z.le (map keyof acc) ->
  StronglySorted Z.le (map keyof (fold_left (fun a i => insert_idx ks i a) idx acc)).
Proof.
  revert acc. induction idx as [|i idx IH]; intros acc S; simpl; [exact S|].
  now apply IH, insert_idx_sorted.
Qed.

Lemma take_valid (idx : list nat) :
  Forall (fun i => (i < List.length ks)%nat) idx ->
  take idx ks = map keyof idx.
Proof.
  induction 1 as [|i idx H _ IH]; simpl; [reflexivity|].
  unfold take in *. rewrite IH. unfold keyof at 2.
  destruct (nth_error ks i) as [z|] eqn:E.
  - now rewrite (nth_error_nth _ _ _ E).
  - apply nth_error_None in E. lia.
Qed.

End Keys.

Lemma insertion_argsort_ok : argsort_spec insertion_sorter.
Proof.
  intros ks. simpl. unfold insertion_argsort.
  assert (P : Permutation
                (fold_left (fun a i => insert_idx ks i a) (seq 0 (List.length ks)) [])
                (seq 0 (List.length ks))).
  { rewrite fold_insert_perm. now rewrite app_nil_r. }
  split; [exact P|].
  rewrite take_valid.
  - apply fold_insert_sorted. constructor.
  - apply Forall_forall. intros i I.
    apply (Permutation_in _ P), in_seq in I. lia.
Qed.

End InsertionSort.

(** ** Grouping *)

Module GroupFacts.

Lemma cmp_refl (s : string) : String.compare s s = Eq.
Proof. now apply String_as_OT.cmp_eq. Qed.

Lemma cmp_trans (a b c : string) :
  String.compare a b = Lt -> String.compare b c = Lt -> String.compare a c = Lt.
Proof.
  intros H1 H2. apply String_as_OT.cmp_lt in H1, H2. apply String_as_OT.cmp_lt.
  eapply String_as_OT.lt_trans; eauto.
Qed.

Lemma key_compare_eq (a b : key) : key_compare a b = Eq <-> a = b.
Proof.
  destruct a as [[a1 a2] a3], b as [[b1 b2] b3]. unfold key_compare. split.
  - destruct (String.compare a1 b1) eqn:E1; try discriminate.
    destruct (String.compare a2 b2) eqn:E2; try discriminate.
    intros E3. apply String_as_OT.cmp_eq in E1, E2, E3. congruence.
  - intros E. inversion E; subst. now rewrite !cmp_refl.
Qed.

Lemma key_eqb_eq (a b : key) : key_eqb a b = true <-> a = b.
Proof.
  unfold key_eqb. rewrite <- key_compare_eq.
  destruct (key_compare a b); split; congruence.
Qed.

Lemma key_lt_iff (a1 a2 a3 b1 b2 b3 : string) :
  key_compare (a1, a2, a3) (b1, b2, b3) = Lt <->
  String.compare a1 b1 = Lt \/
  (a1 = b1 /\ String.compare a2 b2 = Lt) \/
  (a1 = b1 /\ a2 = b2 /\ String.compare a3 b3 = Lt).
Proof.
  unfold key_compare.
  destruct (String.compare a1 b1) eqn:E1;
    [apply String_as_OT.cmp_eq in E1; subst b1;
     destruct (String.compare a2 b2) eqn:E2;
     [apply String_as_OT.cmp_eq in E2; subst b2|..]|..];
    (split; [intros H; try discriminate; auto; tauto|]);
    intros [H|[[H1 H]|(H1 & H2 & H)]]; subst; rewrite ?cmp_refl in *;
    try discriminate; auto.
Qed.

Lemma key_lt_trans (a b c : key) :
  key_compare a b = Lt -> key_compare b c = Lt -> key_compare a c = Lt.
Proof.
  destruct a as [[a1 a2] a3], b as [[b1 b2] b3], c as [[c1 c2] c3].
  rewrite !key_lt_iff.
  intros [H|[[-> H]|(-> & -> & H)]] [H'|[[<- H']|(<- & <- & H')]];
    first [ solve [left; eauto using cmp_trans]
          | solve [right; left; split; eauto using cmp_trans]
          | solve [right; right; repeat split; eauto using cmp_trans] ].
Qed.

Lemma key_lt_irrefl (a : key) : key_compare a a <> Lt.
Proof. assert (E : key_compare a a = Eq) by now apply key_compare_eq. congruence. Qed.

Lemma key_gt_lt (a b : key) : key_compare a b = Gt -> key_compare b a = Lt.
Proof.
  destruct a as [[a1 a2] a3], b as [[b1 b2] b3]. unfold key_compare.
  rewrite (String.compare_antisym b1 a1), (String.compare_antisym b2 a2),
    (String.compare_antisym b3 a3).
  destruct (String.compare a1 b1), (String.compare a2 b2), (String.compare a3 b3);
    simpl; congruence.
Qed.

Lemma insert_key_In (k a : key) (ks : list key) :
  In k (insert_key a ks) <-> k = a \/ In k ks.
Proof.
  induction ks as [|b ks IH]; simpl; [intuition|].
  destruct (key_compare a b) eqn:E; simpl.
  - apply key_compare_eq in E. subst b. intuition.
  - intuition.
  - rewrite IH. intuition.
Qed.

Lemma insert_key_sorted (a : key) (ks : list key) :
  StronglySorted key_lt ks -> StronglySorted key_lt (insert_key a ks).
Proof.
  induction 1 as [|b ks S IH F]; simpl; [repeat constructor|].
  destruct (key_compare a b) eqn:E.
  - now constructor.
  - constructor; [now constructor|]. constructor; [exact E|].
    eapply Forall_impl; [|exact F]. intros c H. eapply key_lt_trans; eauto.
  - constructor; [exact IH|]. apply Forall_forall. intros c I.
    apply insert_key_In in I as [->|I].
    + now apply key_gt_lt.
    + rewrite Forall_forall in F. now apply F.
Qed.

Lemma group_keys_sorted {T : Type} (df : list (Measurement T)) :
  StronglySorted key_lt (group_keys df).
Proof.
  unfold group_keys. induction (map key_of df) as [|k ks IH]; simpl.
  - constructor.
  - now apply insert_key_sorted.
Qed.

Lemma group_keys_In {T : Type} (df : list (Measurement T)) (k : key) :
  In k (group_keys df) <-> In k (map key_of df).
Proof.
  unfold group_keys. induction (map key_of df) as [|a ks IH]; simpl; [tauto|].
  rewrite insert_key_In, IH. intuition.
Qed.

(** Strictly sorted lists with the same elements are equal. *)
Lemma sorted_set_unique (l l' : list key) :
  StronglySorted key_lt l -> StronglySorted key_lt l' ->
  (forall k, In k l <-> In k l') -> l = l'.
Proof.
  intros S. revert l'. induction S as [|a l S IH F]; intros l' S' E.
  - destruct l' as [|b l']; [reflexivity|]. exfalso. apply (E b). now left.
  - destruct S' as [|b l' S' F']; [exfalso; apply (E a); now left|].
    rewrite Forall_forall in F, F'.
    assert (Eab : a = b).
    { assert (I : In a (b :: l')) by (apply E; now left).
      assert (I' : In b (a :: l)) by (apply E; now left).
      destruct I as [I|I]; [now symmetry|]. destruct I' as [I'|I']; [assumption|].
      exfalso. apply (key_lt_irrefl a).
      eapply key_lt_trans; [apply F, I'|apply F', I]. }
    subst b. f_equal. apply IH; [exact S'|]. intros k. split; intros I.
    + assert (I' : In k (a :: l')) by (apply E; now right).
      destruct I' as [<-|I']; [|exact I']. exfalso. apply (key_lt_irrefl a), F, I.
    + assert (I' : In k (a :: l)) by (apply E; now right).
      destruct I' as [<-|I']; [|exact I']. exfalso. apply (key_lt_irrefl a), F', I.
Qed.

Lemma group_keys_perm {T : Type} (df df' : list (Measurement T)) :
  Permutation df df' -> group_keys df = group_keys df'.
Proof.
  intros P. apply sorted_set_unique; try apply group_keys_sorted.
  intros k. rewrite !group_keys_In. split; apply Permutation_in.
  - now apply Permutation_map.
  - now apply Permutation_map, Permutation_sym.
Qed.

Lemma group_rows_perm {T : Type} (df df' : list (Measurement T)) (k : key) :
  Permutation df df' -> Permutation (group_rows df k) (group_rows df' k).
Proof.
  unfold group_rows. induction 1; simpl; auto.
  - destruct (key_eqb (key_of x) k); auto.
  - destruct (key_eqb (key_of x) k), (key_eqb (key_of y) k); auto. constructor.
  - etransitivity; eauto.
Qed.

Lemma group_rows_key {T : Type} (df : list (Measurement T)) (k : key) (r : Measurement T) :
  In r (group_rows df k) -> key_of r = k.
Proof. unfold group_rows. intros I. apply filter_In in I as [_ I]. now apply key_eqb_eq. Qed.

Lemma group_rows_all {T : Type} (df : list (Measurement T)) (k : key) :
  Forall (fun r => key_of r = k) df -> group_rows df k = df.
Proof.
  unfold group_rows. induction 1 as [|r df H _ IH]; simpl; [reflexivity|].
  assert (E : key_eqb (key_of r) k = true) by now apply key_eqb_eq.
  now rewrite E, IH.
Qed.

(** A table whose rows all carry the key [k] is one group. *)
Lemma groupby_single {T : Type} (df : list (Measurement T)) (k : key) :
  df <> [] -> Forall (fun r => key_of r = k) df -> groupby df = [(k, df)].
Proof.
  intros NE A. unfold groupby.
  assert (K : group_keys df = [k]).
  { apply sorted_set_unique; [apply group_keys_sorted|repeat constructor|].
    intros k'. rewrite group_keys_In. rewrite Forall_forall in A. split.
    - intros I. apply in_map_iff in I as (r & <- & I). left. symmetry. now apply A.
    - intros [<-|[]]. destruct df as [|r df]; [congruence|].
      left. apply A. now left. }
  rewrite K. simpl. now rewrite group_rows_all.
Qed.

End GroupFacts.

(** ** The regression's guard *)

Module FitFacts.

Lemma fold_nan (f : Z -> Z -> Z) (xs : list (option Z)) :
  fold_left (nan_lift f) xs None = None.
Proof. induction xs as [|x xs IH]; simpl; [reflexivity|exact IH]. Qed.

Lemma amax_bound (xs : list (option Z)) (a m : Z) :
  fold_left (nan_lift Z.max) xs (Some a) = Some m ->
  (a <= m)%Z /\ Forall (fun o => exists z, o = Some z /\ (z <= m)%Z) xs.
Proof.
  revert a. induction xs as [|x xs IH]; simpl; intros a H.
  - inversion H. split; [lia|constructor].
  - destruct x as [z|]; simpl in H; [|rewrite fold_nan in H; discriminate].
    apply IH in H as [H F]. split; [lia|]. constructor; [|exact F].
    exists z. split; [reflexivity|lia].
Qed.

Lemma amin_bound (xs : list (option Z)) (a m : Z) :
  fold_left (nan_lift Z.min) xs (Some a) = Some m ->
  (m <= a)%Z /\ Forall (fun o => exists z, o = Some z /\ (m <= z)%Z) xs.
Proof.
  revert a. induction xs as [|x xs IH]; simpl; intros a H.
  - inversion H. split; [lia|constructor].
  - destruct x as [z|]; simpl in H; [|rewrite fold_nan in H; discriminate].
    apply IH in H as [H F]. split; [lia|]. constructor; [|exact F].
    exists z. split; [reflexivity|lia].
Qed.

Lemma fold_same (f : Z -> Z -> Z) (z : Z) (xs : list (option Z)) :
  f z z = z ->
  Forall (fun o => o = Some z) xs ->
  fold_left (nan_lift f) xs (Some z) = Some z.
Proof.
  intros E. induction 1 as [|x xs -> _ IH]; simpl; [reflexivity|].
  now rewrite E.
Qed.

(** The guard of [linregress] holds exactly when the array is not empty and
    every entry is one and the same integer. *)
Lemma identical_ordinals_iff (x : list (option Z)) :
  identical_ordinals x = true <->
  x <> [] /\ exists z, Forall (fun o => o = Some z) x.
Proof.
  destruct x as [|x0 xs]; simpl.
  - split; [discriminate|]. intros [H _]. congruence.
  - unfold np_amax, np_amin, ordinal_eq. split.
    + destruct x0 as [a|]; [|rewrite fold_nan; discriminate].
      destruct (fold_left (nan_lift Z.max) xs (Some a)) as [M|] eqn:EM; [|discriminate].
      destruct (fold_left (nan_lift Z.min) xs (Some a)) as [m|] eqn:Em; [|discriminate].
      intros E. apply Z.eqb_eq in E. subst m.
      apply amax_bound in EM as [HM FM]. apply amin_bound in Em as [Hm Fm].
      split; [discriminate|]. exists a. constructor; [reflexivity|].
      rewrite Forall_forall in *. intros o I.
      destruct (FM o I) as (z & -> & Hz). destruct (Fm _ I) as (z' & Ez & Hz').
      inversion Ez; subst z'. f_equal. lia.
    + intros [_ (z & F)]. inversion F as [|? ? -> F']; subst.
      rewrite !fold_same; auto using Z.max_id, Z.min_id. apply Z.eqb_refl.
Qed.

Lemma identical_not_missing (x : list (option Z)) :
  identical_ordinals x = true -> existsb missing x = false.
Proof.
  intros I. apply identical_ordinals_iff in I as [_ [z F]].
  induction F as [|o x -> _ IH]; [reflexivity|exact IH].
Qed.

Lemma linregress_raises {T : Type} {num : Num T} {tt : TTest T}
  (x : list (option Z)) (y : list T) :
  y <> [] ->
  existsb isnan y = false ->
  (2 <= List.length x)%nat ->
  identical_ordinals x = true ->
  linregress x y = Raise ValueError.
Proof.
  intros Hy Ny Hx I. unfold linregress.
  destruct x as [|x0 xs]; [reflexivity|]. destruct y as [|y0 ys]; [congruence|].
  rewrite (identical_not_missing _ I), Ny, I. simpl in Hx.
  assert (E : (1 <? List.length (x0 :: xs))%nat = true) by (apply Nat.ltb_lt; simpl; lia).
  now rewrite E.
Qed.

Lemma linregress_returns {T : Type} {num : Num T} {tt : TTest T}
  (x : list (option Z)) (y : list T) :
  x <> [] -> y <> [] ->
  identical_ordinals x = false ->
  exists fit, linregress x y = Ok fit.
Proof.
  intros Hx Hy I. unfold linregress.
  destruct x as [|x0 xs]; [congruence|]. destruct y as [|y0 ys]; [congruence|].
  destruct (existsb missing _ || existsb isnan _); [eauto|].
  rewrite I. cbn [andb].
  destruct (np_cov _ _) as [[ssxm ssxym] ssym].
  destruct (_ =? 2)%nat; eauto.
Qed.

End FitFacts.

(** ** The loops *)

Module LoopFacts.

Lemma for_each_In {A B : Type} (body : A -> result (list B)) (xs : list A)
  (rows : list B) (row : B) :
  for_each body xs = Ok rows ->
  In row rows ->
  exists x rs, In x xs /\ body x = Ok rs /\ In row rs.
Proof.
  revert rows. induction xs as [|x xs IH]; simpl; intros rows H I.
  - inversion H; subst. destruct I.
  - destruct (body x) as [rs|e] eqn:E; simpl in H; [|discriminate].
    destruct (for_each body xs) as [more|e] eqn:E'; simpl in H; [|discriminate].
    inversion H; subst. apply in_app_or in I as [I|I].
    + exists x, rs. auto.
    + destruct (IH more eq_refl I) as (x' & rs' & Ix & Ex & Ir).
      exists x', rs'. auto.
Qed.

Lemma for_each_raises {A B : Type} (body : A -> result (list B)) (xs : list A)
  (x : A) (e : exn) :
  In x xs -> body x = Raise e -> exists e', for_each body xs = Raise e'.
Proof.
  induction xs as [|y xs IH]; simpl; intros I E; [destruct I|].
  destruct I as [->|I].
  - rewrite E. simpl. eauto.
  - destruct (body y) as [rs|e0]; simpl; [|eauto].
    destruct (IH I E) as [e' ->]. simpl. eauto.
Qed.

Lemma for_each_total {A B : Type} (body : A -> list B) (xs : list A) :
  for_each (fun x => Ok (body x)) xs = Ok (flat_map body xs).
Proof. induction xs as [|x xs IH]; simpl; [reflexivity|]. now rewrite IH. Qed.

Lemma np_select_map {A B : Type} (p : A -> bool) (f : A -> B) (xs : list A) :
  np_select (map p xs) (map f xs) = map f (filter p xs).
Proof.
  induction xs as [|x xs IH]; simpl; [reflexivity|].
  rewrite IH. now destruct (p x).
Qed.

Lemma last_cons {A : Type} (xs : list A) (y x : A) : last (y :: xs) x = last xs y.
Proof.
  revert y x. induction xs as [|z xs IH]; intros y x; [reflexivity|].
  change (last (y :: z :: xs) x) with (last (z :: xs) x).
  now rewrite (IH z x), (IH z y).
Qed.

Lemma last_In {A : Type} (l : list A) (d : A) : l <> [] -> In (last l d) l.
Proof.
  induction l as [|a l IH]; [congruence|]. intros _.
  destruct l as [|b l]; [now left|].
  right. change (last (a :: b :: l) d) with (last (b :: l) d). apply IH. discriminate.
Qed.

Lemma nth_error_last {A : Type} (xs : list A) (x : A) :
  nth_error (x :: xs) (List.length xs) = Some (last xs x).
Proof.
  revert x. induction xs as [|y xs IH]; intros x; [reflexivity|].
  simpl List.length. cbn [nth_error]. rewrite IH. now rewrite last_cons.
Qed.

Lemma getitem_last {A : Type} (x : A) (xs : list A) :
  getitem (x :: xs) (List.length (x :: xs) - 1) = Ok (last xs x).
Proof.
  unfold getitem. simpl List.length. rewrite Nat.sub_1_r. simpl Nat.pred.
  now rewrite nth_error_last.
Qed.

Lemma getitem_map_last {A B : Type} (f : A -> B) (x : A) (xs : list A) :
  getitem (map f (x :: xs)) (Datatypes.S (List.length xs) - 1) = Ok (f (last xs x)).
Proof.
  pose proof (getitem_last (f x) (map f xs)) as H.
  simpl List.length in H. rewrite length_map in H. cbn [map]. rewrite H.
  f_equal. clear H. revert x. induction xs as [|y xs IH]; intros x; [reflexivity|].
  cbn [map]. now rewrite !last_cons.
Qed.

Section WithClasses.

Context {T : Type} {num : Num T} {tt : TTest T} {sorter : Sorter}.

Lemma masked_arrays_eq (g : list (Measurement T)) :
  masked_arrays g =
  (map (@timepoint_num T) (surviving g), map (@value T) (surviving g)).
Proof.
  unfold masked_arrays, surviving.
  rewrite (map_map (@value T) (fun v => negb (isnan v))).
  change (fun x : Measurement T => negb (isnan (value x))) with (@valid T num).
  now rewrite !np_select_map.
Qed.

(** The loop body of [calculate_slopes] in terms of the surviving rows. *)
Lemma slope_rows_in_eq (object_dtype : bool) (k : key) (g : list (Measurement T)) :
  slope_rows_in object_dtype (k, g) =
  if (List.length g <? 2)%nat then Ok []
  else match surviving g with
       | r0 :: r1 :: rest =>
           fit <- linregress_on object_dtype
                    (map (@timepoint_num T) (surviving g))
                    (map (@value T) (surviving g)) ;;
           Ok [trend_of k r0 (last (r1 :: rest) r0)
                 (List.length (surviving g)) fit]
       | _ => Ok []
       end.
Proof.
  unfold slope_rows_in. destruct k as [[b m] st].
  destruct (List.length g <? 2)%nat; [reflexivity|].
  rewrite masked_arrays_eq. rewrite !length_map.
  destruct (surviving g) as [|r0 [|r1 rest]] eqn:S; [reflexivity|reflexivity|].
  cbn [List.length Nat.ltb Nat.leb].
  destruct (linregress_on _ _ _) as [fit|e]; [|reflexivity].
  cbn [bind].
  change (Datatypes.S (Datatypes.S (List.length rest)))
    with (Datatypes.S (List.length (r1 :: rest))).
  rewrite !getitem_map_last. reflexivity.
Qed.

Lemma slope_rows_eq (k : key) (g : list (Measurement T)) :
  slope_rows (k, g) =
  if (List.length g <? 2)%nat then Ok []
  else match surviving g with
       | r0 :: r1 :: rest =>
           fit <- linregress (map (@timepoint_num T) (surviving g))
                             (map (@value T) (surviving g)) ;;
           Ok [trend_of k r0 (last (r1 :: rest) r0)
                 (List.length (surviving g)) fit]
       | _ => Ok []
       end.
Proof. apply (slope_rows_in_eq false). Qed.

(** A table in which some row has an ordinal has a numeric column. *)
Lemma object_column_false (df : list (Measurement T)) (r : Measurement T) :
  In r df -> has_ordinal r = true -> object_column df = false.
Proof.
  intros I H. unfold object_column.
  destruct (forallb _ df) eqn:F; [|reflexivity].
  rewrite forallb_forall in F. specialize (F r I). now rewrite H in F.
Qed.

Lemma object_column_perm (df df' : list (Measurement T)) :
  Permutation df df' -> object_column df = object_column df'.
Proof.
  unfold object_column. induction 1; simpl; auto.
  - now rewrite IHPermutation.
  - now rewrite !andb_assoc, (andb_comm (negb (has_ordinal y))).
  - congruence.
Qed.

(** In a column of [None] objects no row of the table has an ordinal. *)
Lemma object_column_missing (df : list (Measurement T)) (r : Measurement T) :
  object_column df = true -> In r df -> timepoint_num r = None.
Proof.
  unfold object_column. rewrite forallb_forall. intros F I.
  specialize (F r I). unfold has_ordinal in F. now destruct (timepoint_num r).
Qed.

End WithClasses.

End LoopFacts.

(** ** Delta calculator *)

Module Delta.

Import SortFacts GroupFacts LoopFacts.

Section WithClasses.

Context {T : Type} {num : Num T} {sorter : Sorter}.

Lemma calculate_percent_change_eq (df : list (Measurement T)) :
  df <> [] ->
  calculate_percent_change df =
  Ok (flat_map (fun g => adjacent_changes (fst g) (sort_values (snd g))) (groupby df)).
Proof.
  intros NE. unfold calculate_percent_change. destruct df; [congruence|].
  unfold delta_rows. apply for_each_total.
Qed.

Lemma change_rows_In (k : key) (r1 r2 : Measurement T) (d : DeltaResult T) :
  In d (change_rows k r1 r2) ->
  isnan (value r1) = false /\ isnan (value r2) = false /\
  eqb (value r1) zero = false /\
  value_from d = value r1 /\ value_to d = value r2.
Proof.
  unfold change_rows. destruct k as [[b m] st].
  destruct (isnan (value r1)), (isnan (value r2)), (eqb (value r1) zero);
    simpl; intros I; try (now destruct I); destruct I as [<-|[]]; auto.
Qed.

Lemma adjacent_changes_In (k : key) (rows : list (Measurement T)) (d : DeltaResult T) :
  In d (adjacent_changes k rows) ->
  exists r1 r2, In r1 rows /\ In r2 rows /\ In d (change_rows k r1 r2).
Proof.
  induction rows as [|r1 rows IH]; [simpl; intros []|].
  destruct rows as [|r2 rows]; [simpl; intros []|].
  cbn [adjacent_changes]. intros I. apply in_app_or in I as [I|I].
  - exists r1, r2. simpl. auto.
  - destruct (IH I) as (a & b & Ia & Ib & Id). exists a, b. simpl in *. auto.
Qed.

(** The rows of a group are the rows of its adjacent pairs, in order. *)
Lemma adjacent_changes_pair (k : key) (pre post : list (Measurement T))
  (r1 r2 : Measurement T) :
  adjacent_changes k (pre ++ r1 :: r2 :: post) =
  adjacent_changes k (pre ++ [r1]) ++ change_rows k r1 r2 ++
  adjacent_changes k (r2 :: post).
Proof.
  assert (C : forall a b l, adjacent_changes k (a :: b :: l)
                            = change_rows k a b ++ adjacent_changes k (b :: l))
    by reflexivity.
  induction pre as [|a pre IH].
  - rewrite !app_nil_l, C. reflexivity.
  - destruct pre as [|b pre].
    + change ([a] ++ ?l) with (a :: l).
      rewrite !C. change (adjacent_changes k [r1]) with (@nil (DeltaResult T)).
      now rewrite app_nil_r.
    + change ((a :: b :: pre) ++ ?l) with (a :: b :: (pre ++ l)).
      change ((b :: pre) ++ ?l) with (b :: (pre ++ l)) in IH.
      rewrite !C, IH, <- !app_assoc. reflexivity.
Qed.

(** C4 (amended).  An adjacent pair whose "from" value is zero contributes
    no DeltaResult: the loop body appends nothing for it, the rows of a
    sorted group are those of its other pairs, and on every non-empty table
    the calculator returns, without raising, rows whose "from" value is
    non-zero and whose two values are not missing. *)
Theorem zero_from_pair_skipped :
  (forall k r1 r2, eqb (value r1) zero = true -> change_rows k r1 r2 = []) /\
  (forall k pre r1 r2 post,
      eqb (value r1) zero = true ->
      adjacent_changes k (pre ++ r1 :: r2 :: post) =
      adjacent_changes k (pre ++ [r1]) ++ adjacent_changes k (r2 :: post)) /\
  (forall df : list (Measurement T),
      df <> [] ->
      exists rows,
        calculate_percent_change df = Ok rows /\
        forall d, In d rows ->
          eqb (value_from d) zero = false /\
          isnan (value_from d) = false /\ isnan (value_to d) = false).
Proof.
  assert (Z0 : forall k r1 r2, eqb (value r1) zero = true -> change_rows k r1 r2 = []).
  { intros [[b m] st] r1 r2 E. unfold change_rows. rewrite E.
    now rewrite !andb_false_r. }
  split; [exact Z0|]. split.
  - intros k pre r1 r2 post E. now rewrite adjacent_changes_pair, (Z0 k r1 r2 E).
  - intros df NE. eexists. split; [now apply calculate_percent_change_eq|].
    intros d I. apply in_flat_map in I as (g & _ & I).
    apply adjacent_changes_In in I as (r1 & r2 & _ & _ & I).
    apply change_rows_In in I as (N1 & N2 & E & -> & ->). auto.
Qed.

End WithClasses.

(** C4, as stated, fails: the pair of [df_zero] has two values that are not
    missing and a "from" value of zero, and the calculator emits no row for
    it (so no row with a null [percent_change] either). *)
Lemma zero_from_pair_counterexample :
  map (fun r => (isnan (value r), eqb (value r) zero)) df_zero
    = [(false, true); (false, false)] /\
  calculate_percent_change df_zero = Ok [].
Proof. split; reflexivity. Qed.

Lemma zero_from_pair_witness :
  change_rows ("sub-001", "volume", "Left-Hippocampus")%string
    (mk "sub-001" "sub-001_ses-01" (Some 1%Z) 0%float)
    (mk "sub-001" "sub-001_ses-02" (Some 2%Z) 6%float) = [] /\
  exists rows,
    calculate_percent_change df_c8 = Ok rows /\
    forall d, In d rows ->
      eqb (value_from d) zero = false /\
      isnan (value_from d) = false /\ isnan (value_to d) = false.
Proof.
  split.
  - apply (proj1 (zero_from_pair_skipped (T := float))). reflexivity.
  - apply (proj2 (proj2 (zero_from_pair_skipped (T := float)))). discriminate.
Defined.

(** C8.  A group with the points (1, 10), (2, 20), (3, 15), given in any
    order, yields exactly two DeltaResults: 1 to 2 with absolute change 10
    and percent change 100, and 2 to 3 with absolute change -5 and percent
    change -25. *)
Theorem adjacency_example (sorter : Sorter) (df : list (Measurement float)) :
  argsort_spec sorter ->
  Permutation df df_c8 ->
  calculate_percent_change df = Ok [delta_1_2; delta_2_3].
Proof.
  intros OK P.
  assert (NE : df <> []).
  { intros ->. apply Permutation_nil in P. discriminate. }
  rewrite (calculate_percent_change_eq NE).
  assert (A : Forall (fun r => key_of r = ("sub-001", "volume", "Left-Hippocampus")%string) df).
  { apply Forall_forall. intros r I. apply (Permutation_in _ P) in I.
    simpl in I. intuition; subst; reflexivity. }
  rewrite (groupby_single NE A). cbn [flat_map fst snd]. rewrite app_nil_r.
  rewrite <- (sort_values_unique OK (Permutation_sym P)).
  - rewrite (sort_values_sorted OK).
    + reflexivity.
    + repeat constructor.
    + repeat constructor; simpl; lia.
  - repeat constructor; simpl; intuition discriminate.
Qed.

Lemma adjacency_example_witness :
  calculate_percent_change (sorter := insertion_sorter) (List.rev df_c8)
  = Ok [delta_1_2; delta_2_3].
Proof.
  apply (adjacency_example (sorter := insertion_sorter)).
  - exact InsertionSort.insertion_argsort_ok.
  - apply Permutation_sym, Permutation_rev.
Defined.

End Delta.

(** ** Trend estimator *)

Module Trend.

Import SortFacts GroupFacts LoopFacts FitFacts.

Lemma sorted_app {A : Type} (R : A -> A -> Prop) (l l' : list A) :
  StronglySorted R l -> StronglySorted R l' ->
  (forall a b, In a l -> In b l' -> R a b) ->
  StronglySorted R (l ++ l').
Proof.
  intros S S' C. induction S as [|a l S IH F]; simpl; [exact S'|].
  constructor.
  - apply IH. intros x y Ix Iy. apply C; [now right|exact Iy].
  - apply Forall_app. split; [exact F|].
    apply Forall_forall. intros b Ib. apply C; [now left|exact Ib].
Qed.

Lemma sorted_app_r {A : Type} (R : A -> A -> Prop) (l l' : list A) :
  StronglySorted R (l ++ l') -> StronglySorted R l'.
Proof. induction l as [|a l IH]; simpl; [auto|]. intros S. inversion S. auto. Qed.

Lemma sorted_filter {A : Type} (R : A -> A -> Prop) (f : A -> bool) (l : list A) :
  StronglySorted R l -> StronglySorted R (filter f l).
Proof.
  induction 1 as [|a l S IH F]; simpl; [constructor|].
  destruct (f a); [|exact IH]. constructor; [exact IH|].
  rewrite Forall_forall in *. intros x I. apply filter_In in I as [I _]. auto.
Qed.

Lemma sorted_last {A : Type} (R : A -> A -> Prop) (l : list A) (d : A) :
  StronglySorted R l -> Forall (fun x => R x (last l d) \/ x = last l d) l.
Proof.
  intros S. revert d. induction S as [|a l S IH F]; intros d; [constructor|].
  rewrite last_cons. constructor.
  - destruct l as [|b l]; [now right|]. left.
    rewrite Forall_forall in F. apply F, last_In. discriminate.
  - apply IH.
Qed.

Section WithClasses.

Context {T : Type} {num : Num T} {tt : TTest T} {sorter : Sorter}.
Hypothesis sorter_ok : argsort_spec sorter.

Lemma surviving_perm (g : list (Measurement T)) :
  Permutation (surviving g) (filter valid g).
Proof.
  unfold surviving. pose proof (sort_values_perm sorter_ok g) as P.
  induction P; simpl; auto.
  - destruct (valid x); auto.
  - destruct (valid x), (valid y); auto. constructor.
  - etransitivity; eauto.
Qed.

Lemma surviving_In (g : list (Measurement T)) (r : Measurement T) :
  In r (surviving g) -> In r g /\ valid r = true.
Proof.
  intros I. apply (Permutation_in _ (surviving_perm g)) in I.
  now apply filter_In in I.
Qed.

Lemma surviving_length (g : list (Measurement T)) :
  List.length (surviving g) = List.length (filter valid g).
Proof. apply Permutation_length, surviving_perm. Qed.

Lemma surviving_short (g : list (Measurement T)) :
  (List.length g <? 2)%nat = true -> (List.length (surviving g) < 2)%nat.
Proof.
  intros H. apply Nat.ltb_lt in H. rewrite surviving_length.
  pose proof (filter_length_le valid g). lia.
Qed.

(** No surviving value is NaN. *)
Lemma surviving_no_nan (g : list (Measurement T)) :
  existsb isnan (map (@value T) (surviving g)) = false.
Proof.
  unfold surviving. induction (sort_values g) as [|r l IH]; [reflexivity|].
  cbn [filter]. unfold valid at 1. destruct (isnan (value r)) eqn:E; cbn [negb].
  - exact IH.
  - cbn [map existsb]. now rewrite E, IH.
Qed.

Lemma sorted_keyed_ordinal (g : list (Measurement T)) (r : Measurement T) :
  In r (sorted_keyed g) -> timepoint_num r = Some (ord0 r).
Proof.
  intros I. apply (Permutation_in _ (sorted_keyed_perm sorter_ok g)) in I.
  apply filter_In in I as [_ H]. unfold has_ordinal, ord0 in *.
  now destruct (timepoint_num r).
Qed.

Lemma keyed_by_ordinal (l : list (Measurement T)) :
  (forall r, In r l -> timepoint_num r = Some (ord0 r)) ->
  StronglySorted Z.le (map ord0 l) -> StronglySorted (@by_ordinal T) l.
Proof.
  induction l as [|a l IH]; intros K S; [constructor|].
  simpl in S. inversion S as [|? ? S' F]; subst. constructor.
  - apply IH; [intros r I; apply K; now right|exact S'].
  - rewrite Forall_forall in *. intros x I. unfold by_ordinal, ordinal_le.
    rewrite (K a) by now left. rewrite (K x) by now right.
    apply F. now apply in_map.
Qed.

Lemma missing_by_ordinal (l : list (Measurement T)) :
  (forall r, In r l -> timepoint_num r = None) -> StronglySorted (@by_ordinal T) l.
Proof.
  induction l as [|a l IH]; intros K; constructor.
  - apply IH. intros r I. apply K. now right.
  - apply Forall_forall. intros x I. unfold by_ordinal, ordinal_le.
    rewrite (K x) by now right. now destruct (timepoint_num a).
Qed.

(** A sorted group is in ascending order of ordinal, the rows without one
    last. *)
Lemma sort_values_ascending (g : list (Measurement T)) :
  StronglySorted (@by_ordinal T) (sort_values g).
Proof.
  rewrite sort_values_eq.
  assert (M : forall r, In r (filter (fun r => negb (has_ordinal r)) g) ->
                        timepoint_num r = None).
  { intros r I. apply filter_In in I as [_ H]. unfold has_ordinal in H.
    now destruct (timepoint_num r). }
  apply sorted_app.
  - apply keyed_by_ordinal; [apply sorted_keyed_ordinal|].
    apply (sorted_keyed_sorted sorter_ok).
  - now apply missing_by_ordinal.
  - intros a b Ia Ib. unfold by_ordinal, ordinal_le. rewrite (M b Ib).
    now destruct (timepoint_num a).
Qed.

Lemma surviving_ascending (g : list (Measurement T)) :
  StronglySorted (@by_ordinal T) (surviving g).
Proof. apply sorted_filter, sort_values_ascending. Qed.

Lemma slope_rows_raises_only (x : key * list (Measurement T)) (e : exn) :
  slope_rows x = Raise e -> e = ValueError.
Proof.
  destruct x as [k g]. rewrite slope_rows_eq.
  destruct (List.length g <? 2)%nat; [discriminate|].
  destruct (surviving g) as [|r0 [|r1 rest]]; try discriminate.
  unfold linregress. cbn [map].
  destruct (existsb missing _ || existsb isnan _); [discriminate|].
  destruct (identical_ordinals _ && _); [simpl; congruence|].
  destruct (np_cov _ _) as [[a b] c]. destruct (_ =? 2)%nat; discriminate.
Qed.

Lemma for_each_raises_same {A B : Type} (body : A -> result (list B)) (xs : list A)
  (x : A) (e : exn) :
  (forall y e', body y = Raise e' -> e' = e) ->
  In x xs -> body x = Raise e -> for_each body xs = Raise e.
Proof.
  intros Only I E. destruct (for_each_raises body xs x I E) as [e' H].
  rewrite H. f_equal. clear I E x.
  revert H. induction xs as [|y xs IH]; simpl; [discriminate|].
  destruct (body y) as [rs|e0] eqn:Ey; simpl.
  - destruct (for_each body xs) as [more|e1]; simpl; [discriminate|].
    intros H. inversion H; subst. now apply IH.
  - intros H. inversion H; subst. eapply Only; eauto.
Qed.

Lemma groupby_In (df : list (Measurement T)) (k : key) (r : Measurement T) :
  In r (group_rows df k) -> In (k, group_rows df k) (groupby df).
Proof.
  intros I. unfold groupby. apply in_map_iff. exists k. split; [reflexivity|].
  apply group_keys_In, in_map_iff. exists r. split.
  - eapply group_rows_key; eauto.
  - unfold group_rows in I. now apply filter_In in I.
Qed.

(** On a table with an ordinal the loop runs the body for a numeric
    column. *)
Lemma calculate_slopes_numeric (df : list (Measurement T)) (r : Measurement T) :
  In r df -> has_ordinal r = true ->
  calculate_slopes df = for_each slope_rows (groupby df).
Proof.
  intros I H. unfold calculate_slopes. rewrite (object_column_false df r I H).
  destruct df; [destruct I|reflexivity].
Qed.

Lemma trend_of_key (k : key) (a b : Measurement T) (n : nat) (fit : Fit (T := T)) :
  trend_key (trend_of k a b n fit) = k.
Proof. now destruct k as [[? ?] ?]. Qed.

(** The rows of the trend table, one by one: each comes from a group with
    at least two surviving rows and from the fit of their ordinals and
    values. *)
Lemma slopes_row_inv (df : list (Measurement T)) (rows : list (TrendResult T))
  (row : TrendResult T) :
  calculate_slopes df = Ok rows -> In row rows ->
  exists k r0 r1 rest fit,
    In k (group_keys df) /\
    surviving (group_rows df k) = r0 :: r1 :: rest /\
    linregress (map (@timepoint_num T) (surviving (group_rows df k)))
               (map (@value T) (surviving (group_rows df k))) = Ok fit /\
    row = trend_of k r0 (last (r1 :: rest) r0)
            (List.length (surviving (group_rows df k))) fit.
Proof.
  intros H I.
  assert (H' : for_each (slope_rows_in (object_column df)) (groupby df) = Ok rows)
    by (destruct df; [discriminate|exact H]).
  destruct (@for_each_In _ _ _ _ _ _ H' I) as ([k g] & rs & Ig & E & Ir).
  unfold groupby in Ig. apply in_map_iff in Ig as (k' & Ek & Ik).
  assert (k' = k) by congruence. subst k'.
  assert (Eg : g = group_rows df k) by congruence. subst g.
  rewrite slope_rows_in_eq in E.
  destruct (List.length (group_rows df k) <? 2)%nat;
    [assert (rs = []) by congruence; subst rs; destruct Ir|].
  destruct (surviving (group_rows df k)) as [|r0 [|r1 rest]] eqn:S;
    try (assert (rs = []) by congruence; subst rs; destruct Ir).
  unfold linregress_on in E.
  destruct (object_column df); [discriminate|].
  destruct (linregress _ _) as [fit|e] eqn:L; [|discriminate].
  cbn [bind] in E. exists k, r0, r1, rest, fit.
  assert (Er : rs = [trend_of k r0 (last (r1 :: rest) r0)
                       (List.length (r0 :: r1 :: rest)) fit]) by congruence.
  subst rs. destruct Ir as [<-|[]]. rewrite S. auto.
Qed.

(** C1 (what the code does).  A group with at least two rows whose value
    is not missing, all of them carrying one and the same ordinal, makes the
    loop body raise [ValueError] (from [linregress]), and with it the whole
    of [calculate_slopes]: no row is produced for any group. *)
Theorem degenerate_fit_raises (df : list (Measurement T)) (k : key) (z : Z) :
  (2 <= List.length (filter valid (group_rows df k)))%nat ->
  (forall r, In r (group_rows df k) -> valid r = true -> timepoint_num r = Some z) ->
  slope_rows (k, group_rows df k) = Raise ValueError /\
  calculate_slopes df = Raise ValueError.
Proof.
  intros L Same. set (g := group_rows df k) in *.
  assert (R : slope_rows (k, g) = Raise ValueError).
  { rewrite slope_rows_eq.
    pose proof (filter_length_le valid g) as Lg.
    destruct (Nat.ltb_spec (List.length g) 2) as [Hlt|_]; [lia|].
    rewrite <- surviving_length in L.
    pose proof (surviving_no_nan g) as Ny.
    destruct (surviving g) as [|r0 [|r1 rest]] eqn:S; simpl in L; try lia.
    rewrite linregress_raises; [reflexivity|discriminate|exact Ny|simpl; lia|].
    apply identical_ordinals_iff. split; [discriminate|]. exists z.
    apply Forall_forall. intros o I. apply in_map_iff in I as (r & <- & I).
    rewrite <- S in I. apply surviving_In in I as [I V]. now apply Same. }
  split; [exact R|].
  destruct (filter valid g) as [|r rs] eqn:F; [simpl in L; lia|].
  assert (Iv : In r (filter valid g)) by (rewrite F; now left).
  apply filter_In in Iv as [I V].
  assert (Id : In r df) by (unfold g, group_rows in I; now apply filter_In in I).
  assert (Ho : has_ordinal r = true)
    by (unfold has_ordinal; now rewrite (Same r I V)).
  rewrite (calculate_slopes_numeric df r Id Ho).
  apply for_each_raises_same with (x := (k, g)); auto.
  - intros y e'. apply slope_rows_raises_only.
  - eapply groupby_In. exact I.
Qed.

(** C2 (amended).  Every row that [calculate_slopes] returns is computed
    from the rows of its group whose value is not missing, and from all of
    them: a row of the group survives the mask exactly when its value is
    not NaN, whether or not it carries an ordinal; the surviving rows come
    in ascending order of ordinal, those without one last; their ordinals
    and values are the two arrays given to [linregress], whose result
    fills the row; [n_timepoints] is their number, which is at least two;
    and the baseline and final values are not missing. *)
Theorem n_timepoints_counts_valid_values
  (df : list (Measurement T)) (rows : list (TrendResult T)) (row : TrendResult T) :
  calculate_slopes df = Ok rows ->
  In row rows ->
  (forall r, In r (group_rows df (trend_key row)) ->
     (In r (surviving (group_rows df (trend_key row))) <-> isnan (value r) = false)) /\
  StronglySorted (@by_ordinal T) (surviving (group_rows df (trend_key row))) /\
  (exists fit,
     linregress (map (@timepoint_num T) (surviving (group_rows df (trend_key row))))
                (map (@value T) (surviving (group_rows df (trend_key row)))) = Ok fit /\
     slope row = fit_slope fit /\ intercept row = fit_intercept fit /\
     r_squared row = mul (fit_rvalue fit) (fit_rvalue fit) /\
     p_value row = fit_pvalue fit /\ std_error row = fit_stderr fit) /\
  n_timepoints row =
    List.length (filter valid (group_rows df (trend_key row))) /\
  n_timepoints row = List.length (surviving (group_rows df (trend_key row))) /\
  (2 <= n_timepoints row)%nat /\
  isnan (baseline_value row) = false /\
  isnan (final_value row) = false.
Proof.
  intros H I.
  destruct (@slopes_row_inv _ _ _ H I) as (k & r0 & r1 & rest & fit & _ & S & L & ->).
  rewrite trend_of_key.
  set (g := group_rows df k) in *.
  assert (V : forall r, In r (r0 :: r1 :: rest) -> isnan (value r) = false).
  { intros r Hr. rewrite <- S in Hr. apply surviving_In in Hr as [_ Hr].
    unfold valid in Hr. now destruct (isnan (value r)). }
  split; [|split; [|split; [|split; [|split; [|split; [|split]]]]]].
  - intros r Ig. split.
    + intros Is. apply surviving_In in Is as [_ Hv].
      unfold valid in Hv. now destruct (isnan (value r)).
    + intros Hn. apply (Permutation_in _ (Permutation_sym (surviving_perm g))).
      apply filter_In. split; [exact Ig|]. unfold valid. now rewrite Hn.
  - apply surviving_ascending.
  - exists fit. split; [exact L|].
    cbn [trend_of slope intercept r_squared p_value std_error]. auto.
  - cbn [trend_of n_timepoints]. apply surviving_length.
  - reflexivity.
  - cbn [trend_of n_timepoints]. rewrite S. simpl. lia.
  - cbn [trend_of baseline_value]. apply V. now left.
  - cbn [trend_of final_value]. apply V. right. apply last_In. discriminate.
Qed.

(** C9 (what the code does).  When [calculate_slopes] returns, the guard
    on the baseline has worked: every row whose baseline value is zero has
    a null [percent_change], and its [absolute_change] is still the final
    value minus the baseline value.  But a group whose baseline value is
    zero and whose surviving rows, two or more, all carry one and the same
    ordinal makes [calculate_slopes] raise [ValueError] before the baseline
    is read: no row is returned for any group. *)
Theorem zero_baseline_outcome :
  (forall (df : list (Measurement T)) rows row,
      calculate_slopes df = Ok rows -> In row rows ->
      eqb (baseline_value row) zero = true ->
      percent_change row = None /\
      absolute_change row = sub (final_value row) (baseline_value row)) /\
  (forall (df : list (Measurement T)) k z r0 rest,
      surviving (group_rows df k) = r0 :: rest ->
      eqb (value r0) zero = true ->
      rest <> [] ->
      (forall r, In r (surviving (group_rows df k)) -> timepoint_num r = Some z) ->
      calculate_slopes df = Raise ValueError).
Proof.
  split.
  - intros df rows row H I Z0.
    destruct (@slopes_row_inv _ _ _ H I) as (k & r0 & r1 & rest & fit & _ & S & L & ->).
    cbn [trend_of baseline_value final_value percent_change absolute_change] in *.
    rewrite Z0. auto.
  - intros df k z r0 rest S Z0 NE Same.
    set (g := group_rows df k) in *.
    assert (I0 : In r0 (surviving g)) by (rewrite S; now left).
    pose proof (surviving_In _ _ I0) as [Ig _].
    assert (Id : In r0 df) by (unfold g, group_rows in Ig; now apply filter_In in Ig).
    assert (Ho : has_ordinal r0 = true)
      by (unfold has_ordinal; now rewrite (Same r0 I0)).
    rewrite (calculate_slopes_numeric df r0 Id Ho).
    apply for_each_raises_same with (x := (k, g)).
    + intros y e'. apply slope_rows_raises_only.
    + eapply groupby_In. exact Ig.
    + rewrite slope_rows_eq.
      destruct (List.length g <? 2)%nat eqn:Lg.
      { apply surviving_short in Lg. rewrite S in Lg.
        destruct rest; [congruence|simpl in Lg; lia]. }
      pose proof (surviving_no_nan g) as Ny.
      rewrite S in *. destruct rest as [|r1 rest]; [congruence|].
      rewrite linregress_raises; [reflexivity|discriminate|exact Ny|simpl; lia|].
      apply identical_ordinals_iff. split; [discriminate|]. exists z.
      apply Forall_forall. intros o I. apply in_map_iff in I as (r & <- & I).
      now apply Same.
Qed.

End WithClasses.

Lemma degenerate_fit_witness :
  slope_rows (k0, group_rows df_same k0) = Raise ValueError /\
  calculate_slopes df_same = Raise ValueError.
Proof.
  apply (@degenerate_fit_raises float _ _ _ InsertionSort.insertion_argsort_ok df_same k0 1%Z).
  - vm_compute. lia.
  - intros r [<-|[<-|[]]] _; reflexivity.
Defined.

(** C2, as stated, fails: in [df_null] one row has both a value and an
    ordinal, the other a value and no ordinal; the estimator keeps both and
    reports [n_timepoints = 2]. *)
Lemma null_ordinal_counted :
  List.length (filter (fun r => valid r && has_ordinal r) df_null) = 1%nat /\
  fmap (map (@n_timepoints float)) (calculate_slopes df_null) = Ok [2%nat].
Proof. split; reflexivity. Qed.

(** In [df_mixed] the row without an ordinal survives, the row without a
    value does not. *)
Lemma n_timepoints_witness :
  (forall r, In r (group_rows df_mixed (trend_key trend_mixed)) ->
     (In r (surviving (group_rows df_mixed (trend_key trend_mixed)))
      <-> isnan (value r) = false)) /\
  StronglySorted (@by_ordinal float)
    (surviving (group_rows df_mixed (trend_key trend_mixed))) /\
  (exists fit,
     linregress
       (map (@timepoint_num float)
          (surviving (group_rows df_mixed (trend_key trend_mixed))))
       (map (@value float)
          (surviving (group_rows df_mixed (trend_key trend_mixed)))) = Ok fit /\
     slope trend_mixed = fit_slope fit /\
     intercept trend_mixed = fit_intercept fit /\
     r_squared trend_mixed = mul (fit_rvalue fit) (fit_rvalue fit) /\
     p_value trend_mixed = fit_pvalue fit /\
     std_error trend_mixed = fit_stderr fit) /\
  n_timepoints trend_mixed =
    List.length (filter valid (group_rows df_mixed (trend_key trend_mixed))) /\
  n_timepoints trend_mixed =
    List.length (surviving (group_rows df_mixed (trend_key trend_mixed))) /\
  (2 <= n_timepoints trend_mixed)%nat /\
  isnan (baseline_value trend_mixed) = false /\
  isnan (final_value trend_mixed) = false.
Proof.
  apply (@n_timepoints_counts_valid_values float _ _ _
           InsertionSort.insertion_argsort_ok df_mixed [trend_mixed] trend_mixed).
  - vm_compute. reflexivity.
  - now left.
Defined.

(** The sample behind it: three rows in the group, two of them counted,
    one of these without an ordinal, and a fit that is NaN. *)
Example mixed_sample :
  map (@timepoint_num float) (surviving df_mixed) = [Some 1%Z; None] /\
  map (@value float) (surviving df_mixed) = [1%float; 2%float] /\
  n_timepoints trend_mixed = 2%nat /\
  isnan (slope trend_mixed) = true.
Proof. repeat split. Qed.

Lemma zero_baseline_witness :
  (percent_change trend_zero = None /\
   absolute_change trend_zero
   = sub (final_value trend_zero) (baseline_value trend_zero)) /\
  calculate_slopes df_zero_same = Raise ValueError.
Proof.
  destruct (@zero_baseline_outcome float _ _ _ InsertionSort.insertion_argsort_ok)
    as [Guard Raises].
  split.
  - apply (Guard df_zero [trend_zero] trend_zero);
      [vm_compute; reflexivity|now left|reflexivity].
  - apply (Raises df_zero_same k0 1%Z
             (mk "sub-001" "sub-001_ses-1a" (Some 1%Z) 0%float)
             [mk "sub-001" "sub-001_ses-1b" (Some 1%Z) 5%float]).
    + vm_compute. reflexivity.
    + reflexivity.
    + discriminate.
    + intros r I.
      assert (E : surviving (group_rows df_zero_same k0) = df_zero_same)
        by (vm_compute; reflexivity).
      rewrite E in I. destruct I as [<-|[<-|[]]]; reflexivity.
Defined.

End Trend.


(** ** Input order *)

Module Determinism.

Import SortFacts GroupFacts LoopFacts.

Section WithClasses.

Context {T : Type} {num : Num T} {tt : TTest T} {sorter : Sorter}.
Hypothesis sorter_ok : argsort_spec sorter.

Lemma slope_rows_in_perm (object_dtype : bool) (k : key)
  (g g' : list (Measurement T)) :
  Permutation g g' ->
  NoDup (map (@timepoint_num T) g) ->
  slope_rows_in object_dtype (k, g) = slope_rows_in object_dtype (k, g').
Proof.
  intros P N. unfold slope_rows_in, masked_arrays.
  now rewrite (Permutation_length P), (sort_values_unique sorter_ok P N).
Qed.

Lemma slope_rows_perm (k : key) (g g' : list (Measurement T)) :
  Permutation g g' ->
  NoDup (map (@timepoint_num T) g) ->
  slope_rows (k, g) = slope_rows (k, g').
Proof. apply slope_rows_in_perm. Qed.

Lemma delta_rows_perm (k : key) (g g' : list (Measurement T)) :
  Permutation g g' ->
  NoDup (map (@timepoint_num T) g) ->
  delta_rows (k, g) = delta_rows (k, g').
Proof.
  intros P N. unfold delta_rows. cbn [fst snd].
  now rewrite (sort_values_unique sorter_ok P N).
Qed.

Lemma for_each_groups {B : Type}
  (body : key * list (Measurement T) -> result (list B))
  (df df' : list (Measurement T)) :
  Permutation df df' ->
  (forall k, body (k, group_rows df k) = body (k, group_rows df' k)) ->
  for_each body (groupby df) = for_each body (groupby df').
Proof.
  intros P E. unfold groupby. rewrite <- (group_keys_perm P).
  induction (group_keys df) as [|k ks IH]; simpl; [reflexivity|].
  now rewrite E, IH.
Qed.

(** C3 (amended).  When no two rows of a group carry the same ordinal
    (a missing ordinal counting as one), reordering the rows of the table
    changes neither the result of [calculate_slopes] nor that of
    [calculate_percent_change]: the same rows in the same order, or the
    same exception. *)
Theorem reorder_invariance (df df' : list (Measurement T)) :
  Permutation df df' ->
  (forall k, NoDup (map (@timepoint_num T) (group_rows df k))) ->
  calculate_slopes df = calculate_slopes df' /\
  calculate_percent_change df = calculate_percent_change df'.
Proof.
  intros P N. unfold calculate_slopes, calculate_percent_change.
  rewrite <- (object_column_perm P).
  destruct df as [|r df0].
  - apply Permutation_nil in P. subst df'. split; reflexivity.
  - destruct df' as [|r' df0'].
    + apply Permutation_sym, Permutation_nil in P. discriminate.
    + split; apply for_each_groups; auto; intros k.
      * apply slope_rows_in_perm; [now apply group_rows_perm|apply N].
      * apply delta_rows_perm; [now apply group_rows_perm|apply N].
Qed.

End WithClasses.

Lemma reorder_witness :
  calculate_slopes df_c8 = calculate_slopes (List.rev df_c8) /\
  calculate_percent_change df_c8 = calculate_percent_change (List.rev df_c8).
Proof.
  apply (@reorder_invariance float _ _ _ InsertionSort.insertion_argsort_ok).
  - apply Permutation_rev.
  - intros k. unfold group_rows, df_c8. simpl filter.
    destruct (key_eqb _ k); simpl; repeat constructor; simpl; intuition discriminate.
Defined.

(** C3, as stated, fails: [df_tie_swapped] holds the rows of [df_tie] in
    another order, and both calculators return different rows for the two:
    the tied rows exchange the roles of baseline and of "from" and "to". *)
Lemma reorder_counterexample :
  Permutation df_tie df_tie_swapped /\
  fmap (map (@baseline_value float)) (calculate_slopes df_tie) = Ok [10%float] /\
  fmap (map (@baseline_value float)) (calculate_slopes df_tie_swapped) = Ok [20%float] /\
  fmap (map (fun d => (value_from d, value_to d, dr_absolute_change d)))
       (calculate_percent_change df_tie)
    = Ok [(10%float, 20%float, 10%float); (20%float, 30%float, 10%float)] /\
  fmap (map (fun d => (value_from d, value_to d, dr_absolute_change d)))
       (calculate_percent_change df_tie_swapped)
    = Ok [(20%float, 10%float, (-10)%float); (10%float, 30%float, 20%float)].
Proof. split; [apply perm_swap|repeat split]. Qed.

(** The same holds whichever way [argsort] breaks ties: it sees equal keys
    in both runs and returns the same positions, so two tied rows come out
    in one run in the opposite order of the other. *)
Lemma tie_order_matters (sorter : Sorter) :
  argsort_spec sorter ->
  calculate_percent_change (firstn 2 df_tie)
  <> calculate_percent_change (firstn 2 df_tie_swapped).
Proof.
  intros OK. destruct (OK [1%Z; 1%Z]) as [P _].
  simpl List.length in P. simpl seq in P.
  unfold calculate_percent_change, delta_rows, sort_values. simpl firstn.
  rewrite !for_each_total.
  assert (G : forall a b : Measurement float,
             key_of a = k0 -> key_of b = k0 -> groupby [a; b] = [(k0, [a; b])]).
  { intros a b Ka Kb. apply groupby_single; [discriminate|]. now repeat constructor. }
  rewrite !G by reflexivity.
  cbn [flat_map fst snd filter has_ordinal mk timepoint_num negb ordinals app].
  change ([1%Z] ++ [1%Z] ++ []) with [1%Z; 1%Z].
  apply Permutation_sym, Permutation_length_2_inv in P as [-> | ->];
    vm_compute; discriminate.
Qed.

End Determinism.

(** * Further properties *)

(** ** The resolver and the ids it is given *)

Module IdRoundTrip.

Import PyStr PyStrFacts Resolver.
Open Scope string_scope.

Definition not_underscore (c : ascii) : bool := negb (Ascii.eqb c "_").

Lemma uint_decimal (d : uint) :
  all_chars is_decimal (NilEmpty.string_of_uint d) = true.
Proof. induction d; simpl; [reflexivity|..]; rewrite IHd; reflexivity. Qed.

Lemma uint_value_acc (d : uint) (acc : positive) :
  decimal_value (Z.pos acc) (NilEmpty.string_of_uint d)
  = Z.pos (Pos.of_uint_acc d acc).
Proof.
  revert acc. induction d; intros acc; cbn [NilEmpty.string_of_uint decimal_value Pos.of_uint_acc];
    [reflexivity|..]; rewrite <- IHd; f_equal;
    match goal with
    | |- context [digit_val ?c] =>
        let v := eval vm_compute in (digit_val c) in change (digit_val c) with v
    end; lia.
Qed.

Lemma uint_value (d : uint) :
  decimal_value 0 (NilEmpty.string_of_uint d) = Z.of_N (Pos.of_uint d).
Proof.
  induction d; cbn [NilEmpty.string_of_uint decimal_value Pos.of_uint];
    [reflexivity|exact IHd|..]; apply uint_value_acc.
Qed.

Lemma str_pos (p : positive) :
  str (Z.pos p) = NilEmpty.string_of_uint (Pos.to_uint p).
Proof.
  unfold str. simpl. pose proof (Unsigned.to_uint_nonnil p) as N.
  destruct (Pos.to_uint p); [congruence|..]; reflexivity.
Qed.

Lemma str_neg (p : positive) : str (Z.neg p) = String "-" (str (Z.pos p)).
Proof. reflexivity. Qed.

Lemma uint_nonempty (d : uint) : d <> Nil -> NilEmpty.string_of_uint d <> "".
Proof. destruct d; simpl; congruence. Qed.

Lemma str_pos_value (p : positive) :
  str (Z.pos p) <> "" /\
  all_chars is_decimal (str (Z.pos p)) = true /\
  decimal_value 0 (str (Z.pos p)) = Z.pos p.
Proof.
  rewrite str_pos. split; [apply uint_nonempty, Unsigned.to_uint_nonnil|].
  split; [apply uint_decimal|].
  now rewrite uint_value, Unsigned.of_to.
Qed.

(** The decimal rendering of a natural number spells that number. *)
Lemma str_digits_value (n : Z) :
  (0 <= n)%Z ->
  all_chars is_decimal (str n) = true /\ digits_value (str n) = Some n.
Proof.
  intros H. destruct n as [|p|p]; [split; reflexivity| |lia].
  destruct (str_pos_value p) as (NE & D & V). split; [exact D|].
  unfold digits_value. rewrite D, V. destruct (str (Z.pos p)); congruence.
Qed.

Lemma decimal_isdigit (s : string) :
  all_chars is_decimal s = true -> all_chars isdigit s = true.
Proof.
  induction s as [|c s IH]; simpl; [reflexivity|]. intros H.
  apply andb_prop in H as [Hc Hs]. rewrite (IH Hs). unfold isdigit. now rewrite Hc.
Qed.

Lemma filter_all (p : ascii -> bool) (s : string) :
  all_chars p s = true -> filter_chars p s = s.
Proof.
  induction s as [|c s IH]; simpl; [reflexivity|]. intros H.
  apply andb_prop in H as [Hc Hs]. now rewrite Hc, IH.
Qed.

(** [int(str(n)) == n]. *)
Lemma int_str (n : Z) : int (str n) = Ok n.
Proof.
  destruct n as [|p|p].
  - reflexivity.
  - assert (H : (0 <= Z.pos p)%Z) by lia.
    destruct (str_digits_value H) as [D V].
    rewrite int_digits by now apply decimal_isdigit.
    now rewrite V.
  - rewrite str_neg. destruct (str_pos_value p) as (NE & D & V).
    destruct (str (Z.pos p)) as [|c r] eqn:E; [congruence|].
    unfold int. cbn [lstrip]. change (is_space "-") with false. cbn [parse_sign].
    change (Ascii.eqb "-" "+") with false. change (Ascii.eqb "-" "-") with true.
    cbn [all_chars] in D. apply andb_prop in D as [Dc Dr]. rewrite Dc.
    pose proof (scan_digits_run r (decimal_isdigit r Dr) (digit_val c)) as S.
    rewrite Dr in S. rewrite S. cbn [all_space].
    cbn [decimal_value] in V.
    replace (10 * 0 + digit_val c)%Z with (digit_val c) in V by lia.
    now rewrite V.
Qed.

Lemma drop_app (a b : string) : drop (length a) (a ++ b) = b.
Proof. induction a; simpl; auto. Qed.

(** A pattern without underscores that matches at the start of a text cut
    by an underscore matches inside the part before the cut. *)
Lemma prefix_before_underscore (p a rest : string) :
  all_chars not_underscore p = true ->
  prefix p (a ++ String "_" rest) = true -> prefix p a = true.
Proof.
  revert a. induction p as [|c p IH]; intros a N H; [now destruct a|].
  cbn [all_chars] in N. apply andb_prop in N as [Nc Np].
  destruct a as [|d a]; cbn [prefix append] in H |- *.
  - destruct (ascii_dec c "_") as [->|]; [vm_compute in Nc|]; discriminate.
  - destruct (ascii_dec c d); [|discriminate]. now apply IH.
Qed.

Lemma no_straddle (sep' a rest : string) :
  a <> "" ->
  all_chars not_underscore sep' = true ->
  prefix (String "_" sep') (a ++ String "_" rest) = true ->
  prefix (String "_" sep') a = true.
Proof.
  intros NE N H. destruct a as [|d a]; [congruence|].
  cbn [prefix append] in H |- *.
  destruct (ascii_dec "_" d); [|discriminate].
  eapply prefix_before_underscore; eauto.
Qed.

Lemma contains_cons_false (sep : string) (c : ascii) (s : string) :
  contains sep (String c s) = false ->
  prefix sep (String c s) = false /\ contains sep s = false.
Proof. rewrite contains_eq. apply orb_false_elim. Qed.

(** The first occurrence of a marker put behind a text that does not
    contain it is the one that was put there. *)
Lemma find_built (sep' base r : string) :
  all_chars not_underscore sep' = true ->
  contains (String "_" sep') base = false ->
  find (String "_" sep') (base ++ String "_" (sep' ++ r)) = Some (base, r).
Proof.
  intros N. induction base as [|c b IH]; intros C.
  - change ("" ++ String "_" (sep' ++ r)) with (String "_" sep' ++ r).
    rewrite find_eq. now rewrite prefix_app, drop_app.
  - apply contains_cons_false in C as [Pf C].
    change (String c b ++ String "_" (sep' ++ r))
      with (String c (b ++ String "_" (sep' ++ r))).
    rewrite find_eq, (IH C).
    destruct (prefix (String "_" sep') (String c (b ++ String "_" (sep' ++ r)))) eqn:E;
      [|reflexivity].
    change (String c (b ++ String "_" (sep' ++ r)))
      with (String c b ++ String "_" (sep' ++ r)) in E.
    apply no_straddle in E; [congruence|discriminate|exact N].
Qed.

Lemma contains_built_false (sep' base tail : string) :
  all_chars not_underscore sep' = true ->
  contains (String "_" sep') base = false ->
  contains (String "_" sep') (String "_" tail) = false ->
  contains (String "_" sep') (base ++ String "_" tail) = false.
Proof.
  intros N. induction base as [|c b IH]; intros C Ct; [exact Ct|].
  apply contains_cons_false in C as [Pf C].
  change (String c b ++ String "_" tail) with (String c (b ++ String "_" tail)).
  rewrite contains_eq, (IH C Ct), orb_false_r.
  destruct (prefix (String "_" sep') (String c (b ++ String "_" tail))) eqn:E;
    [|reflexivity].
  change (String c (b ++ String "_" tail)) with (String c b ++ String "_" tail) in E.
  apply no_straddle in E; [congruence|discriminate|exact N].
Qed.

Lemma contains_no_underscore (sep' s : string) :
  all_chars not_underscore s = true -> contains (String "_" sep') s = false.
Proof.
  induction s as [|c s IH]; intros H.
  - reflexivity.
  - cbn [all_chars] in H. apply andb_prop in H as [Hc Hs].
    rewrite contains_eq, (IH Hs), orb_false_r. cbn [prefix].
    destruct (ascii_dec "_" c) as [<-|]; [vm_compute in Hc; discriminate|reflexivity].
Qed.

Lemma uint_no_underscore (d : uint) :
  all_chars not_underscore (NilEmpty.string_of_uint d) = true.
Proof. induction d; simpl; [reflexivity|..]; rewrite IHd; reflexivity. Qed.

Lemma str_no_underscore (n : Z) : all_chars not_underscore (str n) = true.
Proof.
  destruct n as [|p|p]; [reflexivity| |rewrite str_neg; cbn [all_chars]];
    rewrite str_pos, uint_no_underscore; reflexivity.
Qed.

Lemma app_assoc_str (a b c : string) : (a ++ b) ++ c = a ++ b ++ c.
Proof. induction a; simpl; congruence. Qed.

(** X1.  An id built as [base + "_tp" + str(n)], from a base that contains
    neither marker, resolves to that base, the label [tp] followed by the
    number, and the ordinal [n], negative numbers included. *)
Theorem timepoint_id_round_trip (base : string) (n : Z) :
  contains "_ses-" base = false ->
  contains "_tp" base = false ->
  parse_timepoint_info (base ++ "_tp" ++ str n)
  = Ok (base, Some ("tp" ++ str n), Some n).
Proof.
  intros Cs Ct. rewrite parse_timepoint_info_resolution. unfold resolution.
  pose proof (str_no_underscore n) as U.
  assert (F1 : find "_ses-" (base ++ "_tp" ++ str n) = None).
  { apply contains_false_find.
    apply (contains_built_false "ses-" base ("tp" ++ str n)); auto.
    rewrite contains_eq. apply orb_false_intro; [reflexivity|].
    apply contains_no_underscore. exact U. }
  rewrite F1.
  change (base ++ "_tp" ++ str n) with (base ++ String "_" ("tp" ++ str n)).
  rewrite (find_built "tp" base (str n) eq_refl Ct).
  rewrite (first_segment_once "_tp" (str n))
    by (apply contains_no_underscore; exact U).
  now rewrite int_str.
Qed.

Lemma timepoint_id_round_trip_witness :
  parse_timepoint_info ("sub-007" ++ "_tp" ++ str 12%Z)
  = Ok ("sub-007", Some ("tp" ++ str 12%Z), Some 12%Z).
Proof. apply (@timepoint_id_round_trip "sub-007" 12%Z); reflexivity. Defined.

(** X2.  An id built as [base + "_ses-" + str(n)] with [n >= 0], from a base
    that does not contain [_ses-], resolves to that base, the label [ses-]
    followed by the number, and the ordinal [n]. *)
Theorem session_id_round_trip (base : string) (n : Z) :
  (0 <= n)%Z ->
  contains "_ses-" base = false ->
  parse_timepoint_info (base ++ "_ses-" ++ str n)
  = Ok (base, Some ("ses-" ++ str n), Some n).
Proof.
  intros N Cs. rewrite parse_timepoint_info_resolution. unfold resolution.
  change (base ++ "_ses-" ++ str n) with (base ++ String "_" ("ses-" ++ str n)).
  rewrite (find_built "ses-" base (str n) eq_refl Cs).
  rewrite (first_segment_once "_ses-" (str n))
    by (apply contains_no_underscore, str_no_underscore).
  destruct (str_digits_value N) as [D V].
  now rewrite (filter_all isdigit (str n) (decimal_isdigit _ D)), V.
Qed.

Lemma session_id_round_trip_witness :
  parse_timepoint_info ("sub-001_tp9" ++ "_ses-" ++ str 2%Z)
  = Ok ("sub-001_tp9", Some ("ses-" ++ str 2%Z), Some 2%Z).
Proof. apply (@session_id_round_trip "sub-001_tp9" 2%Z); [lia|reflexivity]. Defined.

Lemma is_decimal_digit_val (c : ascii) :
  is_decimal c = true -> (0 <= digit_val c <= 9)%Z.
Proof.
  unfold is_decimal, digit_val. intros H. apply andb_prop in H as [H1 H2].
  apply N.leb_le in H1, H2. lia.
Qed.

Lemma decimal_value_nonneg (s : string) (acc : Z) :
  all_chars is_decimal s = true -> (0 <= acc)%Z -> (0 <= decimal_value acc s)%Z.
Proof.
  revert acc. induction s as [|c s IH]; intros acc H A; [exact A|].
  cbn [all_chars] in H. apply andb_prop in H as [Hc Hs].
  cbn [decimal_value]. apply IH; [exact Hs|].
  pose proof (is_decimal_digit_val c Hc). lia.
Qed.

(** X3.  The ordinal read after [_ses-] is never negative: a sign in front of
    the digits is not a digit and is dropped with the other characters. *)
Theorem session_ordinal_nonnegative (s base : string) (label : option string) (n : Z) :
  contains "_ses-" s = true ->
  parse_timepoint_info s = Ok (base, label, Some n) ->
  (0 <= n)%Z.
Proof.
  intros C. rewrite parse_timepoint_info_resolution. unfold resolution.
  apply contains_find in C as (l & t & ->). intros H. inversion H as [[Hb Hl Hn]].
  unfold digits_value in Hn.
  destruct (filter_chars isdigit (first_segment "_ses-" t)) as [|c r] eqn:E;
    [discriminate|].
  destruct (all_chars is_decimal (String c r)) eqn:D; [|discriminate].
  assert (N : n = decimal_value 0 (String c r)) by congruence.
  rewrite N. apply decimal_value_nonneg; [exact D|lia].
Qed.

Lemma session_ordinal_nonnegative_witness :
  contains "_ses-" "sub-001_ses--3" = true /\
  parse_timepoint_info "sub-001_ses--3" = Ok ("sub-001", Some "ses--3", Some 3%Z) /\
  (0 <= 3)%Z.
Proof.
  split; [reflexivity|]. split; [reflexivity|].
  apply (session_ordinal_nonnegative "sub-001_ses--3" (base := "sub-001")
           (label := Some "ses--3")); reflexivity.
Defined.

(** After [_tp] the sign is read: the ordinal can be negative. *)
Example timepoint_ordinal_negative :
  parse_timepoint_info "sub-001_tp-3" = Ok ("sub-001", Some "tp-3", Some (-3)%Z).
Proof. reflexivity. Qed.

Lemma prefix_refl (a : string) : prefix a a = true.
Proof. induction a as [|c a IH]; simpl; [reflexivity|]. now destruct (ascii_dec c c). Qed.

Lemma find_left_free (sep s l t : string) :
  sep <> "" -> find sep s = Some (l, t) -> contains sep l = false.
Proof.
  intros NE F. destruct (contains sep l) eqn:C; [|reflexivity].
  apply contains_find in C as (a & c & Fl). apply find_split in Fl.
  assert (N2 : sep ++ c <> "") by (destruct sep; [congruence|discriminate]).
  pose proof (@find_first sep s l t F a (sep ++ c) Fl N2) as P.
  rewrite app_assoc_str, prefix_app in P. discriminate.
Qed.

(** X4.  The base subject is always the start of the raw id, and it never
    contains the marker the id was split at: no [_ses-] when the id has
    one, no [_tp] otherwise.  Without a label there is no ordinal and the
    base is the whole id. *)
Theorem base_subject_shape (s base : string) (label : option string)
  (ordinal : option Z) :
  parse_timepoint_info s = Ok (base, label, ordinal) ->
  prefix base s = true /\
  (contains "_ses-" s = true -> contains "_ses-" base = false) /\
  (contains "_ses-" s = false -> contains "_tp" base = false) /\
  (label = None -> base = s /\ ordinal = None).
Proof.
  rewrite parse_timepoint_info_resolution. unfold resolution.
  destruct (find "_ses-" s) as [[l t]|] eqn:Fs.
  - intros H. inversion H; subst. pose proof (find_split _ _ Fs) as E.
    assert (Cs : contains "_ses-" s = true) by (apply contains_find; eauto).
    rewrite Cs.
    repeat split; try discriminate.
    + rewrite E. apply prefix_app.
    + intros _. eapply find_left_free; eauto. discriminate.
  - assert (Cs : contains "_ses-" s = false) by now apply contains_false_find.
    rewrite Cs.
    destruct (find "_tp" s) as [[l t]|] eqn:Ft.
    + assert (B : contains "_tp" l = false)
        by (eapply find_left_free; eauto; discriminate).
      destruct (int (first_segment "_tp" t)); intros H; inversion H; subst;
        pose proof (find_split _ _ Ft) as E;
        (repeat split; try discriminate; auto; rewrite E; apply prefix_app).
    + intros H. inversion H; subst.
      repeat split; try discriminate; auto using prefix_refl.
      intros _. now apply contains_false_find.
Qed.

Lemma base_subject_shape_witness :
  prefix "sub-001" "sub-001_ses-02" = true /\
  (contains "_ses-" "sub-001_ses-02" = true -> contains "_ses-" "sub-001" = false) /\
  (contains "_ses-" "sub-001_ses-02" = false -> contains "_tp" "sub-001" = false) /\
  (Some "ses-02" = None -> "sub-001" = "sub-001_ses-02" /\ Some 2%Z = None).
Proof.
  apply (base_subject_shape "sub-001_ses-02" (base := "sub-001")
           (label := Some "ses-02") (ordinal := Some 2%Z)).
  reflexivity.
Defined.

End IdRoundTrip.

(** ** The stats files *)

Module TextFacts.

Import PyText.
Open Scope string_scope.

Lemma append_nil_r (s : string) : s ++ "" = s.
Proof. induction s; simpl; congruence. Qed.

Lemma append_assoc (a b c : string) : (a ++ b) ++ c = a ++ b ++ c.
Proof. induction a; simpl; congruence. Qed.

Lemma split_go_head (s cur : string) :
  cur <> "" -> exists w rest, split_go cur s = (cur ++ w) :: rest.
Proof.
  revert cur. induction s as [|c r IH]; intros cur NE; simpl.
  - exists "", []. rewrite append_nil_r. now destruct cur.
  - destruct (isspace c).
    + exists "", (split_go "" r). rewrite append_nil_r. now destruct cur.
    + destruct (IH (cur ++ String c "")) as (w & rest & E).
      { destruct cur; [congruence|discriminate]. }
      exists (String c w), rest. rewrite E, append_assoc. reflexivity.
Qed.

Lemma split_lstrip (s : string) : split (lstrip s) = split s.
Proof.
  unfold split. induction s as [|c r IH]; [reflexivity|].
  simpl. destruct (isspace c) eqn:E; [exact IH|].
  simpl. now rewrite E.
Qed.

Lemma split_rstrip (s cur : string) : split_go cur (rstrip s) = split_go cur s.
Proof.
  revert cur. induction s as [|c r IH]; intros cur; [reflexivity|].
  cbn [rstrip]. destruct (rstrip r) as [|c' r'] eqn:R.
  - destruct (isspace c) eqn:E; cbn [split_go]; rewrite E.
    + pose proof (IH "") as I0. cbn [split_go] in I0. rewrite <- I0.
      now destruct cur.
    + rewrite <- IH. reflexivity.
  - cbn [split_go]. destruct (isspace c); rewrite <- IH; reflexivity.
Qed.

Lemma split_strip (s : string) : split (strip s) = split s.
Proof. unfold strip, split. rewrite split_rstrip. apply split_lstrip. Qed.

Lemma lstrip_cases (s : string) :
  (lstrip s = "" /\ split s = []) \/
  (exists c r, lstrip s = String c r /\ isspace c = false /\
               split s = split_go (String c "") r).
Proof.
  induction s as [|c r IH]; [now left|].
  cbn [lstrip]. destruct (isspace c) eqn:E.
  - destruct IH as [[L S]|(c' & r' & L & Sp & S)].
    + left. split; [exact L|]. unfold split in *. cbn [split_go]. now rewrite E.
    + right. exists c', r'. repeat split; auto.
      unfold split in *. cbn [split_go]. now rewrite E.
  - right. exists c, r. repeat split; auto.
    unfold split. cbn [split_go]. now rewrite E.
Qed.

Lemma rstrip_head (c : ascii) (r : string) :
  isspace c = false -> exists r', rstrip (String c r) = String c r'.
Proof. intros E. cbn [rstrip]. destruct (rstrip r); rewrite ?E; eauto. Qed.

Lemma startswith_hash (c : ascii) (r r' : string) :
  startswith "#" (String c r) = startswith "#" (String c r').
Proof.
  unfold startswith. cbn [prefix].
  destruct (ascii_dec "#" c); [now destruct r, r'|reflexivity].
Qed.

(** How the two tests on the stripped line read on the fields. *)
Lemma line_kind (line : string) :
  startswith "#" (strip line) || String.eqb (strip line) "" =
  match split line with
  | [] => true
  | p0 :: _ => startswith "#" p0
  end.
Proof.
  unfold strip.
  destruct (lstrip_cases line) as [[L S]|(c & r & L & Sp & S)]; rewrite L, S.
  - reflexivity.
  - destruct (@rstrip_head c r Sp) as (r' & ->).
    destruct (@split_go_head r (String c "")) as (w & rest & ->); [discriminate|].
    cbn [append String.eqb]. rewrite orb_false_r. apply startswith_hash.
Qed.

Lemma strip_empty (line : string) : strip line = "" -> split line = [].
Proof. intros E. rewrite <- split_strip, E. reflexivity. Qed.

End TextFacts.

Module DictFacts.

Section Dict.

Variable V : Type.

Implicit Types d : list (string * V).

Lemma dict_get_set_same (k : string) (v : V) d :
  dict_get k (dict_set k v d) = Some v.
Proof.
  induction d as [|[k' v'] d IH]; simpl.
  - now rewrite String.eqb_refl.
  - destruct (String.eqb k k') eqn:E; simpl; rewrite ?String.eqb_refl, ?E; auto.
Qed.

Lemma dict_get_set_other (k k' : string) (v : V) d :
  k' <> k -> dict_get k' (dict_set k v d) = dict_get k' d.
Proof.
  intros NE. induction d as [|[k0 v0] d IH]; simpl.
  - apply String.eqb_neq in NE. now rewrite NE.
  - destruct (String.eqb k k0) eqn:E; simpl.
    + apply String.eqb_eq in E. subst k0.
      apply String.eqb_neq in NE. now rewrite NE.
    + now rewrite IH.
Qed.

Lemma dict_set_keys (k k' : string) (v : V) d :
  In k' (map fst (dict_set k v d)) <-> k' = k \/ In k' (map fst d).
Proof.
  induction d as [|[k0 v0] d IH]; simpl.
  - intuition.
  - destruct (String.eqb k k0) eqn:E; simpl.
    + apply String.eqb_eq in E. subst k0. intuition.
    + rewrite IH. intuition.
Qed.

Lemma dict_set_NoDup (k : string) (v : V) d :
  NoDup (map fst d) -> NoDup (map fst (dict_set k v d)).
Proof.
  induction d as [|[k0 v0] d IH]; simpl; intros N.
  - constructor; [intros []|constructor].
  - inversion N as [|? ? NI N']; subst.
    destruct (String.eqb k k0) eqn:E; simpl.
    + apply String.eqb_eq in E. subst k0. now constructor.
    + constructor; [|auto]. rewrite dict_set_keys. intros [->|I]; [|auto].
      rewrite String.eqb_refl in E. discriminate.
Qed.

Lemma dict_get_In (k : string) (v : V) d :
  dict_get k d = Some v -> In (k, v) d.
Proof.
  induction d as [|[k0 v0] d IH]; simpl; [discriminate|].
  destruct (String.eqb k k0) eqn:E; [|auto].
  apply String.eqb_eq in E. subst. intros H. inversion H. now left.
Qed.

Lemma In_dict_get (k : string) (v : V) d :
  NoDup (map fst d) -> In (k, v) d -> dict_get k d = Some v.
Proof.
  induction d as [|[k0 v0] d IH]; simpl; [intros _ []|].
  intros N I. inversion N as [|? ? NI N']; subst.
  destruct I as [I|I].
  - inversion I; subst. now rewrite String.eqb_refl.
  - destruct (String.eqb k k0) eqn:E; [|auto].
    apply String.eqb_eq in E. subst k0. exfalso. apply NI.
    apply (in_map fst) in I. exact I.
Qed.

(** The loop over the lines, for a body that stores what [item] gives. *)
Variable item : string -> option (string * V).

Local Abbreviation stored := (stored item).

Lemma for_lines_stored (body : list (string * V) -> string -> result (list (string * V)))
  (lines : list string) d :
  (forall d line, body d line = Ok (put (item line) d)) ->
  for_lines body d lines = Ok (stored d lines).
Proof.
  intros B. revert d. induction lines as [|l ls IH]; intros d; [reflexivity|].
  simpl. rewrite B. simpl. apply IH.
Qed.

Lemma put_NoDup (l : string) d :
  NoDup (map fst d) -> NoDup (map fst (put (item l) d)).
Proof. unfold put. destruct (item l) as [[k v]|]; auto using dict_set_NoDup. Qed.

Lemma stored_NoDup (lines : list string) d :
  NoDup (map fst d) -> NoDup (map fst (stored d lines)).
Proof.
  revert d. induction lines as [|l ls IH]; intros d N; [exact N|].
  simpl. apply IH, put_NoDup, N.
Qed.

Lemma put_other (l k : string) d :
  (forall v, item l <> Some (k, v)) -> dict_get k (put (item l) d) = dict_get k d.
Proof.
  unfold put. intros H. destruct (item l) as [[k' v']|]; [|reflexivity].
  apply dict_get_set_other. intros ->. now apply (H v').
Qed.

Lemma stored_lookup (lines : list string) (k : string) (v : V) d :
  dict_get k (stored d lines) = Some v <->
  (exists before line after,
      lines = before ++ line :: after /\ item line = Some (k, v) /\
      forall l, In l after -> forall v', item l <> Some (k, v')) \/
  (dict_get k d = Some v /\ forall l, In l lines -> forall v', item l <> Some (k, v')).
Proof.
  revert d. induction lines as [|l ls IH]; intros d.
  - simpl. split.
    + intros H. right. split; [exact H|intros _ []].
    + intros [(b & line & a & E & _)|[H _]]; [|exact H]. now destruct b.
  - change (stored d (l :: ls)) with (stored (put (item l) d) ls).
    rewrite IH. split.
    + intros [(b & line & a & E & I & N)|[G N]].
      * left. exists (l :: b), line, a. subst ls. auto.
      * destruct (item l) as [[k0 v0]|] eqn:I.
        -- destruct (string_dec k0 k) as [->|NE].
           ++ unfold put in G. rewrite dict_get_set_same in G. inversion G; subst v0.
              left. exists [], l, ls. auto.
           ++ right. unfold put in G. rewrite dict_get_set_other in G by congruence.
              split; [exact G|]. intros l' [<-|I'] v'; [congruence|now apply N].
        -- right. split; [exact G|]. intros l' [<-|I'] v'; [congruence|now apply N].
    + intros [(b & line & a & E & I & N)|[G N]].
      * destruct b as [|l0 b]; simpl in E; inversion E; subst.
        -- right. split; [|exact N]. unfold put. rewrite I. apply dict_get_set_same.
        -- left. exists b, line, a. auto.
      * right. split.
        -- rewrite put_other; [exact G|]. intros v'. apply N. now left.
        -- intros l' I'. apply N. now right.
Qed.

Lemma stored_skip (before after : list string) (line : string) d :
  item line = None ->
  stored d (before ++ line :: after) = stored d (before ++ after).
Proof.
  intros I. unfold stored. rewrite !fold_left_app. simpl. now rewrite I.
Qed.

End Dict.

End DictFacts.

Module StatsParsers.

Import TextFacts DictFacts.
Local Open Scope list_scope.

Section WithParser.

Context {T : Type} {P : FloatParser T}.

Lemma aseg_line_fields (d : list (string * T)) (line : string) :
  aseg_line d line = Ok (put (aseg_fields (PyText.split line)) d).
Proof.
  unfold aseg_line. rewrite line_kind, split_strip.
  destruct (PyText.split line) as [|p0 [|p1 [|p2 [|p3 [|p4 more]]]]];
    try reflexivity; cbn [aseg_fields];
    destruct (PyText.startswith "#" p0); try reflexivity.
  cbn. unfold py_float. destruct (float_of_str p3); reflexivity.
Qed.

Lemma aparc_line_fields (d : list (string * Aparc T)) (line : string) :
  aparc_line d line = Ok (put (aparc_fields (PyText.split line)) d).
Proof.
  unfold aparc_line. rewrite line_kind, split_strip.
  destruct (PyText.split line) as [|p0 [|p1 [|p2 [|p3 [|p4 more]]]]];
    try reflexivity; cbn [aparc_fields];
    destruct (PyText.startswith "#" p0); try reflexivity.
  cbn. unfold py_float.
  destruct (float_of_str p2); [|reflexivity]. cbn.
  destruct (float_of_str p3); [|reflexivity]. cbn.
  destruct (float_of_str p4); reflexivity.
Qed.

Lemma parse_aseg_stats_stored (lines : list string) :
  parse_aseg_stats lines
  = Ok (stored (fun line => aseg_fields (PyText.split line)) [] lines).
Proof. apply for_lines_stored. intros. apply aseg_line_fields. Qed.

Lemma parse_aparc_stats_stored (lines : list string) :
  parse_aparc_stats lines
  = Ok (stored (fun line => aparc_fields (PyText.split line)) [] lines).
Proof. apply for_lines_stored. intros. apply aparc_line_fields. Qed.

Lemma aseg_sets_fields (line k : string) (v : T) :
  aseg_sets line k v <-> aseg_fields (PyText.split line) = Some (k, v).
Proof.
  unfold aseg_sets. split.
  - intros (p0 & p1 & p2 & p3 & more & -> & H & F). cbn [aseg_fields].
    now rewrite H, F.
  - destruct (PyText.split line) as [|p0 [|p1 [|p2 [|p3 [|p4 more]]]]];
      cbn [aseg_fields]; try discriminate.
    destruct (PyText.startswith "#" p0) eqn:H; [discriminate|].
    destruct (float_of_str p3) eqn:F; [|discriminate].
    intros E. inversion E; subst. exists p0, p1, p2, p3, more. auto.
Qed.

Lemma aparc_sets_fields (line region : string) (m : Aparc T) :
  aparc_sets line region m <-> aparc_fields (PyText.split line) = Some (region, m).
Proof.
  unfold aparc_sets. split.
  - intros (p1 & p2 & p3 & p4 & more & -> & H & F2 & F3 & F4). cbn [aparc_fields].
    rewrite H, F2, F3, F4. now destruct m.
  - destruct (PyText.split line) as [|p0 [|p1 [|p2 [|p3 [|p4 more]]]]];
      cbn [aparc_fields]; try discriminate.
    destruct (PyText.startswith "#" p0) eqn:H; [discriminate|].
    destruct (float_of_str p2) eqn:F2; [|discriminate].
    destruct (float_of_str p3) eqn:F3; [|discriminate].
    destruct (float_of_str p4) eqn:F4; [|discriminate].
    intros E. inversion E; subst. exists p1, p2, p3, p4, more. cbn. auto.
Qed.

Lemma no_data_line_first (line : string) :
  no_data_line line ->
  match PyText.split line with
  | p0 :: _ :: _ :: _ :: _ :: _ => PyText.startswith "#" p0 = true
  | _ => True
  end.
Proof.
  intros [H|[H|H]].
  - pose proof (line_kind line) as K. rewrite H in K. cbn [orb] in K.
    destruct (PyText.split line) as [|p0 [|p1 [|p2 [|p3 [|p4 more]]]]]; auto.
  - now rewrite (strip_empty line H).
  - destruct (PyText.split line) as [|p0 [|p1 [|p2 [|p3 [|p4 more]]]]]; auto.
    simpl in H. lia.
Qed.

Lemma aseg_ignored (line : string) :
  no_data_line line \/ bad_number line 3 ->
  aseg_fields (PyText.split line) = None.
Proof.
  intros [H|H].
  - apply no_data_line_first in H.
    destruct (PyText.split line) as [|p0 [|p1 [|p2 [|p3 [|p4 more]]]]];
      try reflexivity.
    cbn [aseg_fields]. now rewrite H.
  - unfold bad_number in H. revert H.
    destruct (PyText.split line) as [|p0 [|p1 [|p2 [|p3 [|p4 more]]]]];
      try reflexivity.
    intros (p & N & F). cbn [aseg_fields]. simpl in N. inversion N; subst.
    rewrite F. now destruct (PyText.startswith "#" p0).
Qed.

Lemma aparc_ignored (line : string) :
  no_data_line line \/ bad_number line 2 \/ bad_number line 3 \/ bad_number line 4 ->
  aparc_fields (PyText.split line) = None.
Proof.
  intros [H|H].
  - apply no_data_line_first in H.
    destruct (PyText.split line) as [|p0 [|p1 [|p2 [|p3 [|p4 more]]]]];
      try reflexivity.
    cbn [aparc_fields]. now rewrite H.
  - unfold bad_number in H. revert H.
    destruct (PyText.split line) as [|p0 [|p1 [|p2 [|p3 [|p4 more]]]]];
      try reflexivity.
    intros H. cbn [aparc_fields].
    destruct (PyText.startswith "#" p0); [reflexivity|].
    destruct H as [(p & N & F)|[(p & N & F)|(p & N & F)]];
      simpl in N; inversion N; subst; rewrite F;
      repeat match goal with |- context [float_of_str ?x] =>
               destruct (float_of_str x) end; reflexivity.
Qed.

Lemma stored_fields {V : Type} (f : list string -> option (string * V))
  (ls ls' : list string) (d : list (string * V)) :
  map PyText.split ls = map PyText.split ls' ->
  stored (fun line => f (PyText.split line)) d ls
  = stored (fun line => f (PyText.split line)) d ls'.
Proof.
  revert ls' d. induction ls as [|l ls IH]; intros [|l' ls'] d E;
    try discriminate; [reflexivity|].
  simpl in E. inversion E as [[E1 E2]]. unfold stored. simpl. rewrite E1.
  apply IH, E2.
Qed.

(** X5.  [parse_aseg_stats] returns for every text, and the dict it returns
    maps [k] to [v] exactly when the last line that stores a volume for [k]
    stores [v]: a later line for the same structure replaces the value. *)
Theorem aseg_last_line_wins (lines : list string) :
  exists volumes,
    parse_aseg_stats lines = Ok volumes /\
    forall k v,
      dict_get k volumes = Some v <->
      exists before line after,
        lines = before ++ line :: after /\ aseg_sets line k v /\
        forall l, In l after -> forall v', ~ aseg_sets l k v'.
Proof.
  eexists. split; [apply parse_aseg_stats_stored|]. intros k v.
  rewrite stored_lookup. split.
  - intros [(b & line & a & E & I & N)|[G _]]; [|discriminate].
    exists b, line, a. repeat split; auto.
    + now apply aseg_sets_fields.
    + intros l Il v' S. apply aseg_sets_fields in S. exact (N l Il v' S).
  - intros (b & line & a & E & I & N). left. exists b, line, a.
    repeat split; auto.
    + now apply aseg_sets_fields.
    + intros l Il v' S. apply (N l Il v'). now apply aseg_sets_fields.
Qed.

(** X6.  [parse_aparc_stats] returns for every text, and the dict it returns
    maps a region to the three numbers of the last line that stores them
    for it: the third, fourth and fifth fields of that line. *)
Theorem aparc_last_line_wins (lines : list string) :
  exists stats,
    parse_aparc_stats lines = Ok stats /\
    forall region m,
      dict_get region stats = Some m <->
      exists before line after,
        lines = before ++ line :: after /\ aparc_sets line region m /\
        forall l, In l after -> forall m', ~ aparc_sets l region m'.
Proof.
  eexists. split; [apply parse_aparc_stats_stored|]. intros k v.
  rewrite stored_lookup. split.
  - intros [(b & line & a & E & I & N)|[G _]]; [|discriminate].
    exists b, line, a. repeat split; auto.
    + now apply aparc_sets_fields.
    + intros l Il v' S. apply aparc_sets_fields in S. exact (N l Il v' S).
  - intros (b & line & a & E & I & N). left. exists b, line, a.
    repeat split; auto.
    + now apply aparc_sets_fields.
    + intros l Il v' S. apply (N l Il v'). now apply aparc_sets_fields.
Qed.

(** X7.  A comment line, a blank line, a line with fewer than five fields and a
    line whose fourth field is not a number leave the result of
    [parse_aseg_stats] as it is without them. *)
Theorem aseg_ignored_lines (before after : list string) (line : string) :
  no_data_line line \/ bad_number line 3 ->
  parse_aseg_stats (before ++ line :: after) = parse_aseg_stats (before ++ after).
Proof.
  intros H. rewrite !parse_aseg_stats_stored. f_equal.
  apply stored_skip. now apply aseg_ignored.
Qed.

(** X8.  [parse_aparc_stats] drops a line as a whole when its third, fourth or
    fifth field is not a number, as it drops comment lines, blank lines and
    lines with fewer than five fields. *)
Theorem aparc_ignored_lines (before after : list string) (line : string) :
  no_data_line line \/ bad_number line 2 \/ bad_number line 3 \/ bad_number line 4 ->
  parse_aparc_stats (before ++ line :: after) = parse_aparc_stats (before ++ after).
Proof.
  intros H. rewrite !parse_aparc_stats_stored. f_equal.
  apply stored_skip. now apply aparc_ignored.
Qed.

(** X9.  The two parsers read a file through the fields of its lines only: two
    texts whose lines have the same white-space separated fields give the
    same dicts, whatever the indentation, the spacing and the line ends. *)
Theorem stats_fields_only (lines lines' : list string) :
  map PyText.split lines = map PyText.split lines' ->
  parse_aseg_stats lines = parse_aseg_stats lines' /\
  parse_aparc_stats lines = parse_aparc_stats lines'.
Proof.
  intros E. rewrite !parse_aseg_stats_stored, !parse_aparc_stats_stored.
  split; f_equal; now apply stored_fields.
Qed.

End WithParser.

Lemma aseg_ignored_lines_witness :
  parse_aseg_stats
    (["  2  17  4100  4100  Left-Hippocampus  60 8"%string]
       ++ "  3  18  n/a  n/a  Left-Amygdala  60 8"%string :: [" 4 53"%string])
  = parse_aseg_stats
      (["  2  17  4100  4100  Left-Hippocampus  60 8"%string] ++ [" 4 53"%string]).
Proof.
  apply (@aseg_ignored_lines float digits_parser).
  right. exists "n/a"%string. split; vm_compute; reflexivity.
Defined.

Lemma aparc_ignored_lines_witness :
  parse_aparc_stats
    ([] ++ "bankssts  1200  n/a  2100  3  0"%string
        :: ["cuneus  1500  900  2500  2  0"%string])
  = parse_aparc_stats ([] ++ ["cuneus  1500  900  2500  2  0"%string]).
Proof.
  apply (@aparc_ignored_lines float digits_parser).
  right. left. exists "n/a"%string. split; vm_compute; reflexivity.
Defined.

Lemma stats_fields_only_witness :
  parse_aseg_stats ["  2  17  4100  4100  Left-Hippocampus  60 8"%string]
  = parse_aseg_stats ["2 17 4100 4100 Left-Hippocampus 60 8  "%string] /\
  parse_aparc_stats ["  2  17  4100  4100  Left-Hippocampus  60 8"%string]
  = parse_aparc_stats ["2 17 4100 4100 Left-Hippocampus 60 8  "%string].
Proof.
  apply (@stats_fields_only float digits_parser). vm_compute. reflexivity.
Defined.

End StatsParsers.

(** ** The loader *)

Module Loader.

Import PyStrFacts Resolver LoopFacts TextFacts DictFacts StatsParsers.
Local Open Scope list_scope.

Lemma for_each_app {A B : Type} (body : A -> result (list B)) (xs ys : list A) :
  for_each body (xs ++ ys) =
  (ra <- for_each body xs ;; rb <- for_each body ys ;; Ok (ra ++ rb)).
Proof.
  induction xs as [|x xs IH]; simpl.
  - destruct (for_each body ys); reflexivity.
  - destruct (body x) as [rs|e]; [|reflexivity]. simpl. rewrite IH.
    destruct (for_each body xs) as [ra|e]; [|reflexivity]. simpl.
    destruct (for_each body ys) as [rb|e]; [|reflexivity]. simpl.
    now rewrite app_assoc.
Qed.

Lemma for_each_Ok_inv {A B : Type} (body : A -> result (list B)) (xs : list A)
  (rows : list B) (x : A) :
  for_each body xs = Ok rows -> In x xs ->
  exists rs, body x = Ok rs /\ incl rs rows.
Proof.
  revert rows. induction xs as [|y xs IH]; simpl; intros rows H I; [destruct I|].
  destruct (body y) as [rs|e] eqn:Ey; [|discriminate]. simpl in H.
  destruct (for_each body xs) as [more|e]; [|discriminate]. simpl in H.
  inversion H; subst. destruct I as [->|I].
  - exists rs. split; [exact Ey|]. now apply incl_appl.
  - destruct (IH more eq_refl I) as (rs' & E & S). exists rs'. split; [exact E|].
    now apply incl_appr.
Qed.

Lemma for_each_returns {A B : Type} (body : A -> result (list B)) (xs : list A) :
  (forall x, In x xs -> exists rs, body x = Ok rs) ->
  exists rows, for_each body xs = Ok rows.
Proof.
  induction xs as [|x xs IH]; simpl; intros H; [eauto|].
  destruct (H x) as [rs ->]; [now left|]. simpl.
  destruct IH as [more ->]; [intros y I; apply H; now right|]. simpl. eauto.
Qed.

Section WithParser.

Context {T : Type} {P : FloatParser T}.

Lemma aseg_dict_NoDup (lines : option (list string)) : NoDup (map fst (aseg_dict lines)).
Proof. destruct lines; simpl; [apply stored_NoDup|]; constructor. Qed.

Lemma aparc_dict_NoDup (lines : option (list string)) : NoDup (map fst (aparc_dict lines)).
Proof. destruct lines; simpl; [apply stored_NoDup|]; constructor. Qed.

Lemma entry_rows_skip (e : DirEntry) :
  entry_is_dir e = false \/ PyStr.contains ".long." (entry_name e) = false ->
  entry_rows e = Ok [].
Proof.
  unfold entry_rows. intros [H|H].
  - now rewrite H.
  - rewrite H. now destruct (entry_is_dir e).
Qed.

Lemma entry_rows_eq (e : DirEntry) (l t : string) :
  entry_is_dir e = true ->
  PyStr.find ".long." (entry_name e) = Some (l, t) ->
  entry_rows e =
  Ok (volume_rows (first_segment ".long." t) l
        (snd (fst (resolution l))) (snd (resolution l)) (aseg_dict (aseg_stats e))
      ++ thickness_rows "lh" (first_segment ".long." t) l
        (snd (fst (resolution l))) (snd (resolution l)) (aparc_dict (lh_aparc_stats e))
      ++ thickness_rows "rh" (first_segment ".long." t) l
        (snd (fst (resolution l))) (snd (resolution l)) (aparc_dict (rh_aparc_stats e))).
Proof.
  intros D F. unfold entry_rows. rewrite D.
  assert (C : PyStr.contains ".long." (entry_name e) = true)
    by (apply contains_find; eauto).
  rewrite C. cbn [negb].
  destruct (@first_segment_split ".long." (entry_name e) l t) as [rest ->];
    [discriminate|exact F|].
  unfold getitem at 1 2. cbn [nth_error bind].
  rewrite parse_timepoint_info_resolution. cbn [bind].
  destruct (resolution l) as [[b ses] tp]. cbn [fst snd].
  destruct (aseg_stats e) as [la|]; cbn [aseg_dict];
    [rewrite parse_aseg_stats_stored|]; cbn [bind];
  (destruct (lh_aparc_stats e) as [ll|]; cbn [aparc_dict];
    [rewrite parse_aparc_stats_stored|]; cbn [bind]);
  (destruct (rh_aparc_stats e) as [lr|]; cbn [aparc_dict];
    [rewrite parse_aparc_stats_stored|]; cbn [bind]); reflexivity.
Qed.

Lemma entry_rows_returns (e : DirEntry) : exists rows, entry_rows e = Ok rows.
Proof.
  destruct (entry_is_dir e) eqn:D; [|rewrite entry_rows_skip; eauto].
  destruct (PyStr.contains ".long." (entry_name e)) eqn:C;
    [|rewrite entry_rows_skip; eauto].
  apply contains_find in C as (l & t & F). rewrite (entry_rows_eq e D F). eauto.
Qed.

Lemma entry_rows_empty (e : DirEntry) :
  entry_is_dir e = false \/ PyStr.contains ".long." (entry_name e) = false \/
  (aseg_stats e = None /\ lh_aparc_stats e = None /\ rh_aparc_stats e = None) ->
  entry_rows e = Ok [].
Proof.
  intros [H|[H|(H1 & H2 & H3)]]; try (apply entry_rows_skip; now auto).
  destruct (entry_is_dir e) eqn:D; [|apply entry_rows_skip; auto].
  destruct (PyStr.contains ".long." (entry_name e)) eqn:C;
    [|apply entry_rows_skip; auto].
  apply contains_find in C as (l & t & F). rewrite (entry_rows_eq e D F).
  now rewrite H1, H2, H3.
Qed.

(** X10.  [load_longitudinal_stats] either returns a table with at least one row
    or raises [KeyError], which it does exactly when no entry of the listing
    contributes a row: it never returns an empty table, and nothing in a
    stats file or a directory name makes it raise otherwise. *)
Theorem loader_outcome (entries : list DirEntry) :
  (exists df, load_longitudinal_stats entries = Ok df /\ df <> []) \/
  (load_longitudinal_stats entries = Raise KeyError /\
   forall e, In e entries -> entry_rows e = Ok []).
Proof.
  unfold load_longitudinal_stats.
  destruct (for_each_returns entry_rows entries) as [rows E].
  { intros e _. apply entry_rows_returns. }
  rewrite E. cbn [bind]. destruct rows as [|r rows].
  - right. split; [reflexivity|]. intros e I.
    destruct (@for_each_Ok_inv _ _ _ _ _ _ E I) as (rs & Er & S). rewrite Er.
    destruct rs as [|x rs]; [reflexivity|]. destruct (S x). now left.
  - left. eexists. split; [reflexivity|discriminate].
Qed.

(** X11.  An entry that is not a directory, an entry whose name does not contain
    [.long.], and a directory without any of the three stats files can be
    left out of the listing: the loader's result is the same. *)
Theorem skipped_entries (before after : list DirEntry) (e : DirEntry) :
  entry_is_dir e = false \/ PyStr.contains ".long." (entry_name e) = false \/
  (aseg_stats e = None /\ lh_aparc_stats e = None /\ rh_aparc_stats e = None) ->
  load_longitudinal_stats (before ++ e :: after)
  = load_longitudinal_stats (before ++ after).
Proof.
  intros H. unfold load_longitudinal_stats. rewrite !for_each_app.
  cbn [for_each]. rewrite (entry_rows_empty e H). cbn [bind].
  destruct (for_each entry_rows before) as [ra|]; [|reflexivity]. cbn [bind].
  destruct (for_each entry_rows after) as [rb|]; reflexivity.
Qed.

(** X12.  Every row of the loaded table is traced to one directory of the
    listing.  Its [timepoint_id] is the text of the directory name before
    the first [.long.] and its [base_subject] the text after it, up to the
    next [.long.]; [session] and [timepoint_num] are what the resolver
    returns for the [timepoint_id], whose base id is not used.  A volume row
    carries a structure and its value from the directory's [aseg.stats]; a
    thickness row carries the hemisphere, an underscore and a region, and
    that region's average thickness, from [lh.aparc.stats] or
    [rh.aparc.stats]. *)
Theorem loaded_row_origin (entries : list DirEntry) (df : list (Measurement T))
  (r : Measurement T) :
  load_longitudinal_stats entries = Ok df ->
  In r df ->
  exists e rest b,
    In e entries /\ entry_is_dir e = true /\
    PyStr.find ".long." (entry_name e) = Some (timepoint_id r, rest) /\
    base_subject r = first_segment ".long." rest /\
    parse_timepoint_info (timepoint_id r) = Ok (b, session r, timepoint_num r) /\
    ((measure_type r = "volume"%string /\
      exists lines volumes,
        aseg_stats e = Some lines /\ parse_aseg_stats lines = Ok volumes /\
        dict_get (structure r) volumes = Some (value r)) \/
     (measure_type r = "thickness"%string /\
      exists hemi lines stats region m,
        ((hemi = "lh"%string /\ lh_aparc_stats e = Some lines) \/
         (hemi = "rh"%string /\ rh_aparc_stats e = Some lines)) /\
        parse_aparc_stats lines = Ok stats /\
        dict_get region stats = Some m /\
        structure r = (hemi ++ "_" ++ region)%string /\
        value r = thickness_avg_mm m)).
Proof.
  unfold load_longitudinal_stats. intros H I.
  destruct (for_each entry_rows entries) as [rows|] eqn:E; [|discriminate].
  cbn [bind] in H. assert (rows = df) by (destruct rows; congruence). subst rows.
  destruct (@for_each_In _ _ _ _ _ _ E I) as (e & rs & Ie & Er & Ir).
  destruct (entry_is_dir e) eqn:D;
    [|rewrite entry_rows_skip in Er by auto;
      assert (rs = []) by congruence; subst rs; destruct Ir].
  destruct (PyStr.contains ".long." (entry_name e)) eqn:C;
    [|rewrite entry_rows_skip in Er by auto;
      assert (rs = []) by congruence; subst rs; destruct Ir].
  apply contains_find in C as (l & t & F). rewrite (entry_rows_eq e D F) in Er.
  assert (Ers : rs = volume_rows (first_segment ".long." t) l
        (snd (fst (resolution l))) (snd (resolution l)) (aseg_dict (aseg_stats e))
      ++ thickness_rows "lh" (first_segment ".long." t) l
        (snd (fst (resolution l))) (snd (resolution l)) (aparc_dict (lh_aparc_stats e))
      ++ thickness_rows "rh" (first_segment ".long." t) l
        (snd (fst (resolution l))) (snd (resolution l)) (aparc_dict (rh_aparc_stats e)))
    by congruence.
  clear Er. subst rs.
  assert (R : parse_timepoint_info l
              = Ok (fst (fst (resolution l)), snd (fst (resolution l)), snd (resolution l))).
  { rewrite parse_timepoint_info_resolution. now destruct (resolution l) as [[? ?] ?]. }
  exists e, t, (fst (fst (resolution l))).
  apply in_app_or in Ir as [Ir|Ir]; [|apply in_app_or in Ir as [Ir|Ir]].
  - unfold volume_rows in Ir. apply in_map_iff in Ir as ([k v] & <- & Ik).
    cbn [timepoint_id base_subject session timepoint_num measure_type structure
         value fst snd].
    repeat split; auto. left. split; [reflexivity|].
    destruct (aseg_stats e) as [lines|] eqn:A; [|destruct Ik].
    exists lines. eexists. split; [reflexivity|].
    split; [apply parse_aseg_stats_stored|].
    apply In_dict_get; [apply stored_NoDup; constructor|exact Ik].
  - unfold thickness_rows in Ir. apply in_map_iff in Ir as ([k v] & <- & Ik).
    cbn [timepoint_id base_subject session timepoint_num measure_type structure
         value fst snd].
    repeat split; auto. right. split; [reflexivity|].
    destruct (lh_aparc_stats e) as [lines|] eqn:A; [|destruct Ik].
    exists "lh"%string, lines. eexists. exists k, v.
    split; [left; auto|]. split; [apply parse_aparc_stats_stored|].
    split; [|split; reflexivity].
    apply In_dict_get; [apply stored_NoDup; constructor|exact Ik].
  - unfold thickness_rows in Ir. apply in_map_iff in Ir as ([k v] & <- & Ik).
    cbn [timepoint_id base_subject session timepoint_num measure_type structure
         value fst snd].
    repeat split; auto. right. split; [reflexivity|].
    destruct (rh_aparc_stats e) as [lines|] eqn:A; [|destruct Ik].
    exists "rh"%string, lines. eexists. exists k, v.
    split; [right; auto|]. split; [apply parse_aparc_stats_stored|].
    split; [|split; reflexivity].
    apply In_dict_get; [apply stored_NoDup; constructor|exact Ik].
Qed.

Lemma NoDup_map_inj {A B : Type} (f : A -> B) (l : list A) :
  (forall a b, f a = f b -> a = b) -> NoDup l -> NoDup (map f l).
Proof.
  intros Inj N. induction N as [|a l NI N IH]; simpl; constructor; auto.
  intros I. apply in_map_iff in I as (b & E & Ib). apply Inj in E. now subst.
Qed.

Lemma volume_rows_keys (base tp : string) (ses : option string) (num : option Z)
  (d : list (string * T)) :
  map (fun r => (measure_type r, structure r)) (volume_rows base tp ses num d)
  = map (fun k => ("volume"%string, k)) (map fst d).
Proof. unfold volume_rows. rewrite !map_map. reflexivity. Qed.

Lemma thickness_rows_keys (hemi base tp : string) (ses : option string)
  (num : option Z) (d : list (string * Aparc T)) :
  map (fun r => (measure_type r, structure r)) (thickness_rows hemi base tp ses num d)
  = map (fun k => ("thickness"%string, (hemi ++ "_" ++ k)%string)) (map fst d).
Proof. unfold thickness_rows. rewrite !map_map. reflexivity. Qed.

(** X13.  One directory contributes at most one row to each group: the rows
    [load_longitudinal_stats] appends for an entry differ pairwise in
    [measure_type] or in [structure]. *)
Theorem entry_rows_distinct (e : DirEntry) :
  exists rows,
    entry_rows e = Ok rows /\
    NoDup (map (fun r => (measure_type r, structure r)) rows).
Proof.
  destruct (entry_is_dir e) eqn:D;
    [|rewrite entry_rows_skip by auto; eexists; split; [reflexivity|constructor]].
  destruct (PyStr.contains ".long." (entry_name e)) eqn:C;
    [|rewrite entry_rows_skip by auto; eexists; split; [reflexivity|constructor]].
  apply contains_find in C as (l & t & F). rewrite (entry_rows_eq e D F).
  eexists. split; [reflexivity|].
  rewrite !map_app, volume_rows_keys, !thickness_rows_keys.
  pose proof (aseg_dict_NoDup (aseg_stats e)) as Na.
  pose proof (aparc_dict_NoDup (lh_aparc_stats e)) as Nl.
  pose proof (aparc_dict_NoDup (rh_aparc_stats e)) as Nr.
  apply NoDup_app.
  - apply NoDup_map_inj; [|exact Na]. intros a b E. now inversion E.
  - apply NoDup_app.
    + apply NoDup_map_inj; [|exact Nl]. intros a b E. now inversion E.
    + apply NoDup_map_inj; [|exact Nr]. intros a b E. now inversion E.
    + intros x I1 I2. apply in_map_iff in I1 as (a & <- & _).
      apply in_map_iff in I2 as (b & E & _). inversion E.
  - intros x I1 I2. apply in_map_iff in I1 as (a & <- & _).
    apply in_app_or in I2 as [I2|I2]; apply in_map_iff in I2 as (b & E & _);
      inversion E.
Qed.

End WithParser.

Lemma skipped_entries_witness :
  load_longitudinal_stats
    ([entry "sub-001_ses-01.long.sub-001" true (Some (aseg_sample "4100")) None None]
       ++ entry "README.txt" false None None None
       :: [entry "sub-001_ses-02.long.sub-001" true (Some (aseg_sample "4000")) None None])
  = load_longitudinal_stats
      ([entry "sub-001_ses-01.long.sub-001" true (Some (aseg_sample "4100")) None None]
         ++ [entry "sub-001_ses-02.long.sub-001" true (Some (aseg_sample "4000")) None None]).
Proof. apply (@skipped_entries float digits_parser). left. reflexivity. Defined.

Lemma loaded_row_origin_witness :
  exists e rest b,
    In e listing_sample /\ entry_is_dir e = true /\
    PyStr.find ".long." (entry_name e) = Some ("sub-001_ses-02"%string, rest) /\
    "sub-001"%string = first_segment ".long." rest /\
    parse_timepoint_info "sub-001_ses-02" = Ok (b, Some "ses-02"%string, Some 2%Z) /\
    (("thickness"%string = "volume"%string /\
      exists lines volumes,
        aseg_stats e = Some lines /\ parse_aseg_stats lines = Ok volumes /\
        dict_get "rh_bankssts" volumes = Some 3%float) \/
     ("thickness"%string = "thickness"%string /\
      exists hemi lines stats region m,
        ((hemi = "lh"%string /\ lh_aparc_stats e = Some lines) \/
         (hemi = "rh"%string /\ rh_aparc_stats e = Some lines)) /\
        parse_aparc_stats lines = Ok stats /\
        dict_get region stats = Some m /\
        "rh_bankssts"%string = (hemi ++ "_" ++ region)%string /\
        3%float = thickness_avg_mm m)).
Proof.
  apply (@loaded_row_origin float digits_parser listing_sample loaded_sample
           {| base_subject := "sub-001"; timepoint_id := "sub-001_ses-02";
              session := Some "ses-02"%string; timepoint_num := Some 2%Z;
              measure_type := "thickness"; structure := "rh_bankssts";
              value := 3%float |}).
  - vm_compute. reflexivity.
  - do 5 right. left. reflexivity.
Defined.

End Loader.


(** ** Shape of the two result tables *)

Module Shape.

Import SortFacts GroupFacts LoopFacts FitFacts Delta Trend.
Local Open Scope list_scope.

Lemma sorted_NoDup (ks : list key) : StronglySorted key_lt ks -> NoDup ks.
Proof.
  induction 1 as [|a l S IH F]; constructor; [|exact IH].
  intros I. rewrite Forall_forall in F. exact (@key_lt_irrefl a (F a I)).
Qed.

Section WithClasses.

Context {T : Type} {num : Num T} {tt : TTest T} {sorter : Sorter}.
Hypothesis sorter_ok : argsort_spec sorter.

Lemma slopes_row_exists (df : list (Measurement T)) (rows : list (TrendResult T))
  (k : key) :
  calculate_slopes df = Ok rows ->
  (2 <= List.length (filter valid (group_rows df k)))%nat ->
  exists row, In row rows /\ trend_key row = k.
Proof.
  intros H L.
  assert (H' : for_each (slope_rows_in (object_column df)) (groupby df) = Ok rows)
    by (destruct df; [discriminate|exact H]).
  destruct (filter valid (group_rows df k)) as [|r rs] eqn:F; [simpl in L; lia|].
  assert (Ir : In r (group_rows df k)).
  { assert (I : In r (filter valid (group_rows df k))) by (rewrite F; now left).
    now apply filter_In in I. }
  pose proof (groupby_In df k r Ir) as Ig.
  destruct (@Loader.for_each_Ok_inv _ _ _ _ _ _ H' Ig) as (out & E & S).
  rewrite slope_rows_in_eq in E.
  pose proof (filter_length_le valid (group_rows df k)) as Lg.
  rewrite F in Lg.
  destruct (Nat.ltb_spec (List.length (group_rows df k)) 2) as [Hlt|_]; [lia|].
  rewrite <- F, <- (surviving_length sorter_ok) in L.
  destruct (surviving (group_rows df k)) as [|r0 [|r1 rest]] eqn:Sv;
    simpl in L; try lia.
  destruct (linregress_on _ _ _) as [fit|e]; [|discriminate].
  cbn [bind] in E. inversion E; subst out. eexists. split.
  - apply S. now left.
  - apply trend_of_key.
Qed.

Lemma for_each_keys {A B : Type} (body : key * A -> result (list B))
  (key_out : B -> key) (xs : list (key * A)) (rows : list B) :
  (forall x rs, body x = Ok rs ->
     (List.length rs <= 1)%nat /\ forall r, In r rs -> key_out r = fst x) ->
  StronglySorted key_lt (map fst xs) ->
  for_each body xs = Ok rows ->
  StronglySorted key_lt (map key_out rows).
Proof.
  intros B1 S. revert rows. induction xs as [|x xs IH]; simpl; intros rows H.
  - inversion H. constructor.
  - destruct (body x) as [rs|e] eqn:Ex; [|discriminate]. cbn [bind] in H.
    destruct (for_each body xs) as [more|e] eqn:Em; [|discriminate].
    cbn [bind] in H. inversion H; subst rows. clear H.
    simpl in S. inversion S as [|? ? S' F]; subst.
    specialize (IH S' more eq_refl).
    destruct (B1 x rs Ex) as [L K].
    destruct rs as [|r [|r' rs]]; [exact IH| |simpl in L; lia].
    simpl. constructor; [exact IH|].
    apply Forall_forall. intros k' I. apply in_map_iff in I as (r' & <- & I).
    destruct (@for_each_In _ _ _ _ _ _ Em I) as (x' & rs' & Ix & Ex' & Ir).
    rewrite (K r) by now left.
    destruct (B1 x' rs' Ex') as [_ K']. rewrite (K' r' Ir).
    rewrite Forall_forall in F. apply F. now apply in_map.
Qed.

Lemma groupby_keys (df : list (Measurement T)) :
  map fst (groupby df) = group_keys df.
Proof. unfold groupby. rewrite map_map. simpl. apply map_id. Qed.

(** X14.  The trend table has at most one row for each group, and its rows come
    in strictly ascending order of (base_subject, measure_type, structure). *)
Theorem trend_rows_ascending (df : list (Measurement T)) (rows : list (TrendResult T)) :
  calculate_slopes df = Ok rows ->
  StronglySorted key_lt (map trend_key rows).
Proof.
  intros H.
  assert (H' : for_each (slope_rows_in (object_column df)) (groupby df) = Ok rows)
    by (destruct df; [discriminate|exact H]).
  apply (for_each_keys (slope_rows_in (object_column df)) trend_key (groupby df));
    [| |exact H'].
  - intros [k g] rs E. rewrite slope_rows_in_eq in E.
    destruct (List.length g <? 2)%nat;
      [inversion E; simpl; split; [lia|intros ? []]|].
    destruct (surviving g) as [|r0 [|r1 rest]];
      try (inversion E; simpl; split; [lia|intros ? []]).
    destruct (linregress_on _ _ _) as [fit|e]; [|discriminate].
    cbn [bind] in E. inversion E. simpl. split; [lia|].
    intros r [<-|[]]. apply trend_of_key.
  - rewrite groupby_keys. apply group_keys_sorted.
Qed.

(** X15.  A group has a row in the trend table exactly when at least two of its
    rows have a value that is not missing. *)
Theorem trend_row_iff (df : list (Measurement T)) (rows : list (TrendResult T))
  (k : key) :
  calculate_slopes df = Ok rows ->
  (exists row, In row rows /\ trend_key row = k) <->
  (2 <= List.length (filter valid (group_rows df k)))%nat.
Proof.
  intros H. split.
  - intros (row & I & K).
    destruct (@slopes_row_inv T num tt sorter df rows row H I) as (k' & r0 & r1 & rest & fit & _ & S & _ & ->).
    rewrite trend_of_key in K. subst k'.
    rewrite <- (surviving_length sorter_ok), S. simpl. lia.
  - now apply slopes_row_exists.
Qed.

Lemma wrap_int64_small (z : Z) :
  (- 2 ^ 63 <= z < 2 ^ 63)%Z -> wrap_int64 z = z.
Proof.
  intros H. unfold wrap_int64.
  change (2 ^ 63)%Z with 9223372036854775808%Z in *.
  change (2 ^ 64)%Z with 18446744073709551616%Z.
  rewrite Z.mod_small; lia.
Qed.

Lemma group_row_In (df : list (Measurement T)) (k : key) (r : Measurement T) :
  In r (surviving (group_rows df k)) -> In r df.
Proof.
  intros I. apply (surviving_In sorter_ok) in I as [I _].
  unfold group_rows in I. now apply filter_In in I.
Qed.

(** X16.  On a table whose ordinals are at most 2^52 in absolute value (so
    that the subtraction neither wraps in an int64 column nor rounds in a
    float64 one), [timepoint_span], when it is not missing, is positive: the
    first surviving ordinal is the smallest, the last one the largest, and a
    group whose ordinals are all equal has raised before. *)
Theorem timepoint_span_positive (df : list (Measurement T))
  (rows : list (TrendResult T)) (row : TrendResult T) (d : Z) :
  (forall r z, In r df -> timepoint_num r = Some z -> (Z.abs z <= 2 ^ 52)%Z) ->
  calculate_slopes df = Ok rows ->
  In row rows ->
  timepoint_span row = Some d ->
  (0 < d)%Z.
Proof.
  intros Small H I Sp.
  destruct (@slopes_row_inv T num tt sorter df rows row H I)
    as (k & r0 & r1 & rest & fit & _ & S & L & ->).
  cbn [trend_of timepoint_span] in Sp. unfold span in Sp.
  destruct (timepoint_num r0) as [a|] eqn:Ea; [|discriminate].
  destruct (timepoint_num (last (r1 :: rest) r0)) as [b|] eqn:Eb; [|discriminate].
  assert (Il : In (last (r1 :: rest) r0) (r1 :: rest))
    by (apply last_In; discriminate).
  assert (Ba : (Z.abs a <= 2 ^ 52)%Z).
  { apply (Small r0); [|exact Ea]. apply (group_row_In df k). rewrite S. now left. }
  assert (Bb : (Z.abs b <= 2 ^ 52)%Z).
  { apply (Small (last (r1 :: rest) r0)); [|exact Eb].
    apply (group_row_In df k). rewrite S. now right. }
  assert (d = b - a)%Z.
  { assert (E : Some (wrap_int64 (b - a)) = Some d) by exact Sp.
    inversion E as [E']. apply wrap_int64_small.
    change (2 ^ 52)%Z with 4503599627370496%Z in *.
    change (2 ^ 63)%Z with 9223372036854775808%Z. lia. }
  subst d.
  pose proof (surviving_ascending sorter_ok (group_rows df k)) as A. rewrite S in A.
  pose proof (sorted_last r0 A) as La. rewrite last_cons in La.
  rewrite Forall_forall in La.
  inversion A as [|? ? A' F0]; subst. rewrite Forall_forall in F0.
  pose proof (F0 _ Il) as Hab. unfold by_ordinal, ordinal_le in Hab.
  rewrite Ea, Eb in Hab.
  destruct (Z.eq_dec a b) as [->|NE]; [|lia]. exfalso.
  assert (Same : Forall (fun o => o = Some b)
                   (map (@timepoint_num T) (r0 :: r1 :: rest))).
  { apply Forall_forall. intros o Io. apply in_map_iff in Io as (x & <- & Ix).
    assert (Lo : ordinal_le (Some b) (timepoint_num x)).
    { destruct Ix as [<-|Ix]; [rewrite Ea; simpl; lia|].
      specialize (F0 x Ix). unfold by_ordinal in F0. now rewrite Ea in F0. }
    assert (Hi : ordinal_le (timepoint_num x) (Some b)).
    { destruct (La x Ix) as [R|E]; [|rewrite E, Eb; simpl; lia].
      unfold by_ordinal in R. now rewrite Eb in R. }
    unfold ordinal_le in Lo, Hi. destruct (timepoint_num x) as [c|]; [|tauto].
    f_equal. lia. }
  pose proof (surviving_no_nan (group_rows df k)) as Ny.
  rewrite S in L, Ny.
  rewrite linregress_raises in L; [discriminate|discriminate|exact Ny| |].
  - simpl. lia.
  - apply identical_ordinals_iff. split; [discriminate|]. now exists b.
Qed.

Lemma change_rows_fields (k : key) (r1 r2 : Measurement T) (d : DeltaResult T) :
  In d (change_rows k r1 r2) ->
  d = {| dr_base_subject := fst (fst k); dr_measure_type := snd (fst k);
         dr_structure := snd k;
         timepoint_from := timepoint_id r1; timepoint_to := timepoint_id r2;
         tp_num_from := timepoint_num r1; tp_num_to := timepoint_num r2;
         value_from := value r1; value_to := value r2;
         dr_absolute_change := sub (value r2) (value r1);
         dr_percent_change :=
           mul (div (sub (value r2) (value r1)) (value r1)) (of_Z 100) |} /\
  valid r1 = true /\ valid r2 = true /\ eqb (value r1) zero = false.
Proof.
  unfold change_rows, valid. destruct k as [[b m] st].
  destruct (isnan (value r1)), (isnan (value r2)), (eqb (value r1) zero);
    simpl; intros I; try (now destruct I); destruct I as [<-|[]]; auto.
Qed.

Lemma adjacent_changes_split (k : key) (rows : list (Measurement T))
  (d : DeltaResult T) :
  In d (adjacent_changes k rows) ->
  exists pre r1 r2 post,
    rows = pre ++ r1 :: r2 :: post /\ In d (change_rows k r1 r2).
Proof.
  induction rows as [|r1 rows IH]; [simpl; intros []|].
  destruct rows as [|r2 rows]; [simpl; intros []|].
  cbn [adjacent_changes]. intros I. apply in_app_or in I as [I|I].
  - exists [], r1, r2, rows. auto.
  - destruct (IH I) as (pre & a & b & post & E & Id).
    exists (r1 :: pre), a, b, post. split; [|exact Id]. simpl. now rewrite E.
Qed.

(** The rows of the table of changes, one by one. *)
Lemma deltas_row_inv (df : list (Measurement T)) (rows : list (DeltaResult T))
  (d : DeltaResult T) :
  calculate_percent_change df = Ok rows -> In d rows ->
  exists k pre r1 r2 post,
    In k (group_keys df) /\
    sort_values (group_rows df k) = pre ++ r1 :: r2 :: post /\
    In d (change_rows k r1 r2).
Proof.
  intros H I.
  assert (NE : df <> []) by (destruct df; [discriminate|discriminate]).
  rewrite (calculate_percent_change_eq NE) in H. inversion H; subst rows. clear H.
  apply in_flat_map in I as ([k g] & Ig & I). cbn [fst snd] in I.
  unfold groupby in Ig. apply in_map_iff in Ig as (k' & Ek & Ik).
  assert (k' = k) by congruence. subst k'.
  assert (g = group_rows df k) by congruence. subst g.
  apply adjacent_changes_split in I as (pre & r1 & r2 & post & E & Id).
  exists k, pre, r1, r2, post. auto.
Qed.

Lemma sorted_group_In (df : list (Measurement T)) (k : key) (r : Measurement T) :
  In r (sort_values (group_rows df k)) -> In r df /\ key_of r = k.
Proof.
  intros I. apply (Permutation_in _ (sort_values_perm sorter_ok _)) in I.
  split; [|eapply group_rows_key; eauto].
  unfold group_rows in I. now apply filter_In in I.
Qed.

(** X17.  Every row of the table of changes joins two rows of the input table
    that belong to the row's group, and copies their timepoint ids,
    ordinals and values; the "from" ordinal is never above the "to"
    ordinal, and a "from" row without an ordinal is only followed by a "to"
    row without one. *)
Theorem delta_pairs_ordered (df : list (Measurement T)) (rows : list (DeltaResult T))
  (d : DeltaResult T) :
  calculate_percent_change df = Ok rows ->
  In d rows ->
  ordinal_le (tp_num_from d) (tp_num_to d) /\
  exists r1 r2,
    In r1 df /\ In r2 df /\
    key_of r1 = delta_key d /\ key_of r2 = delta_key d /\
    timepoint_from d = timepoint_id r1 /\ timepoint_to d = timepoint_id r2 /\
    tp_num_from d = timepoint_num r1 /\ tp_num_to d = timepoint_num r2 /\
    value_from d = value r1 /\ value_to d = value r2.
Proof.
  intros H I.
  destruct (@deltas_row_inv _ _ _ H I) as (k & pre & r1 & r2 & post & Ik & E & Id).
  apply change_rows_fields in Id as (-> & _).
  cbn [tp_num_from tp_num_to delta_key dr_base_subject dr_measure_type
       dr_structure timepoint_from timepoint_to value_from value_to].
  pose proof (sort_values_ascending sorter_ok (group_rows df k)) as A. rewrite E in A.
  apply sorted_app_r in A. inversion A as [|? ? _ F]; subst.
  inversion F as [|? ? R _]; subst. split; [exact R|].
  assert (I1 : In r1 (sort_values (group_rows df k)))
    by (rewrite E; apply in_or_app; right; now left).
  assert (I2 : In r2 (sort_values (group_rows df k)))
    by (rewrite E; apply in_or_app; right; right; now left).
  apply sorted_group_In in I1 as [I1 K1]. apply sorted_group_In in I2 as [I2 K2].
  exists r1, r2. destruct k as [[b m] st]. cbn [fst snd]. repeat split; auto.
Qed.

Lemma pair_survives (g pre post : list (Measurement T)) (r1 r2 : Measurement T) :
  sort_values g = pre ++ r1 :: r2 :: post ->
  valid r1 = true -> valid r2 = true ->
  surviving g = filter valid pre ++ r1 :: r2 :: filter valid post.
Proof.
  intros E V1 V2. unfold surviving. rewrite E, filter_app. cbn [filter].
  now rewrite V1, V2.
Qed.

Lemma deltas_have_trends (df : list (Measurement T))
  (trends : list (TrendResult T)) (deltas : list (DeltaResult T))
  (d : DeltaResult T) :
  calculate_slopes df = Ok trends ->
  calculate_percent_change df = Ok deltas ->
  In d deltas ->
  exists t, In t trends /\ trend_key t = delta_key d.
Proof.
  intros Ht Hd I.
  destruct (@deltas_row_inv _ _ _ Hd I) as (k & pre & r1 & r2 & post & Ik & E & Id).
  apply change_rows_fields in Id as (-> & V1 & V2 & _).
  assert (K : delta_key
                {| dr_base_subject := fst (fst k); dr_measure_type := snd (fst k);
                   dr_structure := snd k;
                   timepoint_from := timepoint_id r1; timepoint_to := timepoint_id r2;
                   tp_num_from := timepoint_num r1; tp_num_to := timepoint_num r2;
                   value_from := value r1; value_to := value r2;
                   dr_absolute_change := sub (value r2) (value r1);
                   dr_percent_change :=
                     mul (div (sub (value r2) (value r1)) (value r1)) (of_Z 100) |}
              = k) by now destruct k as [[? ?] ?].
  rewrite K. apply (@slopes_row_exists df trends k Ht).
  rewrite <- (surviving_length sorter_ok), (@pair_survives _ _ _ _ _ E V1 V2), length_app.
  simpl. lia.
Qed.

(** X18.  A group that has a row in the table of changes has a row in the trend
    table: whenever both tables are computed, the second is empty only if
    the first is. *)
Theorem delta_group_has_trend (df : list (Measurement T))
  (trends : list (TrendResult T)) (deltas : list (DeltaResult T))
  (d : DeltaResult T) :
  calculate_slopes df = Ok trends ->
  calculate_percent_change df = Ok deltas ->
  In d deltas ->
  exists t, In t trends /\ trend_key t = delta_key d.
Proof. apply deltas_have_trends. Qed.

(** X19.  In a group with exactly two surviving rows the two calculators agree:
    the change row of the group, if there is one, carries the baseline and
    final values of the trend row, the same absolute change and the same
    percent change, bit for bit. *)
Theorem two_point_agreement (df : list (Measurement T))
  (trends : list (TrendResult T)) (deltas : list (DeltaResult T))
  (t : TrendResult T) (d : DeltaResult T) :
  calculate_slopes df = Ok trends ->
  calculate_percent_change df = Ok deltas ->
  In t trends -> In d deltas ->
  trend_key t = delta_key d ->
  n_timepoints t = 2%nat ->
  value_from d = baseline_value t /\
  value_to d = final_value t /\
  dr_absolute_change d = absolute_change t /\
  percent_change t = Some (dr_percent_change d).
Proof.
  intros Ht Hd It Id K N.
  destruct (@slopes_row_inv T num tt sorter df trends t Ht It) as (k & r0 & r1 & rest & fit & _ & S & _ & ->).
  destruct (@deltas_row_inv _ _ _ Hd Id) as (k' & pre & a & b & post & _ & E & Ic).
  apply change_rows_fields in Ic as (-> & V1 & V2 & NZ).
  rewrite trend_of_key in K. unfold delta_key in K. cbn in K.
  assert (k' = k) by (destruct k as [[? ?] ?], k' as [[? ?] ?]; cbn in K; congruence).
  subst k'. clear K.
  cbn [trend_of n_timepoints] in N. rewrite S in N.
  destruct rest as [|x rest]; [|simpl in N; lia].
  pose proof (@pair_survives _ _ _ _ _ E V1 V2) as Sv. rewrite S in Sv.
  destruct (filter valid pre) as [|p ps].
  - simpl in Sv. inversion Sv; subst.
    cbn [trend_of baseline_value final_value absolute_change percent_change
         timepoint_span value_from value_to dr_absolute_change dr_percent_change
         tp_num_from tp_num_to last].
    rewrite NZ. auto.
  - apply (f_equal (@List.length _)) in Sv. rewrite length_app in Sv.
    simpl in Sv. lia.
Qed.

Lemma change_rows_length (k : key) (a b : Measurement T) :
  (List.length (change_rows k a b) <= 1)%nat.
Proof.
  unfold change_rows. destruct k as [[? ?] ?].
  destruct (_ && _); simpl; lia.
Qed.

Lemma adjacent_changes_length (k : key) (rows : list (Measurement T)) :
  (List.length (adjacent_changes k rows) <= pred (List.length rows))%nat.
Proof.
  induction rows as [|a rows IH]; [simpl; lia|].
  destruct rows as [|b rows]; [simpl; lia|].
  cbn [adjacent_changes]. rewrite length_app.
  pose proof (change_rows_length k a b). simpl in *. lia.
Qed.

Lemma count_key (a : key) (ks : list key) :
  NoDup ks ->
  list_sum (map (fun k => if key_eqb a k then 1 else 0)%nat ks)
  = if existsb (key_eqb a) ks then 1%nat else 0%nat.
Proof.
  induction 1 as [|k ks NI N IH]; [reflexivity|].
  simpl. rewrite IH. destruct (key_eqb a k) eqn:E; [|reflexivity].
  apply key_eqb_eq in E. subst k.
  destruct (existsb (key_eqb a) ks) eqn:X; [|reflexivity].
  apply existsb_exists in X as (k & Ik & Ek). apply key_eqb_eq in Ek. now subst.
Qed.

Lemma group_sizes (df : list (Measurement T)) (ks : list key) :
  NoDup ks ->
  (forall r, In r df -> In (key_of r) ks) ->
  list_sum (map (fun k => List.length (group_rows df k)) ks) = List.length df.
Proof.
  intros N. induction df as [|r df IH]; intros A.
  - clear. induction ks; simpl; auto.
  - assert (E : forall k, List.length (group_rows (r :: df) k)
                  = ((if key_eqb (key_of r) k then 1 else 0)
                     + List.length (group_rows df k))%nat).
    { intros k. unfold group_rows. simpl. now destruct (key_eqb (key_of r) k). }
    rewrite (map_ext _ _ E).
    assert (Sum : forall (f g : key -> nat) l,
               list_sum (map (fun k => f k + g k)%nat l)
               = (list_sum (map f l) + list_sum (map g l))%nat).
    { intros f g l. induction l; simpl; lia. }
    rewrite Sum, (count_key _ N), IH by (intros x I; apply A; now right).
    assert (X : existsb (key_eqb (key_of r)) ks = true).
    { apply existsb_exists. exists (key_of r). split; [apply A; now left|].
      now apply key_eqb_eq. }
    rewrite X. reflexivity.
Qed.

Lemma deltas_bound (df : list (Measurement T)) (ks : list key) :
  (forall k, In k ks -> group_rows df k <> []) ->
  (List.length
     (flat_map (fun g => adjacent_changes (fst g) (sort_values (snd g)))
        (map (fun k => (k, group_rows df k)) ks))
   + List.length ks
   <= list_sum (map (fun k => List.length (group_rows df k)) ks))%nat.
Proof.
  induction ks as [|k ks IH]; intros NE; [simpl; lia|].
  simpl. rewrite length_app.
  pose proof (adjacent_changes_length k (sort_values (group_rows df k))) as L.
  rewrite (sort_values_length sorter_ok) in L.
  assert (0 < List.length (group_rows df k))%nat.
  { destruct (group_rows df k) eqn:G; [|simpl; lia].
    exfalso. apply (NE k); [now left|exact G]. }
  specialize (IH (fun k' I => NE k' (or_intror I))). lia.
Qed.

(** X20.  [calculate_percent_change] returns at most one row for each pair of
    neighbours of a sorted group: the number of its rows plus the number of
    groups does not exceed the number of rows of the input table. *)
Theorem delta_count_bound (df : list (Measurement T)) :
  df <> [] ->
  exists rows,
    calculate_percent_change df = Ok rows /\
    (List.length rows + List.length (groupby df) <= List.length df)%nat.
Proof.
  intros NE. rewrite (calculate_percent_change_eq NE). eexists.
  split; [reflexivity|].
  assert (G : list_sum (map (fun k => List.length (group_rows df k)) (group_keys df))
              = List.length df).
  { apply group_sizes; [apply sorted_NoDup, group_keys_sorted|].
    intros r I. apply group_keys_In. now apply in_map. }
  rewrite <- G. unfold groupby. rewrite length_map.
  apply deltas_bound. intros k Ik E.
  apply group_keys_In, in_map_iff in Ik as (r & K & I).
  assert (Ir : In r (group_rows df k)).
  { unfold group_rows. apply filter_In. split; [exact I|]. now apply key_eqb_eq. }
  rewrite E in Ir. destruct Ir.
Qed.

Lemma for_each_Raise_inv {A B : Type} (body : A -> result (list B)) (xs : list A)
  (e : exn) :
  for_each body xs = Raise e -> exists x, In x xs /\ body x = Raise e.
Proof.
  induction xs as [|x xs IH]; simpl; [discriminate|].
  destruct (body x) as [rs|e0] eqn:Ex; cbn [bind].
  - destruct (for_each body xs) as [more|e1]; cbn [bind]; [discriminate|].
    intros H. inversion H; subst. destruct (IH eq_refl) as (y & I & E). eauto.
  - intros H. inversion H; subst. eauto.
Qed.

(** X21.  On a table in which some row has an ordinal (the column is then
    numeric), [calculate_slopes] raises for one reason only: [ValueError]
    from the fit of a group with at least two values that are not missing,
    all of them at one and the same ordinal. *)
Theorem slopes_failure_cause (df : list (Measurement T)) (e : exn) :
  (exists r, In r df /\ has_ordinal r = true) ->
  calculate_slopes df = Raise e ->
  e = ValueError /\
  exists k z,
    In k (group_keys df) /\
    (2 <= List.length (filter valid (group_rows df k)))%nat /\
    forall r, In r (group_rows df k) -> valid r = true -> timepoint_num r = Some z.
Proof.
  intros (r & Ir & Ho) H.
  assert (H' : for_each slope_rows (groupby df) = Raise e)
    by (now rewrite <- (calculate_slopes_numeric df r Ir Ho)).
  apply for_each_Raise_inv in H' as ([k g] & Ig & E).
  split; [eapply slope_rows_raises_only; eauto|].
  unfold groupby in Ig. apply in_map_iff in Ig as (k' & Ek & Ik).
  assert (k' = k) by congruence. subst k'.
  assert (g = group_rows df k) by congruence. subst g.
  rewrite slope_rows_eq in E.
  destruct (List.length (group_rows df k) <? 2)%nat; [discriminate|].
  destruct (surviving (group_rows df k)) as [|r0 [|r1 rest]] eqn:S;
    try discriminate.
  destruct (identical_ordinals (map (@timepoint_num T) (r0 :: r1 :: rest))) eqn:Id.
  - apply identical_ordinals_iff in Id as [_ [z Same]].
    exists k, z. split; [exact Ik|]. split.
    + rewrite <- (surviving_length sorter_ok), S. simpl. lia.
    + intros x Ix Vx. rewrite Forall_forall in Same. apply Same.
      apply in_map. rewrite <- S.
      apply (Permutation_in _ (Permutation_sym (surviving_perm sorter_ok _))).
      apply filter_In. auto.
  - destruct (@linregress_returns T num tt
                (map (@timepoint_num T) (r0 :: r1 :: rest))
                (map (@value T) (r0 :: r1 :: rest))) as [fit L];
      [discriminate|discriminate|exact Id|].
    rewrite L in E. discriminate.
Qed.

End WithClasses.

Lemma trend_rows_ascending_witness :
  StronglySorted key_lt (map trend_key slopes_sample).
Proof.
  apply (@trend_rows_ascending float _ _ _ loaded_sample slopes_sample).
  vm_compute. reflexivity.
Defined.

Lemma trend_row_iff_witness :
  (exists row, In row slopes_sample /\ trend_key row = k0) <->
  (2 <= List.length (filter valid (group_rows loaded_sample k0)))%nat.
Proof.
  apply (@trend_row_iff float _ _ _ InsertionSort.insertion_argsort_ok
           loaded_sample slopes_sample k0).
  vm_compute. reflexivity.
Defined.

Lemma timepoint_span_positive_witness :
  calculate_slopes df_two = Ok [trend_1_2] /\
  timepoint_span trend_1_2 = Some 1%Z /\ (0 < 1)%Z.
Proof.
  assert (H : calculate_slopes df_two = Ok [trend_1_2]) by (vm_compute; reflexivity).
  split; [exact H|]. split; [reflexivity|].
  apply (@timepoint_span_positive float _ _ _ InsertionSort.insertion_argsort_ok
           df_two [trend_1_2] trend_1_2 1%Z); [|exact H|now left|reflexivity].
  intros r z [<-|[<-|[]]] E; inversion E; vm_compute; discriminate.
Defined.

Lemma delta_pairs_ordered_witness :
  ordinal_le (tp_num_from delta_1_2) (tp_num_to delta_1_2) /\
  exists r1 r2,
    In r1 df_c8 /\ In r2 df_c8 /\
    key_of r1 = delta_key delta_1_2 /\ key_of r2 = delta_key delta_1_2 /\
    timepoint_from delta_1_2 = timepoint_id r1 /\
    timepoint_to delta_1_2 = timepoint_id r2 /\
    tp_num_from delta_1_2 = timepoint_num r1 /\
    tp_num_to delta_1_2 = timepoint_num r2 /\
    value_from delta_1_2 = value r1 /\ value_to delta_1_2 = value r2.
Proof.
  apply (@delta_pairs_ordered float _ _ InsertionSort.insertion_argsort_ok
           df_c8 [delta_1_2; delta_2_3] delta_1_2).
  - vm_compute. reflexivity.
  - now left.
Defined.

Lemma delta_group_has_trend_witness :
  exists t, In t slopes_sample /\ trend_key t = delta_key (hd delta_1_2 deltas_sample).
Proof.
  apply (@delta_group_has_trend float _ _ _ InsertionSort.insertion_argsort_ok
           loaded_sample slopes_sample deltas_sample (hd delta_1_2 deltas_sample)).
  - vm_compute. reflexivity.
  - vm_compute. reflexivity.
  - now left.
Defined.

Lemma two_point_agreement_witness :
  value_from (hd delta_1_2 deltas_sample) = baseline_value (hd trend_1_2 slopes_sample) /\
  value_to (hd delta_1_2 deltas_sample) = final_value (hd trend_1_2 slopes_sample) /\
  dr_absolute_change (hd delta_1_2 deltas_sample)
  = absolute_change (hd trend_1_2 slopes_sample) /\
  percent_change (hd trend_1_2 slopes_sample)
  = Some (dr_percent_change (hd delta_1_2 deltas_sample)).
Proof.
  apply (@two_point_agreement float _ _ _ loaded_sample slopes_sample deltas_sample).
  - vm_compute. reflexivity.
  - vm_compute. reflexivity.
  - now left.
  - now left.
  - reflexivity.
  - reflexivity.
Defined.

Lemma delta_count_bound_witness :
  exists rows,
    calculate_percent_change df_c8 = Ok rows /\
    (List.length rows + List.length (groupby df_c8) <= List.length df_c8)%nat.
Proof.
  apply (@delta_count_bound float _ _ InsertionSort.insertion_argsort_ok df_c8).
  discriminate.
Defined.

Lemma slopes_failure_cause_witness :
  ValueError = ValueError /\
  exists k z,
    In k (group_keys df_same) /\
    (2 <= List.length (filter valid (group_rows df_same k)))%nat /\
    forall r, In r (group_rows df_same k) -> valid r = true -> timepoint_num r = Some z.
Proof.
  apply (@slopes_failure_cause float _ _ _ InsertionSort.insertion_argsort_ok df_same).
  - exists (mk "sub-001" "sub-001_ses-1a" (Some 1%Z) 3.5%float).
    split; [now left|reflexivity].
  - vm_compute. reflexivity.
Defined.

End Shape.

(** ** The whole calculation *)

Module Run.

Import LoopFacts Delta Shape.
Local Open Scope list_scope.

Section WithClasses.

Context {T : Type} {num : Num T} {tt : TTest T} {sorter : Sorter}
        {P : FloatParser T}.

(** X22.  A run that ends in an exception has written no file: the loader and
    the trend estimator, the only steps that can raise, both come before
    the first file is written. *)
Theorem failure_writes_nothing (entries : list DirEntry) (written : list (Written T))
  (e : exn) :
  calculate_longitudinal_stats entries = (written, Raise e) ->
  written = [].
Proof.
  unfold calculate_longitudinal_stats.
  destruct (load_longitudinal_stats entries) as [df|e0]; [|congruence].
  destruct (is_empty df) eqn:E; [congruence|].
  destruct (calculate_slopes df) as [slopes|e1]; [|congruence].
  rewrite calculate_percent_change_eq by (destruct df; [discriminate|congruence]).
  congruence.
Qed.

Lemma percent_file_after_slopes (entries : list DirEntry)
  (written : list (Written T)) (deltas : list (DeltaResult T)) :
  argsort_spec sorter ->
  fst (calculate_longitudinal_stats entries) = written ->
  In (PercentCsv deltas) written ->
  exists slopes, written = [SlopesCsv slopes; PercentCsv deltas].
Proof.
  intros sorter_ok. unfold calculate_longitudinal_stats.
  destruct (load_longitudinal_stats entries) as [df|e0];
    [|intros <- []].
  destruct (is_empty df) eqn:E; [intros <- []|].
  destruct (calculate_slopes df) as [slopes|e1] eqn:Hs; [|intros <- []].
  destruct (calculate_percent_change df) as [percent|e2] eqn:Hp.
  - cbn [fst]. intros <- I.
    assert (Ip : percent = deltas /\ is_empty percent = false).
    { apply in_app_or in I as [I|I].
      - destruct (is_empty slopes); simpl in I; [destruct I|].
        destruct I as [I|[]]. discriminate.
      - destruct (is_empty percent) eqn:Ep; simpl in I; [destruct I|].
        destruct I as [I|[]]. inversion I. auto. }
    destruct Ip as [-> Ep]. rewrite Ep. cbn [negb].
    destruct deltas as [|d deltas]; [discriminate|].
    destruct (@deltas_have_trends T num tt sorter sorter_ok df slopes (d :: deltas) d
                Hs Hp (or_introl eq_refl)) as (t & It & _).
    destruct slopes as [|t0 slopes]; [destruct It|].
    exists (t0 :: slopes). reflexivity.
  - cbn [fst]. intros <- I.
    destruct (is_empty slopes); simpl in I; [destruct I|].
    destruct I as [I|[]]. discriminate.
Qed.

Lemma loaded_rows_perm (entries entries' : list DirEntry) :
  Permutation entries entries' ->
  exists rows rows',
    for_each entry_rows entries = Ok rows /\
    for_each entry_rows entries' = Ok rows' /\
    Permutation rows rows'.
Proof.
  intros Pm.
  set (f := fun e : DirEntry =>
              match entry_rows e with Ok rs => rs | Raise _ => [] end).
  assert (F : forall es, for_each entry_rows es = Ok (flat_map f es)).
  { intros es. rewrite <- (for_each_total f es).
    induction es as [|e es IH]; [reflexivity|].
    cbn [for_each]. rewrite IH. unfold f at 2.
    now destruct (Loader.entry_rows_returns e) as [rs ->]. }
  exists (flat_map f entries), (flat_map f entries').
  repeat split; auto. now apply Permutation_flat_map.
Qed.

(** X23.  The result of a run does not depend on the order in which the
    directory is listed, as long as no group of the loaded table holds two
    rows with the same ordinal (a missing ordinal counting as one): the
    same files with the same rows, or the same exception. *)
Theorem listing_order_irrelevant (entries entries' : list DirEntry) :
  argsort_spec sorter ->
  Permutation entries entries' ->
  (forall df, load_longitudinal_stats entries = Ok df ->
     forall k, NoDup (map (@timepoint_num T) (group_rows df k))) ->
  calculate_longitudinal_stats entries = calculate_longitudinal_stats entries'.
Proof.
  intros sorter_ok Pm N. unfold calculate_longitudinal_stats.
  destruct (loaded_rows_perm Pm) as (rows & rows' & E & E' & Pr).
  unfold load_longitudinal_stats in *. rewrite E, E' in *. cbn [bind] in *.
  destruct rows as [|r rows].
  { apply Permutation_nil in Pr. subst rows'. reflexivity. }
  destruct rows' as [|r' rows'].
  { apply Permutation_sym, Permutation_nil in Pr. discriminate. }
  specialize (N _ eq_refl). cbn [is_empty].
  assert (Es : calculate_slopes (r :: rows) = calculate_slopes (r' :: rows')).
  { unfold calculate_slopes. rewrite <- (object_column_perm Pr).
    apply Determinism.for_each_groups; auto.
    intros k. apply (Determinism.slope_rows_in_perm sorter_ok);
      [now apply GroupFacts.group_rows_perm|apply N]. }
  assert (Ed : calculate_percent_change (r :: rows)
               = calculate_percent_change (r' :: rows')).
  { unfold calculate_percent_change. apply Determinism.for_each_groups; auto.
    intros k. apply (Determinism.delta_rows_perm sorter_ok);
      [now apply GroupFacts.group_rows_perm|apply N]. }
  now rewrite Es, Ed.
Qed.

(** X24.  A run never writes the file of percent changes alone: when it is
    written, the file of slope estimates has been written before it. *)
Theorem percent_file_never_alone (entries : list DirEntry)
  (deltas : list (DeltaResult T)) :
  argsort_spec sorter ->
  In (PercentCsv deltas) (fst (calculate_longitudinal_stats entries)) ->
  exists slopes,
    fst (calculate_longitudinal_stats entries) = [SlopesCsv slopes; PercentCsv deltas].
Proof.
  intros sorter_ok I.
  exact (@percent_file_after_slopes entries _ deltas sorter_ok eq_refl I).
Qed.

End WithClasses.

Lemma percent_file_never_alone_witness :
  exists slopes,
    fst (calculate_longitudinal_stats listing_sample)
    = [SlopesCsv slopes; PercentCsv deltas_sample].
Proof.
  apply (@percent_file_never_alone float _ _ _ _ listing_sample deltas_sample
           InsertionSort.insertion_argsort_ok).
  vm_compute. right. left. reflexivity.
Defined.

Lemma listing_order_irrelevant_witness :
  calculate_longitudinal_stats (T := float) listing_pair
  = calculate_longitudinal_stats (List.rev listing_pair).
Proof.
  apply (@listing_order_irrelevant float _ _ _ _ listing_pair (List.rev listing_pair)
           InsertionSort.insertion_argsort_ok).
  - apply Permutation_rev.
  - intros df H. vm_compute in H. inversion H; subst df. intros k.
    unfold group_rows. simpl filter.
    repeat match goal with
           | |- context [key_eqb ?a k] => destruct (key_eqb a k)
           end;
      simpl; repeat constructor; simpl; intuition discriminate.
Defined.

Lemma failure_writes_nothing_witness :
  calculate_longitudinal_stats listing_same_session
  = (@nil (Written float), Raise ValueError) /\
  @nil (Written float) = [].
Proof.
  split; [vm_compute; reflexivity|].
  apply (@failure_writes_nothing float _ _ _ _ listing_same_session [] ValueError).
  vm_compute. reflexivity.
Defined.

End Run.


(** ** Two points *)

Module TwoPoint.

Import SortFacts GroupFacts LoopFacts FitFacts Trend Shape.
Local Open Scope list_scope.

Section WithClasses.

Context {T : Type} {num : Num T} {tt : TTest T} {sorter : Sorter}.
Hypothesis sorter_ok : argsort_spec sorter.




End WithClasses.



End TwoPoint.
